(** * autoAppAnalyze: URL normalisation, merge engine and snapshot differ

    A shallow embedding of [src/utils/url_normalizer.py] and
    [src/mapping/url_mapper.py], together with the part of Python's
    [urllib.parse] and [re] that these two modules call.

    Conventions of the embedding.
    - A Python [str] is a [string]: a sequence of 8-bit characters.  The
      embedding is exact on ASCII text; case mapping ([str.lower]) and the
      character classes ([\d], [isalpha]) are the ASCII ones, characters
      above 127 are caseless and belong to no class.
    - A Python exception is a value [Raise e] of type [result]; a
      [try: ... except Exception] block is [try_except].
    - [time.time()] is a reading of an environment clock, [ipaddress.ip_address]
      (used by [urlsplit] to validate a bracketed host) is an environment
      function; both are section variables.
    - [print] writes to the standard output of the environment and is a
      section variable too: it returns or raises, as the encoding of the
      stream decides for the text it is given.
    - Lists are values: the rows of the static results each have a parameter
      list of their own.
    - A [dict] used as a record becomes a record; a key that the code reads
      with [.get(key, default)] becomes an [option] field. *)

From stdpp Require Import base strings list gmap sets.
From Stdlib Require Import ZArith Ascii String.

Local Open Scope string_scope.

(** ** Exceptions *)

Inductive exn : Type :=
| ValueError (msg : string)
| OSError (msg : string)
| JSONDecodeError (msg : string)
| UnicodeEncodeError (msg : string)
| KeyError (key : string).

(** [str(e)], which is what an f-string writes for [{e}]: the message of the
    exception; for a [KeyError], the key between quotes. *)
Definition exn_str (e : exn) : string :=
  match e with
  | ValueError msg | OSError msg | JSONDecodeError msg | UnicodeEncodeError msg => msg
  | KeyError key => "'" +:+ key +:+ "'"
  end.

Inductive result (A : Type) : Type :=
| Ok (a : A)
| Raise (e : exn).
Arguments Ok {A} a.
Arguments Raise {A} e.

#[global] Instance result_ret : MRet result := fun A a => Ok a.
#[global] Instance result_bind : MBind result := fun A B f m =>
  match m with Ok a => f a | Raise e => Raise e end.

(** [try: body  except Exception as e: handler e] *)
Definition try_except {A} (body : result A) (handler : exn → result A) : result A :=
  match body with
  | Ok a => Ok a
  | Raise e => handler e
  end.

(** ** Python [str] primitives *)

Definition code (c : ascii) : nat := nat_of_ascii c.

Definition in_range (lo hi : nat) (c : ascii) : bool :=
  (lo <=? code c)%nat && (code c <=? hi)%nat.

Definition is_digit (c : ascii) : bool := in_range 48 57 c.
Definition is_upper (c : ascii) : bool := in_range 65 90 c.
Definition is_lower (c : ascii) : bool := in_range 97 122 c.
Definition is_alpha (c : ascii) : bool := is_upper c || is_lower c.
Definition is_alnum (c : ascii) : bool := is_alpha c || is_digit c.
Definition is_ascii (c : ascii) : bool := (code c <? 128)%nat.
(** [[0-9a-f]] *)
Definition is_lower_hex (c : ascii) : bool := is_digit c || in_range 97 102 c.
(** [[a-fA-F0-9]] *)
Definition is_hex (c : ascii) : bool := is_lower_hex c || in_range 65 70 c.

Definition eqb_char (a b : ascii) : bool := Ascii.eqb a b.

Definition lower_char (c : ascii) : ascii :=
  if is_upper c then ascii_of_nat (code c + 32) else c.

(** [s.lower()] *)
Fixpoint lower (s : string) : string :=
  match s with
  | "" => ""
  | String c t => String (lower_char c) (lower t)
  end.

(** [len(s)] *)
Definition len (s : string) : nat := String.length s.

(** [s[:n]] and [s[n:]] for [n >= 0] *)
Fixpoint str_take (n : nat) (s : string) : string :=
  match n, s with
  | S k, String c t => String c (str_take k t)
  | _, _ => ""
  end.

Fixpoint str_drop (n : nat) (s : string) : string :=
  match n, s with
  | S k, String _ t => str_drop k t
  | _, _ => s
  end.

(** [s.startswith(p)] *)
Fixpoint startswith (p s : string) : bool :=
  match p, s with
  | "", _ => true
  | String a p', String b s' => eqb_char a b && startswith p' s'
  | String _ _, "" => false
  end.

(** [sub in s] *)
Fixpoint contains (sub s : string) : bool :=
  startswith sub s ||
  match s with
  | "" => false
  | String _ t => contains sub t
  end.

(** [c in s] for a single character *)
Fixpoint has_char (c : ascii) (s : string) : bool :=
  match s with
  | "" => false
  | String d t => eqb_char c d || has_char c t
  end.

(** [s.find(c)] for a single character; [None] is Python's [-1] *)
Fixpoint find (c : ascii) (s : string) : option nat :=
  match s with
  | "" => None
  | String d t => if eqb_char c d then Some 0 else S <$> find c t
  end.

(** [s.find(c, start)] *)
Definition find_from (c : ascii) (s : string) (start : nat) : option nat :=
  if (start <=? len s)%nat then (λ i, start + i) <$> find c (str_drop start s) else None.

(** [s.rfind(c)] *)
Fixpoint rfind (c : ascii) (s : string) : option nat :=
  match s with
  | "" => None
  | String d t =>
      match rfind c t with
      | Some i => Some (S i)
      | None => if eqb_char c d then Some 0 else None
      end
  end.

(** [s.lstrip(chars)], the character set given as a predicate *)
Fixpoint lstrip (p : ascii → bool) (s : string) : string :=
  match s with
  | "" => ""
  | String c t => if p c then lstrip p t else s
  end.

(** [s.rstrip(chars)] *)
Fixpoint rstrip (p : ascii → bool) (s : string) : string :=
  match s with
  | "" => ""
  | String c t =>
      match rstrip p t with
      | "" => if p c then "" else String c ""
      | r => String c r
      end
  end.

(** [s.strip(chars)] *)
Definition strip (p : ascii → bool) (s : string) : string := rstrip p (lstrip p s).

(** [s.replace(old, new)]: every non-overlapping occurrence, left to right.
    [skip] counts the characters of an occurrence still to be passed over. *)
Fixpoint replace_from (old new : string) (skip : nat) (s : string) : string :=
  match s with
  | "" => ""
  | String c t =>
      match skip with
      | S k => replace_from old new k t
      | O =>
          if startswith old s
          then new +:+ replace_from old new (len old - 1) t
          else String c (replace_from old new 0 t)
      end
  end.

(** With an empty [old], Python puts [new] before every character and at
    the end. *)
Fixpoint replace_empty (new : string) (s : string) : string :=
  match s with
  | "" => new
  | String c t => new +:+ String c (replace_empty new t)
  end.

Definition replace (old new s : string) : string :=
  match old with
  | "" => replace_empty new s
  | _ => replace_from old new 0 s
  end.

(** [s.partition(c)] and [s.rpartition(c)] for a single character: the part
    before, whether the separator was found, the part after. *)
Definition partition (c : ascii) (s : string) : string * bool * string :=
  match find c s with
  | Some i => (str_take i s, true, str_drop (S i) s)
  | None => (s, false, "")
  end.

Definition rpartition (c : ascii) (s : string) : string * bool * string :=
  match rfind c s with
  | Some i => (str_take i s, true, str_drop (S i) s)
  | None => ("", false, s)
  end.

(** Longest prefix of characters in a class, and what follows it. *)
Fixpoint span_class (p : ascii → bool) (s : string) : string * string :=
  match s with
  | "" => ("", "")
  | String c t =>
      if p c then let '(run, rest) := span_class p t in (String c run, rest)
      else ("", s)
  end.

Fixpoint str_forallb (p : ascii → bool) (s : string) : bool :=
  match s with
  | "" => true
  | String c t => p c && str_forallb p t
  end.

Definition chr (n : nat) : string := String (ascii_of_nat n) "".

(** ** [urllib.parse] (CPython 3.11): [urlparse] and [urlunparse] *)

Definition uses_netloc : list string :=
  [""; "ftp"; "http"; "gopher"; "nntp"; "telnet";
   "imap"; "wais"; "file"; "mms"; "https"; "shttp";
   "snews"; "prospero"; "rtsp"; "rtspu"; "rsync";
   "svn"; "svn+ssh"; "sftp"; "nfs"; "git"; "git+ssh";
   "ws"; "wss"].

Definition uses_params : list string :=
  [""; "ftp"; "hdl"; "prospero"; "http"; "imap";
   "https"; "shttp"; "rtsp"; "rtspu"; "sip"; "sips";
   "mms"; "sftp"; "tel"].

(** [x in l] for a list of strings *)
Definition str_in_list (x : string) (l : list string) : bool :=
  existsb (String.eqb x) l.

(** Characters valid in scheme names *)
Definition scheme_chars (c : ascii) : bool :=
  is_alnum c || has_char c "+-.".

(** [_WHATWG_C0_CONTROL_OR_SPACE]: the characters 0x00 .. 0x20 *)
Definition WHATWG_C0_CONTROL_OR_SPACE (c : ascii) : bool := (code c <=? 32)%nat.

(** [_UNSAFE_URL_BYTES_TO_REMOVE]: tab, carriage return, line feed *)
Definition UNSAFE_URL_BYTES_TO_REMOVE : list string := [chr 9; chr 13; chr 10].

Record SplitResult : Type := mkSplitResult {
  s_scheme : string;
  s_netloc : string;
  s_path : string;
  s_query : string;
  s_fragment : string
}.

Record ParseResult : Type := mkParseResult {
  p_scheme : string;
  p_netloc : string;
  p_path : string;
  p_params : string;
  p_query : string;
  p_fragment : string
}.

(** What [ipaddress.ip_address] returns: the class of the address. *)
Inductive ip_version : Type := IPv4Address | IPv6Address.

(** [_splitnetloc(url, start)] *)
Definition _splitnetloc (url : string) (start : nat) : string * string :=
  let delim :=
    foldl (λ delim c,
             match find_from c url start with
             | Some wdelim => Nat.min delim wdelim
             | None => delim
             end)
          (len url) ["/"; "?"; "#"]%char in
  (str_drop start (str_take delim url), str_drop delim url).

(** [_splitparams(url)] *)
Definition _splitparams (url : string) : string * string :=
  if has_char "/" url then
    match find_from ";" url (default 0 (rfind "/" url)) with
    | None => (url, "")
    | Some i => (str_take i url, str_drop (i + 1) url)
    end
  else
    match find ";" url with
    | Some i => (str_take i url, str_drop (i + 1) url)
    | None =>
        (* [i = -1]: [url[:-1]] and [url[0:]] *)
        (str_take (len url - 1) url, url)
    end.

(** [urlunsplit(components)] *)
Definition urlunsplit (scheme netloc url query fragment : string) : string :=
  let url :=
    if negb (String.eqb netloc "") ||
       (negb (String.eqb scheme "") && str_in_list scheme uses_netloc
        && negb (String.eqb (str_take 2 url) "//"))
    then
      let url :=
        if negb (String.eqb url "") && negb (String.eqb (str_take 1 url) "/")
        then "/" +:+ url else url in
      "//" +:+ netloc +:+ url
    else url in
  let url := if negb (String.eqb scheme "") then scheme +:+ ":" +:+ url else url in
  let url := if negb (String.eqb query "") then url +:+ "?" +:+ query else url in
  let url := if negb (String.eqb fragment "") then url +:+ "#" +:+ fragment else url in
  url.

(** [urlunparse(components)] *)
Definition urlunparse (scheme netloc url params query fragment : string) : string :=
  let url := if negb (String.eqb params "") then url +:+ ";" +:+ params else url in
  urlunsplit scheme netloc url query fragment.

(** [re.match(r"\Av[a-fA-F0-9]+\..+\Z", hostname)]: a [v], one or more
    hexadecimal digits, a dot, then one or more characters other than a
    line feed, up to the end. *)
Definition is_ipvfuture (hostname : string) : bool :=
  match hostname with
  | String "v" t =>
      let '(digits, rest) := span_class is_hex t in
      match digits, rest with
      | String _ _, String "." (String c u) =>
          str_forallb (λ d, negb (eqb_char d (ascii_of_nat 10))) (String c u)
      | _, _ => false
      end
  | _ => false
  end.

Section Engine.

#[local] Set Default Proof Using "Type".

(** [ipaddress.ip_address(s)]: [None] when it raises [ValueError]. *)
Variable ip_address : string → option ip_version.

(** [time.time()]: the [n]-th reading of the wall clock, in clock ticks. *)
Variable clock : nat → Z.

(** [print(text)]: writes [text] to the standard output and returns [None],
    or raises: [UnicodeEncodeError] when the encoding of the stream has no
    code for a character of [text].  What it does depends on [text] only. *)
Variable print : string → result unit.

(** [_check_bracketed_host(hostname)] *)
Definition _check_bracketed_host (hostname : string) : result unit :=
  if startswith "v" hostname then
    if negb (is_ipvfuture hostname)
    then Raise (ValueError "IPvFuture address is invalid")
    else Ok ()
  else
    match ip_address hostname with
    | None => Raise (ValueError "does not appear to be an IPv4 or IPv6 address")
    | Some IPv4Address => Raise (ValueError "An IPv4 address cannot be in brackets")
    | Some IPv6Address => Ok ()
    end.

(** [_check_bracketed_netloc(netloc)] *)
Definition _check_bracketed_netloc (netloc : string) : result unit :=
  let hostname_and_port := (rpartition "@" netloc).2 in
  let '(before_bracket, have_open_br, bracketed) := partition "[" hostname_and_port in
  if have_open_br then
    if negb (String.eqb before_bracket "") then Raise (ValueError "Invalid IPv6 URL")
    else
      let '(hostname, _, port) := partition "]" bracketed in
      if negb (String.eqb port "") && negb (startswith ":" port)
      then Raise (ValueError "Invalid IPv6 URL")
      else _check_bracketed_host hostname
  else
    let '(hostname, _, port) := partition ":" hostname_and_port in
    _check_bracketed_host hostname.

(** [urlsplit(url)] with the default [scheme=''] and [allow_fragments=True],
    one definition for each block of statements. *)

(** [url = url.lstrip(_WHATWG_C0_CONTROL_OR_SPACE)] and
    [for b in _UNSAFE_URL_BYTES_TO_REMOVE: url = url.replace(b, "")] *)
Definition strip_unsafe (url : string) : string :=
  let url := lstrip WHATWG_C0_CONTROL_OR_SPACE url in
  foldl (λ url b, replace b "" url) url UNSAFE_URL_BYTES_TO_REMOVE.

(** [i = url.find(':')] and the test of [url[:i]]: the scheme and the rest. *)
Definition split_scheme (url : string) : string * string :=
  match find ":" url, url with
  | Some (S i), String c0 _ =>
      if is_ascii c0 && is_alpha c0 && str_forallb scheme_chars (str_take (S i) url)
      then (lower (str_take (S i) url), str_drop (S i + 1) url)
      else ("", url)
  | _, _ => ("", url)
  end.

(** [if url[:2] == '//': ...]: the netloc and the rest, or [ValueError]. *)
Definition split_netloc (url : string) : result (string * string) :=
  if String.eqb (str_take 2 url) "//" then
    let '(netloc, url) := _splitnetloc url 2 in
    if (has_char "[" netloc && negb (has_char "]" netloc)) ||
       (has_char "]" netloc && negb (has_char "[" netloc))
    then Raise (ValueError "Invalid IPv6 URL")
    else if has_char "[" netloc && has_char "]" netloc
    then _check_bracketed_netloc netloc ;; Ok (netloc, url)
    else Ok (netloc, url)
  else Ok ("", url).

(** [if c in url: url, rest = url.split(c, 1)], with [rest = ''] otherwise. *)
Definition split_once (c : ascii) (url : string) : string * string :=
  if has_char c url
  then let '(a, _, b) := partition c url in (a, b)
  else (url, "").

(** [_checknetloc] only inspects a netloc with characters above 127, where it
    applies Unicode NFKC normalisation; it does nothing on ASCII and is left
    out. *)
Definition urlsplit (url : string) : result SplitResult :=
  let url := strip_unsafe url in
  let '(scheme, url) := split_scheme url in
  '(netloc, url) ← split_netloc url;
  let '(url, fragment) := split_once "#" url in
  let '(url, query) := split_once "?" url in
  Ok (mkSplitResult scheme netloc url query fragment).

(** [urlparse(url)] *)
Definition urlparse (url : string) : result ParseResult :=
  splitresult ← urlsplit url;
  let 'mkSplitResult scheme netloc url query fragment := splitresult in
  let '(url, params) :=
    if str_in_list scheme uses_params && has_char ";" url
    then _splitparams url
    else (url, "") in
  Ok (mkParseResult scheme netloc url params query fragment).

(** ** [re.findall] for the three patterns of [extract_path_parameters] *)

(** [re.findall(pattern, s)] for a pattern without groups that matches no
    empty string: scan left to right; where the pattern matches, record the
    match and resume after it, otherwise move one character on.  [match_at s]
    is the match of the pattern at the start of [s]; [skip] counts the
    characters of the last match still to be passed over. *)
Fixpoint findall_from (match_at : string → option string) (skip : nat) (s : string)
  : list string :=
  match s with
  | "" => []
  | String _ t =>
      match skip with
      | S k => findall_from match_at k t
      | O =>
          match match_at s with
          | Some m => m :: findall_from match_at (len m - 1) t
          | None => findall_from match_at 0 t
          end
      end
  end.

Definition findall (match_at : string → option string) (s : string) : list string :=
  findall_from match_at 0 s.

(** [[cls]{n}] at the start of [s]: what follows it. *)
Fixpoint match_group (cls : ascii → bool) (n : nat) (s : string) : option string :=
  match n, s with
  | O, _ => Some s
  | S k, String c t => if cls c then match_group cls k t else None
  | S _, "" => None
  end.

Definition match_literal (c : ascii) (s : string) : option string :=
  match s with
  | String d t => if eqb_char c d then Some t else None
  | "" => None
  end.

(** [uuid_pattern = r'[0-9a-f]{8}-[0-9a-f]{4}-[0-9a-f]{4}-[0-9a-f]{4}-[0-9a-f]{12}'] *)
Definition uuid_pattern (s : string) : option string :=
  s1 ← match_group is_lower_hex 8 s;
  s2 ← match_literal "-" s1;
  s3 ← match_group is_lower_hex 4 s2;
  s4 ← match_literal "-" s3;
  s5 ← match_group is_lower_hex 4 s4;
  s6 ← match_literal "-" s5;
  s7 ← match_group is_lower_hex 4 s6;
  s8 ← match_literal "-" s7;
  _ ← match_group is_lower_hex 12 s8;
  Some (str_take 36 s).

(** [r'/[cls]+/']: a slash, a longest non-empty run of the class, a slash.
    No character of the class is a slash, so backtracking into the run never
    helps. *)
Definition slash_run_pattern (cls : ascii → bool) (s : string) : option string :=
  match s with
  | String "/" t =>
      match span_class cls t with
      | (String c run, String "/" _) => Some ("/" +:+ String c run +:+ "/")
      | _ => None
      end
  | _ => None
  end.

(** [numeric_pattern = r'/\d+/'] *)
Definition numeric_pattern : string → option string := slash_run_pattern is_digit.

(** [alphanumeric_pattern = r'/[a-zA-Z0-9]+/'] *)
Definition alphanumeric_pattern : string → option string := slash_run_pattern is_alnum.

(** ** [url_normalizer.py] *)

(** An extracted path parameter: [{'type': ..., 'value': ...}] *)
Record PathParam : Type := mkParam {
  ptype : string;
  value : string
}.

Definition is_slash (c : ascii) : bool := eqb_char c "/".
Definition is_dot (c : ascii) : bool := eqb_char c ".".

(** The messages of the two handlers of [url_normalizer.py]. *)
Definition normalize_error (url : string) (e : exn) : string :=
  "Error normalizing URL " +:+ url +:+ ": " +:+ exn_str e.

Definition extract_error (url : string) (e : exn) : string :=
  "Error extracting path parameters from URL " +:+ url +:+ ": " +:+ exn_str e.

(** [normalize_url(url)].  The handler prints before it returns, so an
    exception of [print] leaves the function. *)
Definition normalize_url (url : string) : result string :=
  try_except
    (parsed ← urlparse url;
     let scheme :=
       if negb (String.eqb (p_scheme parsed) "") then lower (p_scheme parsed) else "" in
     let netloc :=
       if negb (String.eqb (p_netloc parsed) "")
       then rstrip is_dot (lower (p_netloc parsed)) else "" in
     let path := p_path parsed in
     let path :=
       if negb (String.eqb path "") && negb (String.eqb path "/")
       then rstrip is_slash path else path in
     let query := p_query parsed in
     let fragment := p_fragment parsed in
     let normalized := urlunparse scheme netloc path (p_params parsed) query fragment in
     Ok normalized)
    (λ e, print (normalize_error url e);; Ok url).

(** The words that the alphanumeric pass never takes for a parameter. *)
Definition common_words : list string :=
  ["api"; "v1"; "v2"; "v3"; "users"; "user"; "products"; "product"].

(** The three passes of [extract_path_parameters] over the path, each a
    [for match in ...] loop that appends to [parameters] and rewrites [path]. *)
Definition extract_uuids (path : string) (parameters : list PathParam)
  : string * list PathParam :=
  foldl (λ '(path, parameters) match_,
           (replace match_ "{uuid}" path,
            (parameters ++ [mkParam "uuid" match_])%list))
        (path, parameters) (findall uuid_pattern path).

Definition extract_numeric_ids (path : string) (parameters : list PathParam)
  : string * list PathParam :=
  foldl (λ '(path, parameters) match_,
           let param_value := strip is_slash match_ in
           (replace match_ "/{id}/" path,
            (parameters ++ [mkParam "numeric_id" param_value])%list))
        (path, parameters) (findall numeric_pattern path).

Definition extract_alphanumeric_ids (path : string) (parameters : list PathParam)
  : string * list PathParam :=
  foldl (λ '(path, parameters) match_,
           let param_value := strip is_slash match_ in
           if negb (str_in_list (lower param_value) common_words)
           then (replace ("/" +:+ param_value +:+ "/") "/{param}/" path,
                 (parameters ++ [mkParam "alphanumeric_id" param_value])%list)
           else (path, parameters))
        (path, parameters) (findall alphanumeric_pattern path).

(** [extract_path_parameters(url)] *)
Definition extract_path_parameters (url : string) : result (string * list PathParam) :=
  try_except
    (parsed ← urlparse url;
     let path := p_path parsed in
     let parameters := [] in
     let '(path, parameters) := extract_uuids path parameters in
     let '(path, parameters) := extract_numeric_ids path parameters in
     let '(path, parameters) := extract_alphanumeric_ids path parameters in
     let normalized_url :=
       urlunparse (p_scheme parsed) (p_netloc parsed) path (p_params parsed)
                  (p_query parsed) (p_fragment parsed) in
     Ok (normalized_url, parameters))
    (λ e, print (extract_error url e);; Ok (url, [])).

(** ** [url_mapper.py] *)

(** The values that [risk_level] takes, and [risk_levels], their ordinals:
    [{'LOW': 1, 'MEDIUM': 2, 'HIGH': 3}]. *)
Inductive risk : Type := LOW | MEDIUM | HIGH.

Definition risk_levels (r : risk) : Z :=
  match r with
  | LOW => 1
  | MEDIUM => 2
  | HIGH => 3
  end.

Definition risk_name (r : risk) : string :=
  match r with
  | LOW => "LOW"
  | MEDIUM => "MEDIUM"
  | HIGH => "HIGH"
  end.

Definition risk_indicators : list string :=
  ["admin"; "login"; "auth"; "token"; "password"; "secret";
   "key"; "config"; "debug"; "test"; "dev"].

(** An entry of the URL map. *)
Record entry : Type := mkEntry {
  signature : string;
  host : string;
  path : string;
  method : string;
  parameters : list PathParam;
  sources : list string;
  original_urls : list string;
  risk_level : risk;
  first_seen : Z;
  last_seen : Z;
  frequency : Z
}.

(** The truth value of an optional list: [None] and [[]] are false. *)
Definition truthy {A} (l : option (list A)) : bool :=
  match l with
  | Some (_ :: _) => true
  | _ => false
  end.

(** The [for indicator in risk_indicators] loop of [create_url_mapping_entry],
    started with [risk_level = 'LOW']: one pass over the indicators, testing
    the URL and then the parameter values for each of them, and leaving the
    loop at the first test that succeeds. *)
Fixpoint risk_loop (url : string) (parameters : option (list PathParam))
  (indicators : list string) : risk :=
  match indicators with
  | [] => LOW
  | indicator :: rest =>
      if contains indicator (lower url) then HIGH
      else if truthy parameters &&
              existsb (λ param, contains indicator (lower (value param)))
                      (default [] parameters)
      then MEDIUM
      else risk_loop url parameters rest
  end.

(** The [for param in parameters] loop of [create_url_mapping_entry]. *)
Definition substitute_placeholders (normalized_path : string) (parameters : list PathParam)
  : string :=
  foldl (λ normalized_path param,
           if String.eqb (ptype param) "uuid"
           then replace (value param) "{uuid}" normalized_path
           else if String.eqb (ptype param) "numeric_id"
           then replace (value param) "{id}" normalized_path
           else if String.eqb (ptype param) "alphanumeric_id"
           then replace (value param) "{param}" normalized_path
           else normalized_path)
        normalized_path parameters.

(** [create_url_mapping_entry(url, method, source, parameters)].  [now] is the
    number of clock readings taken so far; the function takes two more.
    [urlparse] is called outside any [try], so its [ValueError] propagates. *)
Definition create_url_mapping_entry (now : nat) (url method source : string)
  (parameters : option (list PathParam)) : result entry :=
  parsed ← urlparse url;
  let normalized_path := p_path parsed in
  let normalized_path :=
    if truthy parameters
    then substitute_placeholders normalized_path (default [] parameters)
    else normalized_path in
  let risk_level := risk_loop url parameters risk_indicators in
  Ok {| signature := p_netloc parsed +:+ normalized_path;
        host := p_netloc parsed;
        path := normalized_path;
        method := method;
        parameters := default [] parameters;
        sources := [source];
        original_urls := [url];
        risk_level := risk_level;
        first_seen := clock now;
        last_seen := clock (S now);
        frequency := 1 |}.

(** [merged_entries]: a [dict] from signature to entry.  Python keeps the keys
    in insertion order and [list(merged_entries.values())] returns the entries
    in that order, so the dictionary is an association list with distinct
    keys. *)
Definition entries_dict : Type := list (string * entry).

(** [merged_entries.get(signature)]; [signature in merged_entries] is
    [is_Some] of it. *)
Fixpoint dict_get (k : string) (d : entries_dict) : option entry :=
  match d with
  | [] => None
  | (k', e) :: rest => if String.eqb k k' then Some e else dict_get k rest
  end.

(** In-place mutation of the entry stored under [k]. *)
Fixpoint dict_alter (f : entry → entry) (k : string) (d : entries_dict) : entries_dict :=
  match d with
  | [] => []
  | (k', e) :: rest =>
      if String.eqb k k' then (k', f e) :: rest else (k', e) :: dict_alter f k rest
  end.

(** [merged_entries[signature] = url_entry] for a new key. *)
Definition dict_add (k : string) (e : entry) (d : entries_dict) : entries_dict :=
  (d ++ [(k, e)])%list.

Definition dict_values (d : entries_dict) : list entry := d.*2.

(** The rows of the static analysis result: [entry.get('url', '')] and
    [entry.get('parameters', [])] read optional keys. *)
Record static_url : Type := mkStaticUrl {
  su_url : option string;
  su_original_url : string;
  su_parameters : option (list PathParam);
  su_sources : list string
}.

Record static_results_t : Type := mkStaticResults {
  sr_urls : option (list static_url);
  sr_domains : option (list string);
  sr_endpoints : option (list string);
  sr_secrets : option (list string);
  sr_permissions : option (list string);
  sr_certificates : option (list string)
}.

(** A captured flow: [flow.get('url', '')], [flow.get('method', 'UNKNOWN')]. *)
Record flow : Type := mkFlow {
  fl_url : option string;
  fl_method : option string
}.

(** A content provider: [provider.get('uri', '')],
    [provider.get('accessible', False)]. *)
Record provider : Type := mkProvider {
  pv_uri : option string;
  pv_accessible : option bool
}.

(** The three "merge with existing entry" blocks, as updates of [existing].
    Rows are values here: each row has a parameter list of its own, as the
    rows that [merge_static_results] builds have.  [extend] changes the
    stored list in place, and that list is the list of the row that created
    the entry; input in which one list object is reached twice, through one
    row listed twice or through two rows, is outside the embedding. *)
Definition merge_existing_static (url_entry existing : entry) : entry :=
  let existing_risk :=
    if bool_decide (risk_levels (risk_level url_entry) > risk_levels (risk_level existing))%Z
    then risk_level url_entry else risk_level existing in
  {| signature := signature existing;
     host := host existing;
     path := path existing;
     method := method existing;
     parameters := (parameters existing ++ parameters url_entry)%list;
     sources := (sources existing ++ sources url_entry)%list;
     original_urls := (original_urls existing ++ original_urls url_entry)%list;
     risk_level := existing_risk;
     first_seen := first_seen existing;
     last_seen := Z.max (last_seen existing) (last_seen url_entry);
     frequency := (frequency existing + frequency url_entry)%Z |}.

Definition merge_existing_dynamic (method_ : string) (url_entry existing : entry) : entry :=
  {| signature := signature existing;
     host := host existing;
     path := path existing;
     method := if negb (String.eqb method_ "UNKNOWN") then method_ else method existing;
     parameters := parameters existing;
     sources := (sources existing ++ sources url_entry)%list;
     original_urls := (original_urls existing ++ original_urls url_entry)%list;
     risk_level := risk_level existing;
     first_seen := first_seen existing;
     last_seen := Z.max (last_seen existing) (last_seen url_entry);
     frequency := (frequency existing + frequency url_entry)%Z |}.

Definition merge_existing_component (url_entry existing : entry) : entry :=
  {| signature := signature existing;
     host := host existing;
     path := path existing;
     method := "CONTENT_PROVIDER";
     parameters := parameters existing;
     sources := (sources existing ++ sources url_entry)%list;
     original_urls := (original_urls existing ++ original_urls url_entry)%list;
     risk_level := risk_level existing;
     first_seen := first_seen existing;
     last_seen := Z.max (last_seen existing) (last_seen url_entry);
     frequency := (frequency existing + frequency url_entry)%Z |}.

(** [if signature in merged_entries: (merge) else: merged_entries[signature] = url_entry] *)
Definition merge_entry (merge : entry → entry → entry) (url_entry : entry)
  (merged_entries : entries_dict) : entries_dict :=
  let signature := signature url_entry in
  match dict_get signature merged_entries with
  | Some _ => dict_alter (merge url_entry) signature merged_entries
  | None => dict_add signature url_entry merged_entries
  end.

(** The state of [merge_static_dynamic_data] between two observations: the
    dictionary and the number of clock readings taken. *)
Definition merge_state : Type := entries_dict * nat.

(** One iteration of [for entry in static_results['urls']]. *)
Definition merge_static_url (st : merge_state) (entry_ : static_url) : result merge_state :=
  let '(merged_entries, now) := st in
  url_entry ← create_url_mapping_entry now (default "" (su_url entry_)) "UNKNOWN" "static"
                (Some (default [] (su_parameters entry_)));
  Ok (merge_entry merge_existing_static url_entry merged_entries, S (S now)).

(** One iteration of [for flow in dynamic_results]. *)
Definition merge_flow (st : merge_state) (flow_ : flow) : result merge_state :=
  let '(merged_entries, now) := st in
  let url := default "" (fl_url flow_) in
  let method_ := default "UNKNOWN" (fl_method flow_) in
  url_entry ← create_url_mapping_entry now url method_ "dynamic" None;
  Ok (merge_entry (merge_existing_dynamic method_) url_entry merged_entries, S (S now)).

(** One iteration of [for provider in component_results['providers']]. *)
Definition merge_provider (st : merge_state) (provider_ : provider) : result merge_state :=
  let '(merged_entries, now) := st in
  if default false (pv_accessible provider_) then
    let uri := default "" (pv_uri provider_) in
    if negb (String.eqb uri "") then
      url_entry ← create_url_mapping_entry now ("content://" +:+ uri)
                    "CONTENT_PROVIDER" "component" None;
      Ok (merge_entry merge_existing_component url_entry merged_entries, S (S now))
    else Ok st
  else Ok st.

(** A [for] loop whose body may raise. *)
Fixpoint for_each {S A} (body : S → A → result S) (st : S) (l : list A) : result S :=
  match l with
  | [] => Ok st
  | x :: rest => st' ← body st x; for_each body st' rest
  end.

(** [list(set(l))]: the distinct elements of [l].  Python gives them in hash
    order; here each element keeps the place of its last occurrence. *)
Definition list_set (l : list string) : list string := remove_dups l.

(** What [merge_static_dynamic_data] returns. *)
Record merged_data_t : Type := mkMergedData {
  md_entries : list entry;
  md_domains : list string;
  md_endpoints : list string;
  md_secrets : list string;
  md_permissions : list string;
  md_certificates : list string;
  md_timestamp : Z
}.

Definition dedup_entry (e : entry) : entry :=
  {| signature := signature e;
     host := host e;
     path := path e;
     method := method e;
     parameters := parameters e;
     sources := list_set (sources e);
     original_urls := list_set (original_urls e);
     risk_level := risk_level e;
     first_seen := first_seen e;
     last_seen := last_seen e;
     frequency := frequency e |}.

(** [merge_static_dynamic_data(static_results, dynamic_results, component_results)];
    [component_results] is [None] or a dictionary whose ['providers'] key may
    be missing.  [now] is the number of clock readings taken before the call;
    the number taken by its end is returned with the result. *)
Definition merge_static_dynamic_data (now : nat) (static_results : static_results_t)
  (dynamic_results : list flow) (component_results : option (option (list provider)))
  : result (merged_data_t * nat) :=
  let st : merge_state := ([], now) in
  st ← match sr_urls static_results with
       | Some urls => for_each merge_static_url st urls
       | None => Ok st
       end;
  st ← for_each merge_flow st dynamic_results;
  st ← match component_results with
       | Some (Some providers) => for_each merge_provider st providers
       | _ => Ok st
       end;
  let '(merged_entries, now) := st in
  Ok ({| md_entries := dedup_entry <$> dict_values merged_entries;
         md_domains := default [] (sr_domains static_results);
         md_endpoints := default [] (sr_endpoints static_results);
         md_secrets := default [] (sr_secrets static_results);
         md_permissions := default [] (sr_permissions static_results);
         md_certificates := default [] (sr_certificates static_results);
         md_timestamp := clock now |}, S now).

(** [defaultdict(int)] with [d[k] += 1] *)
Definition count_up (d : gmap string nat) (k : string) : gmap string nat :=
  <[k := S (default 0 (d !! k))]> d.

Record metadata_t : Type := mkMetadata {
  generated_at : Z;
  total_entries : nat;
  risk_distribution : gmap string nat;
  source_distribution : gmap string nat;
  method_distribution : gmap string nat
}.

(** The URL map (the catalog).  [compare_url_maps] reads ['entries'] with
    [.get('entries', [])], so the key is optional. *)
Record url_map_t : Type := mkUrlMap {
  um_metadata : metadata_t;
  um_entries : option (list entry);
  um_domains : list string;
  um_endpoints : list string;
  um_secrets : list string;
  um_permissions : list string;
  um_certificates : list string
}.

(** [generate_url_map(static_results, dynamic_results, component_results)] of
    [url_mapper.py] *)
Definition generate_url_map (now : nat) (static_results : static_results_t)
  (dynamic_results : list flow) (component_results : option (option (list provider)))
  : result url_map_t :=
  '(merged_data, now) ←
    merge_static_dynamic_data now static_results dynamic_results component_results;
  let entries := md_entries merged_data in
  Ok {| um_metadata :=
          {| generated_at := clock now;
             total_entries := List.length entries;
             risk_distribution :=
               foldl (λ d e, count_up d (risk_name (risk_level e))) ∅ entries;
             source_distribution :=
               foldl (λ d e, foldl count_up d (sources e)) ∅ entries;
             method_distribution :=
               foldl (λ d e, count_up d (method e)) ∅ entries |};
        um_entries := Some entries;
        um_domains := md_domains merged_data;
        um_endpoints := md_endpoints merged_data;
        um_secrets := md_secrets merged_data;
        um_permissions := md_permissions merged_data;
        um_certificates := md_certificates merged_data |}.

(** What [compare_url_maps] returns; the three lists are [list(...)] of sets,
    in no particular order. *)
Record comparison_t : Type := mkComparison {
  added : list string;
  removed : list string;
  unchanged : list string;
  added_count : nat;
  removed_count : nat;
  unchanged_count : nat
}.

(** [{entry['signature'] for entry in m.get('entries', [])}] *)
Definition signatures_of (m : url_map_t) : gset string :=
  list_to_set (signature <$> default [] (um_entries m)).

(** [compare_url_maps(old_map, new_map)] *)
Definition compare_url_maps (old_map new_map : url_map_t) : comparison_t :=
  let old_signatures := signatures_of old_map in
  let new_signatures := signatures_of new_map in
  let added_ := new_signatures ∖ old_signatures in
  let removed_ := old_signatures ∖ new_signatures in
  let unchanged_ := old_signatures ∩ new_signatures in
  {| added := elements added_;
     removed := elements removed_;
     unchanged := elements unchanged_;
     added_count := size added_;
     removed_count := size removed_;
     unchanged_count := size unchanged_ |}.

(** A decoded JSON document; [JNull] is Python's [None]. *)
#[local] Set Warnings "-register-all".
Inductive json : Type :=
| JNull
| JBool (b : bool)
| JInt (n : Z)
| JFloat (repr : string)
| JStr (s : string)
| JList (l : list json)
| JDict (items : list (string * json)).
#[local] Set Warnings "register-all".

(** The file system and the JSON decoder, as [load_url_map] sees them:
    [open(input_path, 'r')] followed by reading the file, and [json.loads]. *)
Variable read_text : string → result string.
Variable json_loads : string → result json.

(** The messages of [load_url_map]. *)
Definition loaded_message (input_path : string) : string :=
  "URL map loaded from " +:+ input_path.

Definition load_error (e : exn) : string := "Error loading URL map: " +:+ exn_str e.

(** [load_url_map(input_path)].  The first [print] is inside the [try], so
    its exception is handled like a failure to load; the second is in the
    handler, so its exception leaves the function. *)
Definition load_url_map (input_path : string) : result json :=
  try_except
    (text ← read_text input_path;
     url_map ← json_loads text;
     print (loaded_message input_path);;
     Ok url_map)
    (λ e, print (load_error e);; Ok JNull).

(** ** [url_normalizer.py], the static pipeline *)

(** The result of one static tool (JADX, APKLeaks, MobSF); every key is
    optional. *)
Record tool_results_t : Type := mkToolResults {
  tr_urls : option (list string);
  tr_domains : option (list string);
  tr_endpoints : option (list string);
  tr_secrets : option (list string);
  tr_permissions : option (list string);
  tr_certificates : option (list string)
}.

(** [deduplicate_urls(urls)] *)
Definition deduplicate_urls (urls : list string) : result (list string) :=
  normalized_urls ← mapM normalize_url urls;
  Ok (list_set normalized_urls).

(** [x in l] as a truth value *)
Definition elem_b (x : string) (l : list string) : bool := str_in_list x l.

(** [merge_static_results(jadx_results, apkleaks_results, mobsf_results)] *)
Definition merge_static_results (jadx_results apkleaks_results mobsf_results : tool_results_t)
  : result static_results_t :=
  let all_urls :=
    (default [] (tr_urls jadx_results) ++ default [] (tr_urls apkleaks_results)
     ++ default [] (tr_urls mobsf_results))%list in
  unique_urls ← deduplicate_urls all_urls;
  normalized_entries ←
    mapM (λ url,
            '(normalized_url, parameters) ← extract_path_parameters url;
            let sources :=
              ((if elem_b url (default [] (tr_urls jadx_results)) then ["jadx"] else [])
               ++ (if elem_b url (default [] (tr_urls apkleaks_results)) then ["apkleaks"] else [])
               ++ (if elem_b url (default [] (tr_urls mobsf_results)) then ["mobsf"] else []))%list in
            Ok {| su_url := Some normalized_url;
                  su_original_url := url;
                  su_parameters := Some parameters;
                  su_sources := sources |})
         unique_urls;
  let domains :=
    (default [] (tr_domains jadx_results) ++ default [] (tr_domains apkleaks_results)
     ++ default [] (tr_domains mobsf_results))%list in
  let endpoints :=
    (default [] (tr_endpoints jadx_results) ++ default [] (tr_endpoints apkleaks_results)
     ++ default [] (tr_endpoints mobsf_results))%list in
  Ok {| sr_urls := Some normalized_entries;
        sr_domains := Some (list_set domains);
        sr_endpoints := Some (list_set endpoints);
        sr_secrets := Some (default [] (tr_secrets apkleaks_results));
        sr_permissions := Some (default [] (tr_permissions mobsf_results));
        sr_certificates := Some (default [] (tr_certificates mobsf_results)) |}.

(** The rows of the URL map of [url_normalizer.generate_url_map]. *)
Record static_map_entry : Type := mkStaticMapEntry {
  sm_signature : string;
  sm_host : string;
  sm_path : string;
  sm_method : string;
  sm_parameters : list PathParam;
  sm_sources : list string;
  sm_original_urls : list string;
  sm_risk_level : risk
}.

(** The risk loop of [url_normalizer.generate_url_map]: the same loop as in
    [create_url_mapping_entry], over [entry['url']] and [entry['parameters']]
    and without the test that the parameter list is not empty. *)
Fixpoint static_risk_loop (url : string) (parameters : list PathParam)
  (indicators : list string) : risk :=
  match indicators with
  | [] => LOW
  | indicator :: rest =>
      if contains indicator (lower url) then HIGH
      else if existsb (λ param, contains indicator (lower (value param))) parameters
      then MEDIUM
      else static_risk_loop url parameters rest
  end.

(** The body of [for entry in merged_results.get('urls', [])] in
    [url_normalizer.generate_url_map], for a row that has all its keys. *)
Definition static_map_row (url original_url : string) (parameters : list PathParam)
  (sources : list string) : result static_map_entry :=
  parsed ← urlparse url;
  Ok {| sm_signature := p_netloc parsed +:+ p_path parsed;
        sm_host := p_netloc parsed;
        sm_path := p_path parsed;
        sm_method := "UNKNOWN";
        sm_parameters := parameters;
        sm_sources := sources;
        sm_original_urls := [original_url];
        sm_risk_level := static_risk_loop url parameters risk_indicators |}.

(** The [try] block of the loop of [url_normalizer.generate_url_map] on a
    row: [entry['url']] is read first, then [urlparse] is called, then
    [entry['parameters']] is read; a missing key raises [KeyError].  The keys
    ['sources'] and ['original_url'], read after these, are there in every
    row of the embedding. *)
Definition static_map_entry_of (row : static_url) : result static_map_entry :=
  match su_url row with
  | None => Raise (KeyError "url")
  | Some url =>
      match su_parameters row with
      | Some parameters =>
          static_map_row url (su_original_url row) parameters (su_sources row)
      | None => urlparse url;; Raise (KeyError "parameters")
      end
  end.

(** [str(entry)], the text that an f-string writes for the dictionary of a
    row. *)
Variable entry_str : static_url → string.

Definition entry_error (row : static_url) (e : exn) : string :=
  "Error processing URL entry " +:+ entry_str row +:+ ": " +:+ exn_str e.

(** The ['entries'] of [url_normalizer.generate_url_map(merged_results)]: a
    row whose processing raises, on a missing key or in [urlparse], is
    reported with [print] and skipped ([except Exception: ... continue]); an
    exception of that [print] leaves the function. *)
Definition static_map_entries (merged_results : static_results_t)
  : result (list static_map_entry) :=
  for_each (λ entries row,
              try_except
                (url_entry ← static_map_entry_of row;
                 Ok (entries ++ [url_entry])%list)
                (λ e, print (entry_error row e);; Ok entries))
           [] (default [] (sr_urls merged_results)).

(** ** The merge as a fold over observations *)

(** An observation is a row of one of the three loops of
    [merge_static_dynamic_data]. *)
Inductive observation : Type :=
| Static (row : static_url)
| Dynamic (flow_ : flow)
| Component (provider_ : provider).

(** The body of the loop that handles the observation. *)
Definition ingest (st : merge_state) (obs : observation) : result merge_state :=
  match obs with
  | Static row => merge_static_url st row
  | Dynamic flow_ => merge_flow st flow_
  | Component provider_ => merge_provider st provider_
  end.

(** The observations in the order in which the three loops visit them. *)
Definition observations (static_results : static_results_t) (dynamic_results : list flow)
  (component_results : option (option (list provider))) : list observation :=
  ((Static <$> default [] (sr_urls static_results))
   ++ (Dynamic <$> dynamic_results)
   ++ (Component <$> match component_results with
                     | Some (Some providers) => providers
                     | _ => []
                     end))%list.

(** The tests of one indicator in the risk loops. *)
Definition url_hit (url : string) (indicator : string) : bool :=
  contains indicator (lower url).

Definition param_hit (parameters : option (list PathParam)) (indicator : string) : bool :=
  truthy parameters &&
  existsb (λ param, contains indicator (lower (value param))) (default [] parameters).

(** No test of the indicator succeeds. *)
Definition misses (url : string) (parameters : option (list PathParam))
  (indicator : string) : Prop :=
  url_hit url indicator = false ∧ param_hit parameters indicator = false.

(** A merge function that never lowers the stored level. *)
Definition never_lowers (merge : entry → entry → entry) : Prop :=
  ∀ url_entry existing,
    (risk_levels (risk_level existing)
     ≤ risk_levels (risk_level (merge url_entry existing)))%Z.

(** The risk of the entry stored under [sig] is at least [level]. *)
Definition risk_at_least (sig : string) (level : Z) (d : entries_dict) : Prop :=
  ∃ e, dict_get sig d = Some e ∧ (level ≤ risk_levels (risk_level e))%Z.

(** ** An environment for the examples *)

(** An [ip_address] that knows the two loopback addresses, a clock that
    advances by one tick per reading, a file system with one well-formed and
    one malformed file, and a decoder for their texts. *)
Definition sample_ip_address (s : string) : option ip_version :=
  if String.eqb s "::1" then Some IPv6Address
  else if String.eqb s "127.0.0.1" then Some IPv4Address
  else None.

Definition sample_clock (n : nat) : Z := Z.of_nat n.

(** A standard output that encodes every character, and one that encodes
    ASCII only (the message of Python names the character and its position;
    it is ASCII text). *)
Definition sample_print (text : string) : result unit := Ok tt.

Definition ascii_print (text : string) : result unit :=
  if str_forallb is_ascii text then Ok tt
  else Raise (UnicodeEncodeError "'ascii' codec can't encode character").

(** A rendering of a row that shows its URL. *)
Definition sample_entry_str (row : static_url) : string :=
  "{'url': '" +:+ default "" (su_url row) +:+ "'}".

Definition sample_read_text (input_path : string) : result string :=
  if String.eqb input_path "url_map.json" then Ok "{}"
  else if String.eqb input_path "broken.json" then Ok "{"
  else Raise (OSError "No such file or directory").

Definition sample_json_loads (text : string) : result json :=
  if String.eqb text "{}" then Ok (JDict [])
  else Raise (JSONDecodeError "Expecting property name enclosed in double quotes").

(** A file system with one file, whose name is not ASCII, and the message of
    Python for a file that is not there. *)
Definition accented_name : string := "caf" +:+ chr 233 +:+ ".json".

Definition accented_read_text (input_path : string) : result string :=
  if String.eqb input_path accented_name then Ok "{}"
  else Raise (OSError ("[Errno 2] No such file or directory: '" +:+ input_path +:+ "'")).

(** Static results with URL rows only, and a tool result with URLs only. *)
Definition static_rows (rows : list static_url) : static_results_t :=
  mkStaticResults (Some rows) None None None None None.

Definition tool_urls (urls : list string) : tool_results_t :=
  mkToolResults (Some urls) None None None None None.

(** What the examples look at in an entry. *)
Definition summary (e : entry) : string * risk * Z * list string :=
  (signature e, risk_level e, frequency e, sources e).

(** ** The components that [normalize_url] reassembles *)

(** The six values that [normalize_url] passes to [urlunparse], computed from
    the parse of its argument. *)
Definition normalize_components (parsed : ParseResult) : ParseResult :=
  {| p_scheme :=
       if negb (String.eqb (p_scheme parsed) "") then lower (p_scheme parsed) else "";
     p_netloc :=
       if negb (String.eqb (p_netloc parsed) "")
       then rstrip is_dot (lower (p_netloc parsed)) else "";
     p_path :=
       if negb (String.eqb (p_path parsed) "") && negb (String.eqb (p_path parsed) "/")
       then rstrip is_slash (p_path parsed) else p_path parsed;
     p_params := p_params parsed;
     p_query := p_query parsed;
     p_fragment := p_fragment parsed |}.

(** [urlunparse] of a parse result. *)
Definition unparse (parsed : ParseResult) : string :=
  urlunparse (p_scheme parsed) (p_netloc parsed) (p_path parsed) (p_params parsed)
             (p_query parsed) (p_fragment parsed).

(** [normalize_url(normalize_url(url))] *)
Definition normalize_twice (url : string) : result string :=
  normalize_url url ≫= normalize_url.

(** ** Well-formed components *)

(** [lacks chars s]: no character of [chars] occurs in [s]. *)
Definition lacks (chars : string) (s : string) : bool :=
  str_forallb (λ c, negb (has_char c chars)) s.

(** Tab, carriage return and line feed, which [urlsplit] removes. *)
Definition unsafe_bytes : string := chr 9 +:+ chr 13 +:+ chr 10.

(** A scheme as [urlsplit] returns it: empty, or a letter followed by scheme
    characters, in lower case. *)
Definition valid_scheme (s : string) : bool :=
  match s with
  | "" => true
  | String c0 _ =>
      is_ascii c0 && is_alpha c0 && str_forallb scheme_chars s && String.eqb (lower s) s
  end.

(** Empty, or starting with a slash. *)
Definition rooted (s : string) : bool :=
  match s with
  | "" => true
  | String c _ => eqb_char c "/"
  end.

(** Components of a URL with a host and no params, each free of the
    characters that would end it or that [urlsplit] removes. *)
Definition hosted (c : ParseResult) : bool :=
  valid_scheme (p_scheme c)
  && negb (String.eqb (p_netloc c) "")
  && lacks ("/?#[]" +:+ unsafe_bytes) (p_netloc c)
  && rooted (p_path c)
  && lacks ("?#;" +:+ unsafe_bytes) (p_path c)
  && String.eqb (p_params c) ""
  && lacks ("#" +:+ unsafe_bytes) (p_query c)
  && lacks unsafe_bytes (p_fragment c).

(** [s + sep] and [sep + s] for a component that is not empty, as
    [urlunsplit] writes them. *)
Definition with_suffix (s sep : string) : string :=
  match s with
  | "" => ""
  | _ => s +:+ sep
  end.

Definition with_prefix (sep s : string) : string :=
  match s with
  | "" => ""
  | _ => sep +:+ s
  end.

(** The URL of components with a host. *)
Definition hosted_url (c : ParseResult) : string :=
  with_suffix (p_scheme c) ":" +:+ "//" +:+ p_netloc c +:+ p_path c
  +:+ with_prefix "?" (p_query c) +:+ with_prefix "#" (p_fragment c).

(** Empty, or starting with a character of [chars]. *)
Definition starts_in (chars : string) (s : string) : bool :=
  match s with
  | "" => true
  | String c _ => has_char c chars
  end.

(** A character that is none of the delimiters that end the netloc, and
    the position of the first delimiter of a string, or its length. *)
Definition netloc_char (c : ascii) : bool := negb (has_char c "/?#").

Definition netloc_end (s : string) : nat :=
  foldl (λ delim c,
           match find c s with
           | Some wdelim => Nat.min delim wdelim
           | None => delim
           end)
        (len s) ["/"; "?"; "#"]%char.

(** ** The observations, seen from outside the loops *)

(** The arguments with which the loop of an observation calls
    [create_url_mapping_entry]: URL, method, source and parameters; [None]
    for a provider that the component loop passes over. *)
Definition obs_call (obs : observation)
  : option (string * string * string * option (list PathParam)) :=
  match obs with
  | Static row =>
      Some (default "" (su_url row), "UNKNOWN", "static",
            Some (default [] (su_parameters row)))
  | Dynamic flow_ =>
      Some (default "" (fl_url flow_), default "UNKNOWN" (fl_method flow_), "dynamic", None)
  | Component provider_ =>
      if default false (pv_accessible provider_)
         && negb (String.eqb (default "" (pv_uri provider_)) "")
      then Some ("content://" +:+ default "" (pv_uri provider_),
                 "CONTENT_PROVIDER", "component", None)
      else None
  end.

(** The "merge with existing entry" block of the loop of an observation. *)
Definition obs_merge (obs : observation) : entry → entry → entry :=
  match obs with
  | Static _ => merge_existing_static
  | Dynamic flow_ => merge_existing_dynamic (default "UNKNOWN" (fl_method flow_))
  | Component _ => merge_existing_component
  end.

Definition obs_source (obs : observation) : string :=
  match obs with
  | Static _ => "static"
  | Dynamic _ => "dynamic"
  | Component _ => "component"
  end.

Definition obs_url (obs : observation) : option string :=
  match obs_call obs with
  | Some (url, _, _, _) => Some url
  | None => None
  end.

(** The signature under which an observation is merged: [None] for a
    provider that is passed over and for a URL that [urlparse] rejects. *)
Definition obs_signature (obs : observation) : option string :=
  match obs_call obs with
  | Some (url, _, _, parameters) =>
      match urlparse url with
      | Ok parsed =>
          Some (p_netloc parsed +:+
                (if truthy parameters
                 then substitute_placeholders (p_path parsed) (default [] parameters)
                 else p_path parsed))
      | Raise _ => None
      end
  | None => None
  end.

(** The risk level that [create_url_mapping_entry] computes for an
    observation. *)
Definition obs_risk (obs : observation) : risk :=
  match obs_call obs with
  | Some (url, _, _, parameters) => risk_loop url parameters risk_indicators
  | None => LOW
  end.

(** The observations that are merged under [sig]. *)
Definition hits (sig : string) (obs : list observation) : list observation :=
  filter (λ o, obs_signature o = Some sig) obs.

(** The dictionary maps each of its keys once, to an entry that has the key
    for signature. *)
Definition dict_ok (d : entries_dict) : Prop :=
  NoDup d.*1 ∧ Forall (λ ke, signature ke.2 = ke.1) d.

(** The method that a sequence of methods leaves: the last one that is not
    ['UNKNOWN']. *)
Definition later_method (current new : string) : string :=
  if negb (String.eqb new "UNKNOWN") then new else current.

Definition obs_method (obs : observation) : string :=
  match obs_call obs with
  | Some (_, method_, _, _) => method_
  | None => "UNKNOWN"
  end.

Definition obs_parameters (obs : observation) : list PathParam :=
  match obs_call obs with
  | Some (_, _, _, parameters) => default [] parameters
  | None => []
  end.

Definition is_static (obs : observation) : bool :=
  match obs with
  | Static _ => true
  | _ => false
  end.

(** The value of a field after a run of observations of one signature:
    [mk] gives the field of a new entry, [g] the update of a merge. *)
Definition fold_field {M} (g : observation → M → M) (mk : observation → M)
  (init : option M) (l : list observation) : option M :=
  foldl (λ acc o, Some match acc with
                       | Some a => g o a
                       | None => mk o
                       end) init l.

(** [mk] and [g] describe the field [f] of the entries that the loops create
    and merge. *)
Definition field_spec {M} (f : entry → M) (g : observation → M → M)
  (mk : observation → M) : Prop :=
  ∀ obs now url method_ source parameters_ url_entry,
    obs_call obs = Some (url, method_, source, parameters_) →
    create_url_mapping_entry now url method_ source parameters_ = Ok url_entry →
    f url_entry = mk obs
    ∧ ∀ existing, f (obs_merge obs url_entry existing) = g obs (f existing).

(** The sum of the frequencies of the entries. *)
Definition total_frequency (entries : list entry) : Z :=
  foldr (λ e n, (frequency e + n)%Z) 0%Z entries.

(** The observations that reach [create_url_mapping_entry]. *)
Definition processed (obs : list observation) : list observation :=
  filter (λ o, is_Some (obs_call o)) obs.

(** The observations that can set the risk level of the entry of their
    signature: the first one, which creates the entry, and the static rows
    after it. *)
Definition risk_sources (hits_ : list observation) : list observation :=
  match hits_ with
  | [] => []
  | o :: os => o :: filter (λ o, is_static o = true) os
  end.

(** The providers that the component loop does not pass over. *)
Definition exposed (provider_ : provider) : Prop :=
  default false (pv_accessible provider_) = true ∧ default "" (pv_uri provider_) ≠ "".

#[local] Instance exposed_dec (provider_ : provider) : Decision (exposed provider_) :=
  and_dec _ _.

(** A clock that does not go back. *)
Definition monotone_clock : Prop := ∀ n, (clock n ≤ clock (S n))%Z.

(** The "update risk level if needed" step of the static loop; the other two
    loops have no such step. *)
Definition raise_risk (level : risk) (obs : observation) : risk :=
  if is_static obs
  then if bool_decide (risk_levels (obs_risk obs) > risk_levels level)%Z
       then obs_risk obs else level
  else level.

(** An entry whose two time stamps are in order and not after the [n]th
    reading of the clock. *)
Definition seen_by (n : nat) (e : entry) : Prop :=
  (first_seen e ≤ last_seen e)%Z ∧ (last_seen e ≤ clock n)%Z.

(** The number of entries that [key] maps to [k], and the number of those
    that list [k] among their sources. *)
Definition count_by (key : entry → string) (k : string) (entries : list entry) : nat :=
  List.length (filter (λ e, key e = k) entries).

Definition count_source (k : string) (entries : list entry) : nat :=
  List.length (filter (λ e, k ∈ sources e) entries).

(** All the URLs that the three static tools report, in the order in which
    [merge_static_results] collects them. *)
Definition all_urls (jadx_results apkleaks_results mobsf_results : tool_results_t)
  : list string :=
  (default [] (tr_urls jadx_results) ++ default [] (tr_urls apkleaks_results)
   ++ default [] (tr_urls mobsf_results))%list.

(** The tools that report [url] verbatim, in the order in which
    [merge_static_results] asks them. *)
Definition reporting_tools (jadx_results apkleaks_results mobsf_results : tool_results_t)
  (url : string) : list string :=
  ((if elem_b url (default [] (tr_urls jadx_results)) then ["jadx"] else [])
   ++ (if elem_b url (default [] (tr_urls apkleaks_results)) then ["apkleaks"] else [])
   ++ (if elem_b url (default [] (tr_urls mobsf_results)) then ["mobsf"] else []))%list.

(** A row of the merged static results made from the normal form [url]. *)
Definition row_of (jadx_results apkleaks_results mobsf_results : tool_results_t)
  (url : string) (row : static_url) : Prop :=
  su_original_url row = url
  ∧ su_sources row = reporting_tools jadx_results apkleaks_results mobsf_results url
  ∧ ∃ normalized_url parameters_,
      extract_path_parameters url = Ok (normalized_url, parameters_)
      ∧ su_url row = Some normalized_url
      ∧ su_parameters row = Some parameters_.

(** The shapes of the values that [extract_path_parameters] extracts: five
    groups of 8, 4, 4, 4 and 12 lower-case hexadecimal digits joined by
    hyphens; a non-empty run of digits; a non-empty run of letters and digits
    that is not a common word. *)
Definition uuid_shaped (v : string) : Prop :=
  ∃ a b c d e,
    v = a +:+ "-" +:+ b +:+ "-" +:+ c +:+ "-" +:+ d +:+ "-" +:+ e
    ∧ len a = 8 ∧ len b = 4 ∧ len c = 4 ∧ len d = 4 ∧ len e = 12
    ∧ str_forallb is_lower_hex (a +:+ b +:+ c +:+ d +:+ e) = true.

Definition uuid_param (p : PathParam) : Prop :=
  ptype p = "uuid" ∧ uuid_shaped (value p).

Definition numeric_param (p : PathParam) : Prop :=
  ptype p = "numeric_id" ∧ value p ≠ "" ∧ str_forallb is_digit (value p) = true.

Definition alphanumeric_param (p : PathParam) : Prop :=
  ptype p = "alphanumeric_id" ∧ value p ≠ ""
  ∧ str_forallb is_alnum (value p) = true
  ∧ str_in_list (lower (value p)) common_words = false.

(** [m] is a match of the pattern somewhere. *)
Definition matched (match_at : string → option string) (m : string) : Prop :=
  ∃ s, match_at s = Some m.

(** A parameter with its value in lower case. *)
Definition lower_param (p : PathParam) : PathParam := mkParam (ptype p) (lower (value p)).

(** An example in which signatures are met more than once: two static rows,
    three flows of which two have the signature of the first row, and three
    providers of which one is accessible and has a URI. *)
Definition busy_static_results : static_results_t :=
  static_rows
    [mkStaticUrl (Some "https://api.example.com/v1/login")
                 "https://api.example.com/v1/login" (Some []) ["jadx"];
     mkStaticUrl (Some "https://api.example.com/v1/items/abc9/x")
                 "https://api.example.com/v1/items/abc9/x"
                 (Some [mkParam "alphanumeric_id" "abc9"]) ["mobsf"];
     mkStaticUrl (Some "https://api.example.com/v1/items/{param}/x")
                 "https://api.example.com/v1/items/KEY7/x"
                 (Some [mkParam "alphanumeric_id" "KEY7"]) ["mobsf"]].

Definition busy_dynamic_results : list flow :=
  [mkFlow (Some "https://api.example.com/v1/login") (Some "POST");
   mkFlow (Some "http://api.example.com/v1/login?next=home") None;
   mkFlow (Some "https://cdn.example.com/assets/image.png") (Some "GET")].

Definition busy_component_results : option (option (list provider)) :=
  Some (Some [mkProvider (Some "com.example.app.data.provider") (Some true);
              mkProvider (Some "com.example.app.hidden") (Some false);
              mkProvider None (Some true)]).

(** * Properties *)

(** ** The result monad *)

Lemma bind_Ok {A B} (f : A → result B) (a : A) : (Ok a ≫= f) = f a.
Proof. reflexivity. Qed.

Lemma bind_Raise {A B} (f : A → result B) (e : exn) : (Raise e ≫= f) = Raise e.
Proof. reflexivity. Qed.

(** ** Strings *)

Lemma str_app_nil_l (s : string) : "" +:+ s = s.
Proof. reflexivity. Qed.

Lemma str_app_cons (c : ascii) (t s : string) : String c t +:+ s = String c (t +:+ s).
Proof. reflexivity. Qed.

(** [String.append] does not unfold under [simpl]. *)
Ltac str_simpl := simpl; rewrite ?str_app_nil_l, ?str_app_cons; simpl.

Lemma str_app_nil_r (s : string) : s +:+ "" = s.
Proof. induction s as [|c t IH]; str_simpl; [done|]. by rewrite IH. Qed.

Lemma str_app_assoc (a b c : string) : (a +:+ b) +:+ c = a +:+ (b +:+ c).
Proof. induction a as [|x a IH]; str_simpl; [done|]. by rewrite IH. Qed.

Lemma len_app (a b : string) : len a + len b = len (a +:+ b).
Proof. unfold len. induction a as [|x a IH]; str_simpl; [done|]. by rewrite IH. Qed.

Lemma str_take_app (a b : string) : str_take (len a) (a +:+ b) = a.
Proof. induction a as [|x a IH]; str_simpl; [by destruct b|]. by rewrite IH. Qed.

Lemma str_drop_app (a b : string) : str_drop (len a) (a +:+ b) = b.
Proof. induction a as [|x a IH]; str_simpl; [done|]. by rewrite IH. Qed.

Lemma str_forallb_app (p : ascii → bool) (a b : string) :
  str_forallb p (a +:+ b) = str_forallb p a && str_forallb p b.
Proof.
  induction a as [|x a IH]; str_simpl; [done|]. rewrite IH. by destruct (p x).
Qed.

Lemma str_forallb_impl (p q : ascii → bool) (s : string) :
  (∀ c, p c = true → q c = true) →
  str_forallb p s = true → str_forallb q s = true.
Proof.
  intros Hpq. induction s as [|c t IH]; simpl; [done|].
  intros [Hc Ht]%andb_prop. by rewrite (Hpq _ Hc), IH.
Qed.

Lemma has_char_app (c : ascii) (a b : string) :
  has_char c (a +:+ b) = has_char c a || has_char c b.
Proof.
  induction a as [|x a IH]; str_simpl; [done|]. rewrite IH. by destruct (eqb_char c x).
Qed.

Lemma lacks_app (chars a b : string) :
  lacks chars (a +:+ b) = lacks chars a && lacks chars b.
Proof. apply str_forallb_app. Qed.

(** A string that lacks the characters of a set lacks each of them. *)
Lemma lacks_has_char (chars s : string) (c : ascii) :
  lacks chars s = true → has_char c chars = true → has_char c s = false.
Proof.
  intros Hs Hc. induction s as [|d t IH]; simpl; [done|].
  simpl in Hs. apply andb_prop in Hs as [Hd Ht]. rewrite (IH Ht).
  destruct (Ascii.eqb_spec c d) as [->|Hne].
  - by rewrite Hc in Hd.
  - unfold eqb_char. by apply Ascii.eqb_neq in Hne as ->.
Qed.

Lemma lacks_subset (chars chars' s : string) :
  (∀ c, has_char c chars' = true → has_char c chars = true) →
  lacks chars s = true → lacks chars' s = true.
Proof.
  intros Hsub. apply str_forallb_impl. intros c Hc.
  destruct (has_char c chars') eqn:E; [|done]. by rewrite (Hsub _ E) in Hc.
Qed.

Lemma find_None (c : ascii) (s : string) : find c s = None ↔ has_char c s = false.
Proof.
  induction s as [|d t IH]; simpl; [done|].
  destruct (eqb_char c d); simpl; [done|].
  destruct (find c t); simpl.
  - split; [done|]. intros H. by apply IH in H.
  - split; [intros _; by apply IH | done].
Qed.

(** The first occurrence of [c] in [a +:+ String c b] when [a] lacks it. *)
Lemma find_app_here (c : ascii) (a b : string) :
  has_char c a = false → find c (a +:+ String c b) = Some (len a).
Proof.
  induction a as [|x a IH]; str_simpl.
  - unfold eqb_char. by rewrite Ascii.eqb_refl.
  - intros [Hx Ha]%orb_false_elim. by rewrite Hx, (IH Ha).
Qed.

Lemma find_app_skip (c : ascii) (a b : string) :
  has_char c a = false → find c (a +:+ b) = (λ i, len a + i) <$> find c b.
Proof.
  induction a as [|x a IH]; str_simpl.
  - intros _. by destruct (find c b).
  - intros [Hx Ha]%orb_false_elim. rewrite Hx, (IH Ha). by destruct (find c b).
Qed.

(** ** Parameter extraction *)

(** The three passes only look at the path, so the outcome on a parsed URL
    is fixed by its path. *)
Lemma extract_path_parameters_parsed (url : string) (parsed : ParseResult) :
  urlparse url = Ok parsed →
  extract_path_parameters url =
    let '(path1, ps1) := extract_uuids (p_path parsed) [] in
    let '(path2, ps2) := extract_numeric_ids path1 ps1 in
    let '(path3, ps3) := extract_alphanumeric_ids path2 ps2 in
    Ok (urlunparse (p_scheme parsed) (p_netloc parsed) path3 (p_params parsed)
                   (p_query parsed) (p_fragment parsed), ps3).
Proof.
  intros Hparse. unfold extract_path_parameters. rewrite Hparse. simpl.
  destruct (extract_uuids _ _) as [path1 ps1].
  destruct (extract_numeric_ids _ _) as [path2 ps2].
  destruct (extract_alphanumeric_ids _ _) as [path3 ps3].
  reflexivity.
Qed.

(** C8.  On a URL whose path is [/users/123/] the extractor returns the URL
    with the path [/users/{id}/] and exactly the parameter list
    [[{type: numeric_id, value: "123"}]]: the numeric pass finds [/123/], the
    alphanumeric pass then finds only [/users/], whose value is in the list
    of common words, so it stays in the path and is not recorded. *)
Theorem extract_users_123 (url : string) (parsed : ParseResult) :
  urlparse url = Ok parsed →
  p_path parsed = "/users/123/" →
  extract_path_parameters url =
    Ok (urlunparse (p_scheme parsed) (p_netloc parsed) "/users/{id}/" (p_params parsed)
                   (p_query parsed) (p_fragment parsed),
        [mkParam "numeric_id" "123"])
  ∧ findall uuid_pattern "/users/123/" = []
  ∧ findall numeric_pattern "/users/123/" = ["/123/"]
  ∧ findall alphanumeric_pattern "/users/{id}/" = ["/users/"]
  ∧ str_in_list (lower "users") common_words = true.
Proof.
  intros Hparse Hpath. split; [|by vm_compute].
  rewrite (extract_path_parameters_parsed _ _ Hparse), Hpath.
  reflexivity.
Qed.

(** ** The handlers of [normalize_url] and [extract_path_parameters] *)

Lemma normalize_url_fallback (url : string) (e : exn) :
  urlparse url = Raise e → normalize_url url = (print (normalize_error url e);; Ok url).
Proof. intros H. unfold normalize_url. by rewrite H. Qed.

Lemma extract_path_parameters_fallback (url : string) (e : exn) :
  urlparse url = Raise e →
  extract_path_parameters url = (print (extract_error url e);; Ok (url, [])).
Proof. intros H. unfold extract_path_parameters. by rewrite H. Qed.

Lemma print_returns (text : string) (u : unit) : print text = Ok u → print text = Ok tt.
Proof. by destruct u. Qed.

(** When the message is printed the fallback value is returned. *)
Lemma normalize_url_printed (url : string) (e : exn) :
  urlparse url = Raise e → print (normalize_error url e) = Ok tt → normalize_url url = Ok url.
Proof. intros H Hprint. by rewrite (normalize_url_fallback _ _ H), Hprint. Qed.

Lemma extract_path_parameters_printed (url : string) (e : exn) :
  urlparse url = Raise e → print (extract_error url e) = Ok tt →
  extract_path_parameters url = Ok (url, []).
Proof. intros H Hprint. by rewrite (extract_path_parameters_fallback _ _ H), Hprint. Qed.

(** A result for a URL that [urlparse] rejects is the fallback value, and the
    message was printed. *)
Lemma normalize_url_rejected (url normalized : string) (e : exn) :
  urlparse url = Raise e → normalize_url url = Ok normalized →
  normalized = url ∧ print (normalize_error url e) = Ok tt.
Proof.
  intros H. rewrite (normalize_url_fallback _ _ H).
  destruct (print _) as [[]|]; [|done]. by intros [= <-].
Qed.

Lemma extract_path_parameters_rejected (url : string) (r : string * list PathParam)
  (e : exn) :
  urlparse url = Raise e → extract_path_parameters url = Ok r →
  r = (url, []) ∧ print (extract_error url e) = Ok tt.
Proof.
  intros H. rewrite (extract_path_parameters_fallback _ _ H).
  destruct (print _) as [[]|]; [|done]. by intros [= <-].
Qed.

Lemma normalize_url_accepted (url : string) (parsed : ParseResult) :
  urlparse url = Ok parsed → ∃ normalized, normalize_url url = Ok normalized.
Proof. intros H. unfold normalize_url. rewrite H. by eexists. Qed.

Lemma extract_path_parameters_accepted (url : string) (parsed : ParseResult) :
  urlparse url = Ok parsed → ∃ r, extract_path_parameters url = Ok r.
Proof.
  intros H. rewrite (extract_path_parameters_parsed _ _ H).
  destruct (extract_uuids _ _) as [path1 ps1].
  destruct (extract_numeric_ids _ _) as [path2 ps2].
  destruct (extract_alphanumeric_ids _ _) as [path3 ps3]. by eexists.
Qed.

(** ** Loading a URL map *)

(** What [load_url_map] does in each of the three cases of its body. *)
Lemma load_url_map_unreadable (input_path : string) (e : exn) :
  read_text input_path = Raise e →
  load_url_map input_path = (print (load_error e);; Ok JNull).
Proof. intros H. unfold load_url_map. by rewrite H. Qed.

Lemma load_url_map_malformed (input_path text : string) (e : exn) :
  read_text input_path = Ok text → json_loads text = Raise e →
  load_url_map input_path = (print (load_error e);; Ok JNull).
Proof. intros H Hdec. unfold load_url_map. rewrite H, bind_Ok, Hdec. done. Qed.

Lemma load_url_map_decoded (input_path text : string) (url_map : json) :
  read_text input_path = Ok text → json_loads text = Ok url_map →
  load_url_map input_path =
    match print (loaded_message input_path) with
    | Ok _ => Ok url_map
    | Raise e => print (load_error e);; Ok JNull
    end.
Proof.
  intros H Hdec. unfold load_url_map. rewrite H, bind_Ok, Hdec, bind_Ok.
  by destruct (print (loaded_message input_path)).
Qed.

(** ** The snapshot differ *)

Lemma elem_of_signatures_of (m : url_map_t) (sig : string) :
  sig ∈ signatures_of m ↔ ∃ e, e ∈ default [] (um_entries m) ∧ signature e = sig.
Proof.
  unfold signatures_of. rewrite elem_of_list_to_set, list_elem_of_fmap.
  split; intros (e & H1 & H2); exists e; by split.
Qed.

(** The three lists are the set difference and intersection of the two
    signature sets, without repetition. *)
Lemma compare_url_maps_sets (old_map new_map : url_map_t) :
  let r := compare_url_maps old_map new_map in
  (list_to_set (added r) : gset string) = signatures_of new_map ∖ signatures_of old_map
  ∧ (list_to_set (removed r) : gset string) = signatures_of old_map ∖ signatures_of new_map
  ∧ (list_to_set (unchanged r) : gset string) = signatures_of old_map ∩ signatures_of new_map
  ∧ NoDup (added r) ∧ NoDup (removed r) ∧ NoDup (unchanged r)
  ∧ added_count r = List.length (added r)
  ∧ removed_count r = List.length (removed r)
  ∧ unchanged_count r = List.length (unchanged r).
Proof.
  simpl. rewrite !list_to_set_elements_L.
  split_and!; try done; apply NoDup_elements.
Qed.

(** The comparison only depends on the two signature sets. *)
Lemma compare_url_maps_signatures_only (old_map new_map old_map' new_map' : url_map_t) :
  signatures_of old_map = signatures_of old_map' →
  signatures_of new_map = signatures_of new_map' →
  compare_url_maps old_map new_map = compare_url_maps old_map' new_map'.
Proof. unfold compare_url_maps. by intros -> ->. Qed.

(** C7.  Comparing a catalog with itself gives no added and no removed
    signature and the signature set of the catalog as unchanged; in general
    the three results are the differences and the intersection of the two
    signature sets, so two pairs of catalogs with the same signature sets
    compare alike, whatever the content of their entries. *)
Theorem compare_url_maps_reflexive_and_set_based (C : url_map_t) :
  (added (compare_url_maps C C) = []
   ∧ removed (compare_url_maps C C) = []
   ∧ (list_to_set (unchanged (compare_url_maps C C)) : gset string) = signatures_of C
   ∧ added_count (compare_url_maps C C) = 0
   ∧ removed_count (compare_url_maps C C) = 0
   ∧ unchanged_count (compare_url_maps C C) = size (signatures_of C))
  ∧ (∀ old_map new_map sig,
       (sig ∈ added (compare_url_maps old_map new_map)
          ↔ sig ∈ signatures_of new_map ∧ sig ∉ signatures_of old_map)
       ∧ (sig ∈ removed (compare_url_maps old_map new_map)
          ↔ sig ∈ signatures_of old_map ∧ sig ∉ signatures_of new_map)
       ∧ (sig ∈ unchanged (compare_url_maps old_map new_map)
          ↔ sig ∈ signatures_of old_map ∧ sig ∈ signatures_of new_map))
  ∧ (∀ old_map new_map old_map' new_map',
       signatures_of old_map = signatures_of old_map' →
       signatures_of new_map = signatures_of new_map' →
       compare_url_maps old_map new_map = compare_url_maps old_map' new_map').
Proof.
  split_and!.
  - simpl. by rewrite difference_diag_L, elements_empty.
  - simpl. by rewrite difference_diag_L, elements_empty.
  - simpl. by rewrite list_to_set_elements_L, (idemp_L (∩)).
  - simpl. by rewrite difference_diag_L, size_empty.
  - simpl. by rewrite difference_diag_L, size_empty.
  - simpl. by rewrite (idemp_L (∩)).
  - intros old_map new_map sig. simpl.
    by rewrite !elem_of_elements, !elem_of_difference, elem_of_intersection.
  - apply compare_url_maps_signatures_only.
Qed.

(** ** The risk classifier *)

Section RiskLoop.

Variable url : string.
Variable parameters_ : option (list PathParam).

Lemma risk_loop_cons (indicator : string) (rest : list string) :
  risk_loop url parameters_ (indicator :: rest) =
    if url_hit url indicator then HIGH
    else if param_hit parameters_ indicator then MEDIUM
    else risk_loop url parameters_ rest.
Proof. reflexivity. Qed.

Lemma risk_loop_LOW (indicators : list string) :
  risk_loop url parameters_ indicators = LOW ↔ Forall (misses url parameters_) indicators.
Proof.
  induction indicators as [|i rest IH].
  - split; [constructor | reflexivity].
  - rewrite risk_loop_cons, Forall_cons. unfold misses at 1.
    destruct (url_hit url i); [split; [discriminate | intros [[? ?] ?]; discriminate]|].
    destruct (param_hit parameters_ i); [split; [discriminate | intros [[? ?] ?]; discriminate]|].
    rewrite IH. split; [intros H; by repeat split | by intros [_ H]].
Qed.

Lemma risk_loop_HIGH (indicators : list string) :
  risk_loop url parameters_ indicators = HIGH ↔
  ∃ before indicator after,
    indicators = (before ++ indicator :: after)%list
    ∧ Forall (misses url parameters_) before ∧ url_hit url indicator = true.
Proof.
  induction indicators as [|i rest IH].
  - split; [discriminate | intros ([|??] & ? & ? & ? & _); discriminate].
  - rewrite risk_loop_cons. split.
    + destruct (url_hit url i) eqn:Hu.
      { intros _. exists [], i, rest. by repeat split. }
      destruct (param_hit parameters_ i) eqn:Hp; [discriminate|].
      intros (before & ind & after & -> & Hb & Hi)%IH.
      exists (i :: before), ind, after. repeat split; [|done].
      constructor; [by split | done].
    + intros ([|j before] & ind & after & Heq & Hb & Hi); simplify_eq/=.
      { by rewrite Hi. }
      apply Forall_cons in Hb as [[-> ->] Hb].
      apply IH. by exists before, ind, after.
Qed.

Lemma risk_loop_MEDIUM (indicators : list string) :
  risk_loop url parameters_ indicators = MEDIUM ↔
  ∃ before indicator after,
    indicators = (before ++ indicator :: after)%list
    ∧ Forall (misses url parameters_) before
    ∧ url_hit url indicator = false ∧ param_hit parameters_ indicator = true.
Proof.
  induction indicators as [|i rest IH].
  - split; [discriminate | intros ([|??] & ? & ? & ? & _); discriminate].
  - rewrite risk_loop_cons. split.
    + destruct (url_hit url i) eqn:Hu; [discriminate|].
      destruct (param_hit parameters_ i) eqn:Hp.
      { intros _. exists [], i, rest. by repeat split. }
      intros (before & ind & after & -> & Hi)%IH.
      destruct Hi as (Hb' & Hu' & Hp').
      exists (i :: before), ind, after. repeat split; [|done..].
      constructor; [by split | done].
    + intros ([|j before] & ind & after & Heq & Hb & Hu & Hp); simplify_eq/=.
      { by rewrite Hu, Hp. }
      apply Forall_cons in Hb as [[-> ->] Hb].
      apply IH. by exists before, ind, after.
Qed.

End RiskLoop.

(** The loop of [url_normalizer.generate_url_map] is the loop of
    [create_url_mapping_entry]. *)
Lemma static_risk_loop_risk_loop (url : string) (parameters_ : list PathParam)
  (indicators : list string) :
  static_risk_loop url parameters_ indicators = risk_loop url (Some parameters_) indicators.
Proof.
  induction indicators as [|i rest IH]; [done|]. simpl.
  destruct (contains i (lower url)); [done|]. rewrite IH.
  by destruct parameters_.
Qed.

(** C1, as the code has it.  The classifier makes one pass over the
    indicator list and tests, for each indicator in turn, first the
    lower-cased URL and then the lower-cased parameter values; it stops at
    the first indicator for which a test succeeds.  The result is HIGH when
    that indicator is a substring of the URL, MEDIUM when it is only a
    substring of a parameter value, and LOW when no indicator matches
    anything.  Both risk loops of the repository agree. *)
Theorem risk_loop_first_matching_indicator (url : string)
  (parameters_ : option (list PathParam)) :
  (risk_loop url parameters_ risk_indicators = HIGH ↔
     ∃ before indicator after,
       risk_indicators = (before ++ indicator :: after)%list
       ∧ Forall (misses url parameters_) before
       ∧ url_hit url indicator = true)
  ∧ (risk_loop url parameters_ risk_indicators = MEDIUM ↔
     ∃ before indicator after,
       risk_indicators = (before ++ indicator :: after)%list
       ∧ Forall (misses url parameters_) before
       ∧ url_hit url indicator = false ∧ param_hit parameters_ indicator = true)
  ∧ (risk_loop url parameters_ risk_indicators = LOW ↔
     Forall (misses url parameters_) risk_indicators)
  ∧ (∀ ps, static_risk_loop url ps risk_indicators
             = risk_loop url (Some ps) risk_indicators).
Proof.
  split_and!.
  - apply risk_loop_HIGH.
  - apply risk_loop_MEDIUM.
  - apply risk_loop_LOW.
  - intros ps. apply static_risk_loop_risk_loop.
Qed.

(** ** The dictionary of merged entries *)

Lemma dict_get_alter (f : entry → entry) (k k' : string) (d : entries_dict) :
  dict_get k (dict_alter f k' d) =
    if String.eqb k k' then f <$> dict_get k d else dict_get k d.
Proof.
  induction d as [|[k0 e0] d IH]; simpl.
  - by destruct (String.eqb k k').
  - destruct (String.eqb_spec k' k0) as [->|Hne]; simpl.
    + by destruct (String.eqb k k0).
    + destruct (String.eqb_spec k k0) as [->|Hne'].
      * destruct (String.eqb_spec k0 k'); congruence.
      * apply IH.
Qed.

Lemma dict_get_add (k k' : string) (e : entry) (d : entries_dict) :
  dict_get k (dict_add k' e d) =
    match dict_get k d with
    | Some x => Some x
    | None => if String.eqb k k' then Some e else None
    end.
Proof.
  unfold dict_add. induction d as [|[k0 e0] d IH]; simpl; [done|].
  by destruct (String.eqb k k0).
Qed.

(** An entry already stored either stays as it is or, when the incoming
    entry has its signature, is replaced by its merge with the incoming
    entry. *)
Lemma merge_entry_get (merge : entry → entry → entry) (url_entry : entry)
  (d : entries_dict) (sig : string) (existing : entry) :
  dict_get sig d = Some existing →
  dict_get sig (merge_entry merge url_entry d) =
    Some (if String.eqb sig (signature url_entry) then merge url_entry existing
          else existing).
Proof.
  intros Hget. unfold merge_entry.
  destruct (dict_get (signature url_entry) d) as [e0|] eqn:Hsig.
  - rewrite dict_get_alter, Hget. by destruct (String.eqb sig (signature url_entry)).
  - rewrite dict_get_add, Hget.
    destruct (String.eqb_spec sig (signature url_entry)) as [->|]; congruence.
Qed.

(** ** Risk across merges *)

(** The merge blocks: the static one takes the higher of the two levels, the
    dynamic and the component ones leave the stored level alone. *)
Lemma merge_existing_static_risk (url_entry existing : entry) :
  risk_levels (risk_level (merge_existing_static url_entry existing)) =
    Z.max (risk_levels (risk_level existing)) (risk_levels (risk_level url_entry)).
Proof.
  unfold merge_existing_static; simpl. case_bool_decide; lia.
Qed.

Lemma merge_existing_dynamic_risk (method_ : string) (url_entry existing : entry) :
  risk_level (merge_existing_dynamic method_ url_entry existing) = risk_level existing.
Proof. reflexivity. Qed.

Lemma merge_existing_component_risk (url_entry existing : entry) :
  risk_level (merge_existing_component url_entry existing) = risk_level existing.
Proof. reflexivity. Qed.

Lemma never_lowers_static : never_lowers merge_existing_static.
Proof. intros ue ex. rewrite merge_existing_static_risk. lia. Qed.

Lemma never_lowers_dynamic (method_ : string) : never_lowers (merge_existing_dynamic method_).
Proof. intros ue ex. rewrite merge_existing_dynamic_risk. lia. Qed.

Lemma never_lowers_component : never_lowers merge_existing_component.
Proof. intros ue ex. rewrite merge_existing_component_risk. lia. Qed.

Lemma merge_entry_risk (merge : entry → entry → entry) (url_entry : entry)
  (d : entries_dict) (sig : string) (level : Z) :
  never_lowers merge →
  risk_at_least sig level d →
  risk_at_least sig level (merge_entry merge url_entry d).
Proof.
  intros Hmerge (e & Hget & Hle).
  eexists. split; [by apply merge_entry_get|].
  destruct (String.eqb sig (signature url_entry)); [|done].
  specialize (Hmerge url_entry e). lia.
Qed.

Lemma ingest_risk (st st' : merge_state) (obs : observation) (sig : string) (level : Z) :
  ingest st obs = Ok st' →
  risk_at_least sig level st.1 →
  risk_at_least sig level st'.1.
Proof.
  destruct st as [d now].
  destruct obs as [row|flow_|provider_];
    unfold ingest, merge_static_url, merge_flow, merge_provider.
  - destruct (create_url_mapping_entry _ _ _ _ _) as [ue|];
      [rewrite bind_Ok | by rewrite bind_Raise].
    intros [= <-] H. apply merge_entry_risk; [apply never_lowers_static | done].
  - destruct (create_url_mapping_entry _ _ _ _ _) as [ue|];
      [rewrite bind_Ok | by rewrite bind_Raise].
    intros [= <-] H. apply merge_entry_risk; [apply never_lowers_dynamic | done].
  - destruct (default false _); [|by intros [= <-]].
    destruct (negb _); [|by intros [= <-]].
    destruct (create_url_mapping_entry _ _ _ _ _) as [ue|];
      [rewrite bind_Ok | by rewrite bind_Raise].
    intros [= <-] H. apply merge_entry_risk; [apply never_lowers_component | done].
Qed.

Lemma for_each_app {S A} (body : S → A → result S) (st : S) (l1 l2 : list A) :
  for_each body st (l1 ++ l2)%list = (for_each body st l1 ≫= λ st', for_each body st' l2).
Proof.
  revert st. induction l1 as [|x l1 IH]; intros st; simpl; [done|].
  destruct (body st x) as [st1|e]; simpl; [apply IH | done].
Qed.

Lemma for_each_ingest_risk (obs : list observation) (st st' : merge_state)
  (sig : string) (level : Z) :
  for_each ingest st obs = Ok st' →
  risk_at_least sig level st.1 →
  risk_at_least sig level st'.1.
Proof.
  revert st. induction obs as [|o obs IH]; intros st; simpl.
  - by intros [= <-].
  - destruct (ingest st o) as [st1|] eqn:Ho; simpl; [|done].
    intros Hrest Hlevel. eapply IH; [done|]. by eapply ingest_risk.
Qed.

(** C5.  Whatever observations are merged after an entry has been stored,
    successfully, the entry is still stored under its signature and its risk
    level is not lower by ordinal than it was; with a single observation,
    this compares the level after merge N+1 with the level after merge N. *)
Theorem risk_level_monotone (later : list observation) (st st' : merge_state)
  (sig : string) (e : entry) :
  for_each ingest st later = Ok st' →
  dict_get sig st.1 = Some e →
  ∃ e', dict_get sig st'.1 = Some e'
        ∧ (risk_levels (risk_level e) ≤ risk_levels (risk_level e'))%Z.
Proof.
  intros Hrun Hget.
  apply (for_each_ingest_risk later st st' sig (risk_levels (risk_level e)) Hrun).
  exists e. split; [done | lia].
Qed.

(** [merge_static_dynamic_data] is the fold of [ingest] over the
    observations, followed by the removal of duplicate sources and URLs. *)
Lemma merge_static_dynamic_data_fold (now : nat) (static_results : static_results_t)
  (dynamic_results : list flow) (component_results : option (option (list provider))) :
  merge_static_dynamic_data now static_results dynamic_results component_results =
    (for_each ingest ([], now) (observations static_results dynamic_results component_results)
     ≫= λ '(merged_entries, now'),
       Ok ({| md_entries := dedup_entry <$> dict_values merged_entries;
              md_domains := default [] (sr_domains static_results);
              md_endpoints := default [] (sr_endpoints static_results);
              md_secrets := default [] (sr_secrets static_results);
              md_permissions := default [] (sr_permissions static_results);
              md_certificates := default [] (sr_certificates static_results);
              md_timestamp := clock now' |}, S now')).
Proof.
  assert (Hmap : ∀ {A} (inj : A → observation) (body : merge_state → A → result merge_state),
            (∀ st x, ingest st (inj x) = body st x) →
            ∀ l st, for_each ingest st (inj <$> l) = for_each body st l).
  { intros A inj body Hbody l. induction l as [|x l IH]; intros st; simpl; [done|].
    rewrite Hbody. destruct (body st x); simpl; [apply IH | done]. }
  assert (Hlast : ∀ st,
            (match component_results with
             | Some (Some providers) => for_each merge_provider st providers
             | _ => Ok st
             end) =
            for_each ingest st (Component <$> match component_results with
                                              | Some (Some providers) => providers
                                              | _ => []
                                              end)).
  { intros st. destruct component_results as [[providers|]|]; [|done..].
    by rewrite (Hmap _ Component merge_provider). }
  assert (Hfirst : ∀ st,
            (match sr_urls static_results with
             | Some urls => for_each merge_static_url st urls
             | None => Ok st
             end) =
            for_each ingest st (Static <$> default [] (sr_urls static_results))).
  { intros st. destruct (sr_urls static_results) as [urls|]; [|done].
    by rewrite (Hmap _ Static merge_static_url). }
  unfold merge_static_dynamic_data, observations.
  rewrite for_each_app, Hfirst.
  destruct (for_each ingest _ (Static <$> _)) as [st1|]; simpl; [|done].
  rewrite for_each_app, (Hmap _ Dynamic merge_flow) by done.
  destruct (for_each merge_flow st1 dynamic_results) as [st2|]; simpl; [|done].
  rewrite Hlast.
  by destruct (for_each ingest st2 _) as [[??]|].
Qed.

Lemma dict_get_values (sig : string) (d : entries_dict) (e : entry) :
  dict_get sig d = Some e → e ∈ dict_values d.
Proof.
  unfold dict_values. induction d as [|[k e0] d IH]; simpl; [done|].
  destruct (String.eqb sig k).
  - intros [= ->]. apply list_elem_of_here.
  - intros H. apply list_elem_of_further. by apply IH.
Qed.

(** The entry that [merge_static_dynamic_data] returns for a signature is
    at least as risky as the entry stored under it at any earlier point of
    the merge. *)
Lemma merge_static_dynamic_data_risk (now now' : nat) (static_results : static_results_t)
  (dynamic_results : list flow) (component_results : option (option (list provider)))
  (merged_data : merged_data_t) (earlier later : list observation) (st : merge_state)
  (sig : string) (e : entry) :
  observations static_results dynamic_results component_results = (earlier ++ later)%list →
  for_each ingest ([], now) earlier = Ok st →
  dict_get sig st.1 = Some e →
  merge_static_dynamic_data now static_results dynamic_results component_results
    = Ok (merged_data, now') →
  ∃ e', e' ∈ md_entries merged_data
        ∧ (risk_levels (risk_level e) ≤ risk_levels (risk_level e'))%Z.
Proof.
  intros Hobs Hearlier Hget. rewrite merge_static_dynamic_data_fold, Hobs, for_each_app.
  rewrite Hearlier, bind_Ok.
  destruct (for_each ingest st later) as [[d n]|] eqn:Hlater; [rewrite bind_Ok | done].
  intros [= <- _]. simpl.
  destruct (for_each_ingest_risk later st (d, n) sig (risk_levels (risk_level e)) Hlater)
    as (e' & Hget' & Hle); [exists e; split; [done | lia]|].
  exists (dedup_entry e'). split; [|done].
  apply list_elem_of_fmap. exists e'. split; [done|]. by apply dict_get_values in Hget'.
Qed.

(** C3, at the input that shows the defect.  A static observation stores the
    entry [api.example.com/v1/users] with level LOW; a dynamic observation of
    the same signature, whose own level is HIGH because its query contains
    [token], is merged into it; the stored level is still LOW.  In general
    the dynamic and the component merge leave the stored level unchanged,
    while the static merge takes the higher level. *)
Theorem dynamic_merge_keeps_stored_risk :
  let static_results :=
    static_rows [mkStaticUrl (Some "https://api.example.com/v1/users")
                             "https://api.example.com/v1/users" (Some []) ["jadx"]] in
  let dynamic_results :=
    [mkFlow (Some "https://api.example.com/v1/users?token=abc") (Some "GET")] in
  (∃ stored,
     create_url_mapping_entry 0 "https://api.example.com/v1/users" "UNKNOWN" "static" (Some [])
       = Ok stored
     ∧ signature stored = "api.example.com/v1/users" ∧ risk_level stored = LOW)
  ∧ (∃ incoming,
       create_url_mapping_entry 2 "https://api.example.com/v1/users?token=abc" "GET" "dynamic" None
         = Ok incoming
       ∧ signature incoming = "api.example.com/v1/users" ∧ risk_level incoming = HIGH)
  ∧ (∃ merged_data now,
       merge_static_dynamic_data 0 static_results dynamic_results None = Ok (merged_data, now)
       ∧ summary <$> md_entries merged_data
         = [("api.example.com/v1/users", LOW, 2%Z, ["static"; "dynamic"])])
  ∧ (∀ method_ url_entry existing,
       risk_level (merge_existing_dynamic method_ url_entry existing) = risk_level existing
       ∧ risk_level (merge_existing_component url_entry existing) = risk_level existing
       ∧ risk_levels (risk_level (merge_existing_static url_entry existing))
         = Z.max (risk_levels (risk_level existing)) (risk_levels (risk_level url_entry))).
Proof.
  split_and!.
  - eexists. split; [vm_compute; reflexivity | by split].
  - eexists. split; [vm_compute; reflexivity | by split].
  - eexists _, _. split; vm_compute; reflexivity.
  - intros. split_and!; [done | done | apply merge_existing_static_risk].
Qed.

(** ** Signatures *)

Lemma create_url_mapping_entry_parsed (now : nat) (url method_ source : string)
  (parameters_ : option (list PathParam)) (parsed : ParseResult) :
  urlparse url = Ok parsed →
  create_url_mapping_entry now url method_ source parameters_ =
    let normalized_path :=
      if truthy parameters_
      then substitute_placeholders (p_path parsed) (default [] parameters_)
      else p_path parsed in
    Ok {| signature := p_netloc parsed +:+ normalized_path;
          host := p_netloc parsed;
          path := normalized_path;
          method := method_;
          parameters := default [] parameters_;
          sources := [source];
          original_urls := [url];
          risk_level := risk_loop url parameters_ risk_indicators;
          first_seen := clock now;
          last_seen := clock (S now);
          frequency := 1 |}.
Proof. intros H. unfold create_url_mapping_entry. by rewrite H. Qed.

Lemma lower_char_idemp (c : ascii) : lower_char (lower_char c) = lower_char c.
Proof. by destruct c as [[] [] [] [] [] [] [] []]. Qed.

Lemma lower_idemp (s : string) : lower (lower s) = lower s.
Proof. induction s as [|c t IH]; simpl; [done|]. by rewrite lower_char_idemp, IH. Qed.

Lemma rstrip_idemp (p : ascii → bool) (s : string) : rstrip p (rstrip p s) = rstrip p s.
Proof.
  induction s as [|c t IH]; simpl; [done|].
  destruct (rstrip p t) as [|c' r] eqn:E.
  - destruct (p c) eqn:Hc; simpl; [done|]. by rewrite Hc.
  - change (rstrip p (String c (String c' r))) with
      (match rstrip p (String c' r) with
       | "" => if p c then "" else String c ""
       | r' => String c r'
       end).
    by rewrite IH.
Qed.

(** Stripping a string in lower case leaves it in lower case. *)
Lemma lower_rstrip (p : ascii → bool) (s : string) :
  lower s = s → lower (rstrip p s) = rstrip p s.
Proof.
  induction s as [|c t IH]; simpl; [done|].
  intros [= Hc Ht]. specialize (IH Ht).
  destruct (rstrip p t) as [|c' r].
  - destruct (p c); simpl; [done|]. by rewrite Hc.
  - change (lower (String c (String c' r))) with
      (String (lower_char c) (lower (String c' r))).
    by rewrite Hc, IH.
Qed.

Lemma normalize_url_parsed (url : string) (parsed : ParseResult) :
  urlparse url = Ok parsed →
  normalize_url url = Ok (unparse (normalize_components parsed)).
Proof. intros H. unfold normalize_url. by rewrite H. Qed.

(** What [normalize_components] does to each component: the scheme and the
    host are put in lower case, the trailing dots of the host and the
    trailing slashes of a path other than [/] are removed. *)
Lemma normalize_components_spec (parsed : ParseResult) :
  normalize_components parsed =
    {| p_scheme := lower (p_scheme parsed);
       p_netloc := rstrip is_dot (lower (p_netloc parsed));
       p_path := if String.eqb (p_path parsed) "/" then "/"
                 else rstrip is_slash (p_path parsed);
       p_params := p_params parsed;
       p_query := p_query parsed;
       p_fragment := p_fragment parsed |}.
Proof.
  destruct parsed as [sch net pth par qry frg]. unfold normalize_components; simpl.
  f_equal.
  - by destruct sch.
  - by destruct net.
  - destruct pth as [|c t]; [done|].
    destruct (String.eqb_spec (String c t) "/") as [->|]; done.
Qed.

(** ** Parsing a URL assembled from well-formed components *)

Lemma str_take_all (s : string) : str_take (len s) s = s.
Proof. rewrite <- (str_app_nil_r s) at 2. apply str_take_app. Qed.

Lemma str_drop_app_cons (a : string) (c : ascii) (b : string) :
  str_drop (S (len a)) (a +:+ String c b) = b.
Proof. induction a as [|x a IH]; str_simpl; [done|]. apply IH. Qed.

Lemma lacks_union (a b s : string) :
  lacks (a +:+ b) s = lacks a s && lacks b s.
Proof.
  unfold lacks. induction s as [|c t IH]; simpl; [done|].
  rewrite IH, has_char_app.
  by destruct (has_char c a), (has_char c b), (str_forallb _ t), (str_forallb _ t).
Qed.

Lemma alpha_not_c0 (c : ascii) :
  is_alpha c = true → WHATWG_C0_CONTROL_OR_SPACE c = false.
Proof. destruct c as [[] [] [] [] [] [] [] []]; vm_compute; congruence. Qed.

Lemma scheme_chars_plain (c : ascii) :
  scheme_chars c = true → negb (has_char c (":" +:+ unsafe_bytes)) = true.
Proof. destruct c as [[] [] [] [] [] [] [] []]; vm_compute; congruence. Qed.

Lemma replace_absent (k : ascii) (s : string) :
  has_char k s = false → replace (String k "") "" s = s.
Proof.
  unfold replace. induction s as [|c t IH]; simpl; [done|].
  intros [Hc Ht]%orb_false_elim. rewrite Hc. simpl. by rewrite (IH Ht).
Qed.

Lemma strip_unsafe_id (url : string) :
  (match url with String c _ => WHATWG_C0_CONTROL_OR_SPACE c | "" => false end) = false →
  lacks unsafe_bytes url = true →
  strip_unsafe url = url.
Proof.
  intros Hfirst Hsafe. unfold strip_unsafe.
  assert (Hl : lstrip WHATWG_C0_CONTROL_OR_SPACE url = url).
  { destruct url as [|c t]; simpl; [done|]. by rewrite Hfirst. }
  rewrite Hl. unfold UNSAFE_URL_BYTES_TO_REMOVE, chr. cbn [foldl].
  assert (Habsent : ∀ k, has_char k unsafe_bytes = true → replace (String k "") "" url = url).
  { intros k Hk. by apply replace_absent, (lacks_has_char unsafe_bytes). }
  rewrite (Habsent (ascii_of_nat 9)), (Habsent (ascii_of_nat 13)),
    (Habsent (ascii_of_nat 10)); by vm_compute.
Qed.

Lemma split_scheme_valid (s rest : string) :
  valid_scheme s = true → s ≠ "" →
  split_scheme (s +:+ String ":" rest) = (s, rest).
Proof.
  destruct s as [|c0 s']; [done|]. intros Hvalid _.
  unfold valid_scheme in Hvalid.
  apply andb_prop in Hvalid as [Hvalid Hlower%String.eqb_eq].
  apply andb_prop in Hvalid as [Hc0 Hchars].
  assert (Hcolon : has_char ":" (String c0 s') = false).
  { apply (lacks_has_char (":" +:+ unsafe_bytes)); [|done].
    revert Hchars. apply str_forallb_impl, scheme_chars_plain. }
  unfold split_scheme. rewrite (find_app_here _ _ _ Hcolon).
  change (len (String c0 s')) with (S (len s')).
  rewrite str_app_cons.
  change (str_take (S (len s')) (String c0 (s' +:+ String ":" rest)))
    with (String c0 (str_take (len s') (s' +:+ String ":" rest))).
  rewrite str_take_app, Hc0, Hchars, Hlower. simpl.
  replace (len s' + 1) with (S (len s')) by lia.
  by rewrite str_drop_app_cons.
Qed.

Lemma split_scheme_slash (t : string) :
  split_scheme (String "/" t) = ("", String "/" t).
Proof. unfold split_scheme. by destruct (find ":" _) as [[|i]|]. Qed.

Lemma find_from_2 (c : ascii) (a b : string) :
  has_char c a = false →
  find_from c (String "/" (String "/" (a +:+ b))) 2 = (λ i, 2 + (len a + i)) <$> find c b.
Proof.
  intros Ha. unfold find_from.
  change (len (String "/" (String "/" (a +:+ b)))) with (S (S (len (a +:+ b)))).
  change (str_drop 2 (String "/" (String "/" (a +:+ b)))) with (a +:+ b).
  simpl. rewrite (find_app_skip _ _ _ Ha). by destruct (find c b).
Qed.

(** The position at which [_splitnetloc] cuts when the netloc lacks the
    three delimiters and is followed by nothing or by a delimiter. *)
Lemma _splitnetloc_hosted (netloc rest : string) :
  lacks "/?#" netloc = true →
  starts_in "/?#" rest = true →
  _splitnetloc (String "/" (String "/" (netloc +:+ rest))) 2 = (netloc, rest).
Proof.
  intros Hn Hrest.
  assert (Hcut : ∀ delim,
            delim = S (S (len netloc)) →
            (str_drop 2 (str_take delim (String "/" (String "/" (netloc +:+ rest)))),
             str_drop delim (String "/" (String "/" (netloc +:+ rest)))) = (netloc, rest)).
  { intros delim ->. simpl. by rewrite str_take_app, str_drop_app. }
  unfold _splitnetloc. apply Hcut. cbn [foldl].
  rewrite !find_from_2 by (apply (lacks_has_char "/?#"); [done | by vm_compute]).
  change (len (String "/" (String "/" (netloc +:+ rest))))
    with (S (S (len (netloc +:+ rest)))).
  rewrite <- len_app.
  destruct rest as [|d rest']; [simpl; unfold len; simpl; by rewrite Nat.add_0_r|].
  assert (Hd : d = "/"%char ∨ d = "?"%char ∨ d = "#"%char).
  { simpl in Hrest. clear -Hrest.
    destruct d as [[] [] [] [] [] [] [] []]; vm_compute in Hrest;
      first [discriminate Hrest | auto]. }
  destruct Hd as [->|[->| ->]];
    destruct (find "/" rest') eqn:F1, (find "?" rest') eqn:F2, (find "#" rest') eqn:F3;
    simpl; rewrite ?F1, ?F2, ?F3; simpl; unfold len; simpl; lia.
Qed.

Lemma split_netloc_hosted (netloc rest : string) :
  lacks "/?#[]" netloc = true →
  starts_in "/?#" rest = true →
  split_netloc (String "/" (String "/" (netloc +:+ rest))) = Ok (netloc, rest).
Proof.
  intros Hn Hrest. unfold split_netloc.
  change (str_take 2 (String "/" (String "/" (netloc +:+ rest)))) with "//".
  change (String.eqb "//" "//") with true. cbv iota.
  rewrite _splitnetloc_hosted; [|revert Hn; apply lacks_subset|done].
  - rewrite (lacks_has_char "/?#[]" netloc "[") by done.
    by rewrite (lacks_has_char "/?#[]" netloc "]") by done.
  - intros c. destruct c as [[] [] [] [] [] [] [] []]; vm_compute; congruence.
Qed.

Lemma split_once_here (c : ascii) (a b : string) :
  has_char c a = false → split_once c (a +:+ String c b) = (a, b).
Proof.
  intros Ha. unfold split_once.
  assert (Hhas : has_char c (a +:+ String c b) = true).
  { rewrite has_char_app, Ha. simpl. unfold eqb_char. by rewrite Ascii.eqb_refl. }
  rewrite Hhas. unfold partition. rewrite (find_app_here _ _ _ Ha).
  by rewrite str_take_app, str_drop_app_cons.
Qed.

Lemma split_once_absent (c : ascii) (a : string) :
  has_char c a = false → split_once c a = (a, "").
Proof. intros Ha. unfold split_once. by rewrite Ha. Qed.

Lemma split_once_with_prefix (c : ascii) (a b : string) :
  has_char c a = false →
  split_once c (a +:+ with_prefix (String c "") b) = (a, b).
Proof.
  intros Ha. destruct b as [|d b']; simpl.
  - rewrite str_app_nil_r. by apply split_once_absent.
  - by apply split_once_here.
Qed.

Lemma lacks_with_prefix (chars sep s : string) :
  lacks chars sep = true → lacks chars s = true → lacks chars (with_prefix sep s) = true.
Proof. intros Hsep Hs. destruct s; [done|]. unfold with_prefix. by rewrite lacks_app, Hsep, Hs. Qed.

Lemma lacks_with_suffix (chars s sep : string) :
  lacks chars sep = true → lacks chars s = true → lacks chars (with_suffix s sep) = true.
Proof. intros Hsep Hs. destruct s; [done|]. unfold with_suffix. by rewrite lacks_app, Hsep, Hs. Qed.

Lemma has_char_with_prefix (c : ascii) (sep s : string) :
  has_char c sep = false → has_char c s = false → has_char c (with_prefix sep s) = false.
Proof. intros Hsep Hs. destruct s; [done|]. unfold with_prefix. by rewrite has_char_app, Hsep, Hs. Qed.

(** The scheme of a valid scheme lacks the colon and the unsafe bytes. *)
Lemma valid_scheme_plain (s : string) :
  valid_scheme s = true → lacks (":" +:+ unsafe_bytes) s = true.
Proof.
  destruct s as [|c0 s']; [done|]. unfold valid_scheme.
  intros [[_ Hchars]%andb_prop _]%andb_prop.
  revert Hchars. apply str_forallb_impl, scheme_chars_plain.
Qed.

Lemma split_scheme_with_suffix (s rest : string) :
  valid_scheme s = true →
  split_scheme (with_suffix s ":" +:+ String "/" rest) = (s, String "/" rest).
Proof.
  intros Hvalid. destruct s as [|c0 s'].
  - apply split_scheme_slash.
  - unfold with_suffix. rewrite str_app_assoc.
    change (":" +:+ String "/" rest) with (String ":" (String "/" rest)).
    by apply split_scheme_valid.
Qed.

(** The components of [hosted c], one by one. *)
Lemma hosted_fields (c : ParseResult) :
  hosted c = true →
  valid_scheme (p_scheme c) = true
  ∧ p_netloc c ≠ ""
  ∧ lacks "/?#[]" (p_netloc c) = true ∧ lacks unsafe_bytes (p_netloc c) = true
  ∧ rooted (p_path c) = true
  ∧ lacks "?#;" (p_path c) = true ∧ lacks unsafe_bytes (p_path c) = true
  ∧ p_params c = ""
  ∧ lacks "#" (p_query c) = true ∧ lacks unsafe_bytes (p_query c) = true
  ∧ lacks unsafe_bytes (p_fragment c) = true.
Proof.
  unfold hosted. rewrite !lacks_union, !andb_true_iff.
  intros (((((((H1 & H2) & [H3 H3']) & H4) & [H5 H5']) & H6) & [H7 H7']) & H8).
  split_and!; try done.
  - intros Heq. by rewrite Heq in H2.
  - by apply String.eqb_eq.
Qed.

Lemma urlsplit_hosted (c : ParseResult) :
  hosted c = true →
  urlsplit (hosted_url c) =
    Ok (mkSplitResult (p_scheme c) (p_netloc c) (p_path c) (p_query c) (p_fragment c)).
Proof.
  intros (Hs & Hn & Hn1 & Hn2 & Hp & Hp1 & Hp2 & _ & Hq1 & Hq2 & Hf)%hosted_fields.
  destruct c as [s n p pa q f]; simpl in *.
  unfold hosted_url; simpl.
  assert (HT : starts_in "/?#" (p +:+ with_prefix "?" q +:+ with_prefix "#" f) = true).
  { clear -Hp. destruct p as [|p0 p'].
    - destruct q; [|done]. by destruct f.
    - simpl in Hp. unfold eqb_char in Hp. by apply Ascii.eqb_eq in Hp as ->. }
  set (T := p +:+ with_prefix "?" q +:+ with_prefix "#" f) in *.
  change ("//" +:+ n +:+ T) with (String "/" (String "/" (n +:+ T))).
  assert (Hsafe : lacks unsafe_bytes (with_suffix s ":" +:+ String "/" (String "/" (n +:+ T)))
                  = true).
  { rewrite lacks_app.
    change (String "/" (String "/" (n +:+ T))) with ("//" +:+ (n +:+ T)).
    unfold T. rewrite !lacks_app, Hn2, Hp2.
    rewrite !lacks_with_prefix, lacks_with_suffix; try done.
    apply valid_scheme_plain in Hs. rewrite lacks_union in Hs.
    by apply andb_prop in Hs as [_ ?]. }
  unfold urlsplit. cbv zeta.
  rewrite strip_unsafe_id; [|clear -Hs|done].
  2:{ destruct s as [|c0 s']; [done|]. unfold valid_scheme in Hs.
      apply andb_prop in Hs as [[[_ Hal]%andb_prop _]%andb_prop _].
      by apply alpha_not_c0. }
  rewrite split_scheme_with_suffix by done.
  rewrite split_netloc_hosted by done. rewrite bind_Ok.
  unfold T. rewrite <- str_app_assoc.
  rewrite split_once_with_prefix.
  2:{ rewrite has_char_app, (lacks_has_char "?#;" p "#") by done.
      apply has_char_with_prefix; [done|]. by apply (lacks_has_char "#"). }
  rewrite split_once_with_prefix; [done|].
  by apply (lacks_has_char "?#;").
Qed.

Lemma unparse_hosted (c : ParseResult) :
  hosted c = true → unparse c = hosted_url c.
Proof.
  intros (_ & Hn & _ & _ & Hp & _ & _ & Hpa & _)%hosted_fields.
  destruct c as [s n p pa q f]; simpl in *. subst pa.
  destruct n as [|n0 n']; [done|].
  destruct p as [|p0 p'];
    [|simpl in Hp; unfold eqb_char in Hp; apply Ascii.eqb_eq in Hp as ->];
    destruct s as [|s0 s'], q as [|q0 q'], f as [|f0 f'];
    unfold unparse, urlunparse, urlunsplit, hosted_url; simpl;
    rewrite ?str_app_assoc, ?str_app_nil_r; reflexivity.
Qed.

(** Components with a host are what [urlparse] reads in the URL that
    [urlunparse] writes for them. *)
Lemma urlparse_unparse_hosted (c : ParseResult) :
  hosted c = true → urlparse (unparse c) = Ok c.
Proof.
  intros Hc. rewrite (unparse_hosted _ Hc).
  unfold urlparse. rewrite (urlsplit_hosted _ Hc), bind_Ok.
  apply hosted_fields in Hc as (_ & _ & _ & _ & _ & Hp & _ & Hpa & _).
  destruct c as [s n p pa q f]; simpl in *. subst pa.
  by rewrite (lacks_has_char "?#;" p ";"), andb_false_r.
Qed.

(** ** What [urlparse] returns *)

Lemma str_forallb_take (p : ascii → bool) (k : nat) (s : string) :
  str_forallb p s = true → str_forallb p (str_take k s) = true.
Proof.
  revert s. induction k as [|k IH]; intros [|c t]; simpl; try done.
  intros [Hc Ht]%andb_prop. by rewrite Hc, IH.
Qed.

Lemma str_forallb_drop (p : ascii → bool) (k : nat) (s : string) :
  str_forallb p s = true → str_forallb p (str_drop k s) = true.
Proof.
  revert s. induction k as [|k IH]; intros [|c t]; simpl; try done.
  intros [Hc Ht]%andb_prop. by apply IH.
Qed.

Lemma str_forallb_lower (p : ascii → bool) (s : string) :
  (∀ c, p (lower_char c) = p c) →
  str_forallb p (lower s) = str_forallb p s.
Proof. intros Hp. induction s as [|c t IH]; simpl; [done|]. by rewrite Hp, IH. Qed.

Lemma str_forallb_rstrip (p q : ascii → bool) (s : string) :
  str_forallb p s = true → str_forallb p (rstrip q s) = true.
Proof.
  induction s as [|c t IH]; simpl; [done|].
  intros [Hc Ht]%andb_prop. specialize (IH Ht).
  destruct (rstrip q t) as [|c' r].
  - destruct (q c); simpl; [done|]. by rewrite Hc.
  - change (str_forallb p (String c (String c' r)))
      with (p c && str_forallb p (String c' r)).
    by rewrite Hc, IH.
Qed.

(** [s.replace(k, "")] removes [k] and keeps what holds of every character. *)
Lemma remove_char_lacks (k : ascii) (s : string) :
  has_char k (replace (String k "") "" s) = false.
Proof.
  unfold replace. induction s as [|c t IH]; simpl; [done|].
  destruct (eqb_char k c) eqn:E; simpl; [done|]. by rewrite E, IH.
Qed.

Lemma remove_char_forallb (p : ascii → bool) (k : ascii) (s : string) :
  str_forallb p s = true → str_forallb p (replace (String k "") "" s) = true.
Proof.
  unfold replace. induction s as [|c t IH]; simpl; [done|].
  intros [Hc Ht]%andb_prop.
  destruct (eqb_char k c); simpl; [by apply IH|]. by rewrite Hc, IH.
Qed.

Lemma has_char_forallb (k : ascii) (s : string) :
  has_char k s = false ↔ str_forallb (λ c, negb (eqb_char k c)) s = true.
Proof.
  induction s as [|c t IH]; simpl; [done|].
  rewrite orb_false_iff, andb_true_iff, negb_true_iff, IH. done.
Qed.

Lemma str_forallb_and (p q : ascii → bool) (s : string) :
  str_forallb p s = true → str_forallb q s = true →
  str_forallb (λ c, p c && q c) s = true.
Proof.
  induction s as [|c t IH]; simpl; [done|].
  intros [Hp Hp']%andb_prop [Hq Hq']%andb_prop. by rewrite Hp, Hq, IH.
Qed.

Lemma lacks_three (a b c : ascii) (s : string) :
  has_char a s = false → has_char b s = false → has_char c s = false →
  lacks (String a (String b (String c ""))) s = true.
Proof.
  intros Ha%has_char_forallb Hb%has_char_forallb Hc%has_char_forallb.
  pose proof (str_forallb_and _ _ _ Ha (str_forallb_and _ _ _ Hb Hc)) as H.
  revert H. apply str_forallb_impl. intros d. simpl. unfold eqb_char.
  rewrite (Ascii.eqb_sym d a), (Ascii.eqb_sym d b), (Ascii.eqb_sym d c).
  by destruct (Ascii.eqb a d), (Ascii.eqb b d), (Ascii.eqb c d).
Qed.

Lemma strip_unsafe_lacks (url : string) : lacks unsafe_bytes (strip_unsafe url) = true.
Proof.
  unfold strip_unsafe, UNSAFE_URL_BYTES_TO_REMOVE, chr. cbn [foldl].
  apply lacks_three.
  - apply has_char_forallb. do 2 apply remove_char_forallb.
    apply has_char_forallb, remove_char_lacks.
  - apply has_char_forallb. apply remove_char_forallb.
    apply has_char_forallb, remove_char_lacks.
  - apply remove_char_lacks.
Qed.

Lemma valid_scheme_lower (s : string) :
  (match s with String c0 _ => is_ascii c0 && is_alpha c0 | "" => true end) = true →
  str_forallb scheme_chars s = true →
  valid_scheme (lower s) = true.
Proof.
  intros Hfirst Hchars. destruct s as [|c0 t]; [done|].
  assert (Hlow : ∀ c, scheme_chars (lower_char c) = scheme_chars c).
  { intros c. by destruct c as [[] [] [] [] [] [] [] []]. }
  assert (Hc0 : is_ascii (lower_char c0) && is_alpha (lower_char c0) = true).
  { revert Hfirst. clear. by destruct c0 as [[] [] [] [] [] [] [] []]. }
  change (lower (String c0 t)) with (String (lower_char c0) (lower t)).
  unfold valid_scheme. rewrite Hc0.
  change (String (lower_char c0) (lower t)) with (lower (String c0 t)).
  by rewrite (str_forallb_lower _ _ Hlow), Hchars, lower_idemp, String.eqb_refl.
Qed.

Lemma split_scheme_inv (url scheme rest : string) :
  split_scheme url = (scheme, rest) →
  valid_scheme scheme = true ∧ ∃ k, rest = str_drop k url.
Proof.
  unfold split_scheme.
  destruct (find ":" url) as [[|i]|]; destruct url as [|c0 t];
    try (intros [= <- <-]; split; [done | by exists 0]).
  destruct (is_ascii c0 && is_alpha c0 && _) eqn:E;
    [|intros [= <- <-]; split; [done | by exists 0]].
  apply andb_prop in E as [Hc0 Hchars].
  intros [= <- <-]. split; [|by exists (S i + 1)].
  by apply (valid_scheme_lower (String c0 (str_take i t))).
Qed.

Lemma span_class_spec (p : ascii → bool) (s : string) :
  str_forallb p (span_class p s).1 = true
  ∧ s = (span_class p s).1 +:+ (span_class p s).2
  ∧ match (span_class p s).2 with
    | "" => True
    | String c _ => p c = false
    end.
Proof.
  induction s as [|c t IH]; simpl; [done|].
  destruct (p c) eqn:Hc; [|done].
  destruct (span_class p t) as [run rest]. simpl in *.
  destruct IH as (IH1 & IH2 & IH3). rewrite Hc, IH1. split_and!; [done| |done].
  by rewrite str_app_cons, <- IH2.
Qed.

Lemma find_cons (c d : ascii) (t : string) :
  find c (String d t) = if eqb_char c d then Some 0 else S <$> find c t.
Proof. reflexivity. Qed.

Lemma netloc_char_spec (c : ascii) :
  netloc_char c = negb (eqb_char "/" c) && negb (eqb_char "?" c) && negb (eqb_char "#" c).
Proof. by destruct c as [[] [] [] [] [] [] [] []]. Qed.

(** [netloc_end] is where the run of netloc characters ends. *)
Lemma netloc_end_span (s : string) :
  (str_take (netloc_end s) s, str_drop (netloc_end s) s) = span_class netloc_char s.
Proof.
  induction s as [|c t IH]; [done|].
  assert (Hend : netloc_end (String c t) = if netloc_char c then S (netloc_end t) else 0).
  { unfold netloc_end. cbn [foldl]. rewrite !find_cons, netloc_char_spec.
    change (len (String c t)) with (S (len t)).
    destruct (eqb_char "/" c), (eqb_char "?" c), (eqb_char "#" c);
      destruct (find "/" t), (find "?" t), (find "#" t); simpl; unfold len; simpl; lia. }
  rewrite Hend. simpl. destruct (netloc_char c); [|done].
  destruct (span_class netloc_char t) as [run rest].
  injection IH as Htake Hdrop. simpl. by rewrite Htake, Hdrop.
Qed.

Lemma _splitnetloc_span (s : string) :
  _splitnetloc (String "/" (String "/" s)) 2 = span_class netloc_char s.
Proof.
  rewrite <- netloc_end_span. unfold _splitnetloc.
  assert (Hfrom : ∀ c, find_from c (String "/" (String "/" s)) 2 = (λ i, 2 + i) <$> find c s).
  { intros c. apply (find_from_2 c "" s). done. }
  assert (Hend : foldl (λ delim c,
                          match find_from c (String "/" (String "/" s)) 2 with
                          | Some wdelim => Nat.min delim wdelim
                          | None => delim
                          end)
                       (len (String "/" (String "/" s))) ["/"; "?"; "#"]%char
                 = S (S (netloc_end s))).
  { unfold netloc_end. cbn [foldl]. rewrite !Hfrom.
    change (len (String "/" (String "/" s))) with (S (S (len s))).
    destruct (find "/" s), (find "?" s), (find "#" s); simpl; unfold len; simpl; lia. }
  rewrite Hend. reflexivity.
Qed.

Lemma split_netloc_inv (url netloc rest : string) :
  split_netloc url = Ok (netloc, rest) →
  (netloc = "" ∧ rest = url)
  ∨ ∃ s, url = String "/" (String "/" s) ∧ span_class netloc_char s = (netloc, rest).
Proof.
  unfold split_netloc. intros Hsplit.
  destruct (String.eqb_spec (str_take 2 url) "//") as [Hstart|_];
    [|injection Hsplit as <- <-; by left].
  destruct url as [|a [|b s]]; try discriminate Hstart.
  injection Hstart as -> ->. right. exists s. split; [done|].
  rewrite _splitnetloc_span in Hsplit.
  destruct (span_class netloc_char s) as [n r].
  destruct (_ || _); [done|].
  destruct (_ && _); [|by injection Hsplit as <- <-].
  destruct (_check_bracketed_netloc n); [|done].
  by injection Hsplit as <- <-.
Qed.

Lemma find_Some_split (c : ascii) (s : string) (i : nat) :
  find c s = Some i →
  has_char c (str_take i s) = false ∧ s = str_take i s +:+ String c (str_drop (S i) s).
Proof.
  revert i. induction s as [|d t IH]; intros i; [done|].
  rewrite find_cons. destruct (eqb_char c d) eqn:E.
  - intros [= <-]. split; [done|]. unfold eqb_char in E.
    by apply Ascii.eqb_eq in E as ->.
  - destruct (find c t) as [j|]; [|done]. intros [= <-].
    destruct (IH j eq_refl) as [IH1 IH2].
    change (str_take (S j) (String d t)) with (String d (str_take j t)).
    change (str_drop (S (S j)) (String d t)) with (str_drop (S j) t).
    split; [simpl; by rewrite E, IH1|].
    by rewrite str_app_cons, <- IH2.
Qed.

Lemma split_once_inv (c : ascii) (s a b : string) :
  split_once c s = (a, b) →
  has_char c a = false ∧ ((s = a ∧ b = "") ∨ s = a +:+ String c b).
Proof.
  unfold split_once. destruct (has_char c s) eqn:E; [|by intros [= <- <-]; auto].
  unfold partition. destruct (find c s) as [i|] eqn:F.
  - intros [= <- <-]. destruct (find_Some_split _ _ _ F) as [H1 H2]. auto.
  - apply find_None in F. congruence.
Qed.

Lemma _splitparams_inv (url a b : string) :
  _splitparams url = (a, b) → ∃ i, a = str_take i url.
Proof.
  unfold _splitparams. destruct (has_char "/" url).
  - destruct (find_from _ _ _).
    + intros [= <- <-]. by eexists.
    + intros [= <- <-]. exists (len url). by rewrite str_take_all.
  - destruct (find ";" url); intros [= <- <-]; by eexists.
Qed.

Lemma lacks_cons (k : ascii) (chars s : string) :
  lacks (String k chars) s = negb (has_char k s) && lacks chars s.
Proof.
  unfold lacks. induction s as [|d t IH]; [done|].
  simpl in IH |- *. rewrite IH. unfold eqb_char. rewrite (Ascii.eqb_sym d k).
  by destruct (Ascii.eqb k d), (has_char d chars), (has_char k t).
Qed.

Lemma lacks_nil (s : string) : lacks "" s = true.
Proof. unfold lacks. induction s as [|c t IH]; simpl; [done|]. apply IH. Qed.

Lemma lacks_take (chars : string) (k : nat) (s : string) :
  lacks chars s = true → lacks chars (str_take k s) = true.
Proof. apply str_forallb_take. Qed.

Lemma lacks_drop (chars : string) (k : nat) (s : string) :
  lacks chars s = true → lacks chars (str_drop k s) = true.
Proof. apply str_forallb_drop. Qed.

Lemma rooted_take (i : nat) (s : string) : rooted s = true → rooted (str_take i s) = true.
Proof. by destruct i, s. Qed.

Lemma rooted_rstrip (p : ascii → bool) (s : string) :
  rooted s = true → rooted (rstrip p s) = true.
Proof.
  destruct s as [|c t]; [done|]. simpl. intros Hc.
  destruct (rstrip p t); [by destruct (p c)|done].
Qed.

Lemma has_char_cons (c d : ascii) (t : string) :
  has_char c (String d t) = eqb_char c d || has_char c t.
Proof. reflexivity. Qed.

(** The delimiter that is neither [#] nor [?] is the slash. *)
Lemma delimiter_slash (c : ascii) :
  has_char c "/?#" = true → eqb_char "#" c = false → eqb_char "?" c = false →
  eqb_char c "/" = true.
Proof. destruct c as [[] [] [] [] [] [] [] []]; vm_compute; congruence. Qed.

(** What [urlsplit] guarantees about the components it returns. *)
Lemma urlsplit_inv (url : string) (r : SplitResult) :
  urlsplit url = Ok r →
  valid_scheme (s_scheme r) = true
  ∧ lacks "/?#" (s_netloc r) = true
  ∧ (s_netloc r ≠ "" → rooted (s_path r) = true)
  ∧ lacks "?#" (s_path r) = true
  ∧ lacks "#" (s_query r) = true
  ∧ lacks unsafe_bytes (s_netloc r) = true
  ∧ lacks unsafe_bytes (s_path r) = true
  ∧ lacks unsafe_bytes (s_query r) = true
  ∧ lacks unsafe_bytes (s_fragment r) = true.
Proof.
  unfold urlsplit. cbv zeta.
  pose proof (strip_unsafe_lacks url) as H0.
  destruct (split_scheme (strip_unsafe url)) as [s u1] eqn:E1.
  apply split_scheme_inv in E1 as [Hs [k ->]].
  apply (lacks_drop _ k) in H0.
  destruct (split_netloc _) as [[n u2]|e] eqn:E2; [rewrite bind_Ok | by rewrite bind_Raise].
  destruct (split_once "#" u2) as [u3 f] eqn:E3.
  destruct (split_once "?" u3) as [p q] eqn:E4.
  intros [= <-]. simpl.
  apply split_once_inv in E3 as [H3 E3]. apply split_once_inv in E4 as [H4 E4].
  (* the netloc and what follows it *)
  assert (Hnet : lacks "/?#" n = true ∧ (n ≠ "" → starts_in "/?#" u2 = true)
                 ∧ lacks unsafe_bytes n = true ∧ lacks unsafe_bytes u2 = true).
  { apply split_netloc_inv in E2 as [[-> ->]|(s' & Hu1 & Hspan)]; [done|].
    rewrite Hu1 in H0. apply (lacks_drop _ 2) in H0.
    change (str_drop 2 (String "/" (String "/" s'))) with s' in H0.
    destruct (span_class_spec netloc_char s') as (Hrun & Happ & Hnext).
    rewrite Hspan in Hrun, Happ, Hnext. simpl in Hrun, Happ, Hnext.
    rewrite Happ, lacks_app in H0. apply andb_prop in H0 as [? ?].
    split_and!; try done.
    intros _. destruct u2 as [|c ?]; [done|]. simpl.
    unfold netloc_char in Hnext. by apply negb_false_iff in Hnext. }
  destruct Hnet as (Hn & Hroot & Hn0 & Hu2).
  (* the fragment and the query *)
  assert (Hu3 : lacks unsafe_bytes u3 = true ∧ lacks unsafe_bytes f = true).
  { destruct E3 as [[-> ->]| ->]; [done|].
    rewrite lacks_app in Hu2. apply andb_prop in Hu2 as [? Hf].
    simpl in Hf. by apply andb_prop in Hf as [_ ?]. }
  destruct Hu3 as [Hu3 Hf].
  assert (Hpq : lacks unsafe_bytes p = true ∧ lacks unsafe_bytes q = true
                ∧ has_char "#" p = false ∧ has_char "#" q = false).
  { destruct E4 as [[-> ->]| ->]; [done|].
    rewrite lacks_app in Hu3. apply andb_prop in Hu3 as [? Hq].
    simpl in Hq. apply andb_prop in Hq as [_ ?].
    rewrite has_char_app in H3. apply orb_false_elim in H3 as [? Hq3].
    simpl in Hq3. done. }
  destruct Hpq as (Hp & Hq & Hp3 & Hq3).
  split_and!; try done.
  - (* a path after a netloc starts with a slash *)
    intros Hne. specialize (Hroot Hne). destruct p as [|p0 p']; [done|].
    assert (Hu3' : ∃ t, u3 = String p0 t).
    { destruct E4 as [[-> _]| ->]; by eexists. }
    destruct Hu3' as [t3 ->].
    assert (Hu2' : ∃ t, u2 = String p0 t).
    { destruct E3 as [[-> _]| ->]; by eexists. }
    destruct Hu2' as [t2 ->].
    rewrite has_char_cons in H3, H4.
    apply orb_false_elim in H3 as [H3 _]. apply orb_false_elim in H4 as [H4 _].
    by apply delimiter_slash.
  - by rewrite !lacks_cons, lacks_nil, H4, Hp3.
  - by rewrite lacks_cons, lacks_nil, Hq3.
Qed.

Lemma urlparse_inv (url : string) (parsed : ParseResult) :
  urlparse url = Ok parsed →
  valid_scheme (p_scheme parsed) = true
  ∧ lacks "/?#" (p_netloc parsed) = true
  ∧ (p_netloc parsed ≠ "" → rooted (p_path parsed) = true)
  ∧ lacks "?#" (p_path parsed) = true
  ∧ lacks "#" (p_query parsed) = true
  ∧ lacks unsafe_bytes (p_netloc parsed) = true
  ∧ lacks unsafe_bytes (p_path parsed) = true
  ∧ lacks unsafe_bytes (p_query parsed) = true
  ∧ lacks unsafe_bytes (p_fragment parsed) = true.
Proof.
  unfold urlparse.
  destruct (urlsplit url) as [[s n p q f]|] eqn:E; [rewrite bind_Ok | by rewrite bind_Raise].
  apply urlsplit_inv in E as (Hs & Hn & Hroot & Hp & Hq & Hn0 & Hp0 & Hq0 & Hf0).
  simpl in *.
  destruct (_ && _).
  - destruct (_splitparams p) as [a b] eqn:E5.
    apply _splitparams_inv in E5 as [i ->].
    intros [= <-]. simpl. split_and!; try done.
    + intros Hne. by apply rooted_take, Hroot.
    + by apply lacks_take.
    + by apply lacks_take.
  - intros [= <-]. simpl. by split_and!.
Qed.

Lemma lacks_rstrip (chars : string) (p : ascii → bool) (s : string) :
  lacks chars s = true → lacks chars (rstrip p s) = true.
Proof. apply str_forallb_rstrip. Qed.

(** Lower case leaves the delimiters, the brackets and the unsafe bytes
    where they are. *)
Lemma lower_char_punctuation (c : ascii) :
  has_char (lower_char c) "/?#[]" = has_char c "/?#[]"
  ∧ has_char (lower_char c) unsafe_bytes = has_char c unsafe_bytes.
Proof. by destruct c as [[] [] [] [] [] [] [] []]. Qed.

Lemma valid_scheme_lower_id (s : string) : valid_scheme s = true → lower s = s.
Proof.
  destruct s as [|c0 t]; [done|]. unfold valid_scheme.
  by intros [_ ?%String.eqb_eq]%andb_prop.
Qed.

(** The normalised components of a URL with a host, without brackets in
    the host and without semicolon in the path, are well formed. *)
Lemma normalize_components_hosted (url : string) (parsed : ParseResult) :
  urlparse url = Ok parsed →
  rstrip is_dot (lower (p_netloc parsed)) ≠ "" →
  lacks "[]" (p_netloc parsed) = true →
  lacks ";" (p_path parsed) = true →
  p_params parsed = "" →
  hosted (normalize_components parsed) = true.
Proof.
  intros (Hs & Hn & Hroot & Hp & Hq & Hn0 & Hp0 & Hq0 & Hf0)%urlparse_inv
         Hhost Hbr Hsemi Hpa.
  rewrite normalize_components_spec.
  destruct parsed as [s n p pa q f]; simpl in *. subst pa.
  assert (Hne : n ≠ "") by (by intros ->).
  specialize (Hroot Hne).
  unfold hosted; simpl. rewrite !lacks_union, !andb_true_iff. split_and!; try done.
  - by rewrite (valid_scheme_lower_id _ Hs).
  - by apply negb_true_iff, String.eqb_neq.
  - apply lacks_rstrip. unfold lacks.
    rewrite str_forallb_lower by (intros c; by rewrite (proj1 (lower_char_punctuation c))).
    change "/?#[]" with ("/?#" +:+ "[]"). fold (lacks ("/?#" +:+ "[]") n).
    by rewrite lacks_union, Hn, Hbr.
  - apply lacks_rstrip. unfold lacks.
    rewrite str_forallb_lower by (intros c; by rewrite (proj2 (lower_char_punctuation c))).
    done.
  - destruct (String.eqb p "/"); [done|]. by apply rooted_rstrip.
  - destruct (String.eqb p "/") eqn:E; [by apply String.eqb_eq in E as ->|].
    apply lacks_rstrip. change "?#;" with ("?#" +:+ ";").
    by rewrite lacks_union, Hp, Hsemi.
  - destruct (String.eqb p "/") eqn:E; [by apply String.eqb_eq in E as ->|].
    by apply lacks_rstrip.
Qed.

(** ** Normalising twice *)

Lemma normalize_components_idemp (parsed : ParseResult) :
  normalize_components (normalize_components parsed) = normalize_components parsed.
Proof.
  destruct parsed as [sch net pth par qry frg].
  rewrite !normalize_components_spec. simpl. f_equal.
  - apply lower_idemp.
  - rewrite lower_rstrip by apply lower_idemp.
    by rewrite rstrip_idemp.
  - destruct (String.eqb_spec pth "/") as [->|Hne]; [done|].
    rewrite rstrip_idemp.
    by destruct (String.eqb_spec (rstrip is_slash pth) "/") as [->|].
Qed.

(** C6, as the code has it.  Normalising twice gives the result of
    normalising once for every URL that [urlparse] rejects, for every URL
    whose normalised form parses back into the components from which it was
    assembled, and in particular for every URL with a host (a netloc that is
    not empty once its trailing dots are removed) that has no square bracket
    in the netloc, no semicolon in the path and no params. *)
Theorem normalize_url_idempotent_when_reparsed (url : string) :
  (∀ e, urlparse url = Raise e → normalize_twice url = normalize_url url)
  ∧ (∀ parsed,
       urlparse url = Ok parsed →
       urlparse (unparse (normalize_components parsed)) = Ok (normalize_components parsed) →
       normalize_twice url = normalize_url url)
  ∧ (∀ parsed,
       urlparse url = Ok parsed →
       rstrip is_dot (lower (p_netloc parsed)) ≠ "" →
       lacks "[]" (p_netloc parsed) = true →
       lacks ";" (p_path parsed) = true →
       p_params parsed = "" →
       normalize_twice url = normalize_url url).
Proof.
  assert (Hre : ∀ parsed,
            urlparse url = Ok parsed →
            urlparse (unparse (normalize_components parsed)) = Ok (normalize_components parsed) →
            normalize_twice url = normalize_url url).
  { intros parsed H Hre. unfold normalize_twice.
    rewrite (normalize_url_parsed _ _ H), bind_Ok.
    by rewrite (normalize_url_parsed _ _ Hre), normalize_components_idemp. }
  split_and!; [|exact Hre|].
  - intros e H. unfold normalize_twice. rewrite (normalize_url_fallback _ _ H).
    destruct (print (normalize_error url e)) as [[]|] eqn:Hprint; [|done].
    rewrite !bind_Ok, (normalize_url_fallback _ _ H), Hprint. done.
  - intros parsed H Hhost Hbr Hsemi Hpa. apply (Hre parsed H).
    by apply urlparse_unparse_hosted, (normalize_components_hosted url).
Qed.

(** ** Signatures, continued *)

(** C4, as the code has it.  The signature of an entry is the netloc of the
    parsed URL followed by its path, the path taken as parsed (after the
    substitution of placeholders when parameters are attached): scheme,
    params, query and fragment do not enter it, and the host and path are
    neither put in lower case nor stripped when the signature is built.  The
    same holds for the rows of [url_normalizer.generate_url_map].  The lower
    case of the host, the removal of its trailing dots and of the trailing
    slashes of a path other than [/] are the work of [normalize_url]: the
    signature built from the normalised form of a URL with a host (no square
    bracket in the netloc, no semicolon in the path, no params) is the
    lower-case host without trailing dots followed by the stripped path. *)
Theorem signature_is_netloc_and_path (now : nat) (url method_ source : string)
  (parameters_ : option (list PathParam)) (parsed : ParseResult) :
  urlparse url = Ok parsed →
  (∃ e, create_url_mapping_entry now url method_ source parameters_ = Ok e
        ∧ host e = p_netloc parsed
        ∧ path e = (if truthy parameters_
                    then substitute_placeholders (p_path parsed) (default [] parameters_)
                    else p_path parsed)
        ∧ signature e = host e +:+ path e)
  ∧ (∀ original_url ps srcs,
       ∃ row, static_map_row url original_url ps srcs = Ok row
              ∧ sm_signature row = p_netloc parsed +:+ p_path parsed)
  ∧ normalize_url url =
      Ok (urlunparse (lower (p_scheme parsed))
                     (rstrip is_dot (lower (p_netloc parsed)))
                     (if String.eqb (p_path parsed) "/" then "/"
                      else rstrip is_slash (p_path parsed))
                     (p_params parsed) (p_query parsed) (p_fragment parsed))
  ∧ (rstrip is_dot (lower (p_netloc parsed)) ≠ "" →
     lacks "[]" (p_netloc parsed) = true →
     lacks ";" (p_path parsed) = true →
     p_params parsed = "" →
     ∃ normalized e,
       normalize_url url = Ok normalized
       ∧ create_url_mapping_entry now normalized method_ source None = Ok e
       ∧ host e = rstrip is_dot (lower (p_netloc parsed))
       ∧ path e = (if String.eqb (p_path parsed) "/" then "/"
                   else rstrip is_slash (p_path parsed))
       ∧ signature e = host e +:+ path e).
Proof.
  intros Hparse. split_and!.
  - eexists. split; [by apply create_url_mapping_entry_parsed|]. by simpl.
  - intros. unfold static_map_row. rewrite Hparse, bind_Ok. by eexists.
  - rewrite (normalize_url_parsed _ _ Hparse), normalize_components_spec. done.
  - intros Hhost Hbr Hsemi Hpa.
    pose proof (urlparse_unparse_hosted _
                  (normalize_components_hosted _ _ Hparse Hhost Hbr Hsemi Hpa)) as Hre.
    eexists _, _. split; [by apply normalize_url_parsed|].
    split; [by apply create_url_mapping_entry_parsed|].
    rewrite normalize_components_spec. by simpl.
Qed.

(** ** The scheme and query example *)

(** C2, as the code has it.  The static pipeline extracts no parameter from
    [https://api.example.com/v1/users/123] (the numeric pattern needs a slash
    after the digits) and a dynamic observation carries no parameters, so
    both URLs get the signature [api.example.com/v1/users/123]: scheme and
    query are dropped, the segment [123] stays.  Merging the two
    observations gives exactly one entry, with frequency 2.  When the static
    row comes with the parameter [{type: numeric_id, value: "123"}] already
    attached, its signature is [api.example.com/v1/users/{id}], the dynamic
    one is not, and the merge gives two entries of frequency 1. *)
Theorem scheme_query_collapse_example :
  let static_url_ := "https://api.example.com/v1/users/123" in
  let flow_ := mkFlow (Some "http://api.example.com/v1/users/123?x=1") (Some "GET") in
  (∃ static_results,
     merge_static_results (tool_urls [static_url_]) (tool_urls []) (tool_urls [])
       = Ok static_results
     ∧ sr_urls static_results
       = Some [mkStaticUrl (Some static_url_) static_url_ (Some []) ["jadx"]]
     ∧ ∃ merged_data now,
         merge_static_dynamic_data 0 static_results [flow_] None = Ok (merged_data, now)
         ∧ summary <$> md_entries merged_data
           = [("api.example.com/v1/users/123", LOW, 2%Z, ["static"; "dynamic"])])
  ∧ (∃ merged_data now,
       merge_static_dynamic_data 0
         (static_rows [mkStaticUrl (Some static_url_) static_url_
                                   (Some [mkParam "numeric_id" "123"]) ["jadx"]])
         [flow_] None = Ok (merged_data, now)
       ∧ summary <$> md_entries merged_data
         = [("api.example.com/v1/users/{id}", LOW, 1%Z, ["static"]);
            ("api.example.com/v1/users/123", LOW, 1%Z, ["dynamic"])]).
Proof.
  split.
  - eexists. split; [vm_compute; reflexivity|]. split; [reflexivity|].
    eexists _, _. split; vm_compute; reflexivity.
  - eexists _, _. split; vm_compute; reflexivity.
Qed.

(** * Further properties *)

(** ** The merge, observation by observation *)

Lemma ingest_unfold (d : entries_dict) (now : nat) (obs : observation) :
  ingest (d, now) obs =
    match obs_call obs with
    | None => Ok (d, now)
    | Some (url, method_, source, parameters_) =>
        create_url_mapping_entry now url method_ source parameters_
        ≫= λ url_entry, Ok (merge_entry (obs_merge obs) url_entry d, S (S now))
    end.
Proof.
  destruct obs as [row|flow_|provider_]; simpl; [done..|].
  by destruct (default false _), (negb _).
Qed.

Lemma create_url_mapping_entry_inv (now : nat) (url method_ source : string)
  (parameters_ : option (list PathParam)) (url_entry : entry) :
  create_url_mapping_entry now url method_ source parameters_ = Ok url_entry →
  ∃ parsed,
    urlparse url = Ok parsed
    ∧ url_entry =
        {| signature := p_netloc parsed +:+
             (if truthy parameters_
              then substitute_placeholders (p_path parsed) (default [] parameters_)
              else p_path parsed);
           host := p_netloc parsed;
           path := if truthy parameters_
                   then substitute_placeholders (p_path parsed) (default [] parameters_)
                   else p_path parsed;
           method := method_;
           parameters := default [] parameters_;
           sources := [source];
           original_urls := [url];
           risk_level := risk_loop url parameters_ risk_indicators;
           first_seen := clock now;
           last_seen := clock (S now);
           frequency := 1 |}.
Proof.
  destruct (urlparse url) as [parsed|e] eqn:Hparse.
  - rewrite (create_url_mapping_entry_parsed _ _ _ _ _ _ Hparse). intros [= <-].
    by exists parsed.
  - unfold create_url_mapping_entry. by rewrite Hparse.
Qed.

(** What an observation that is merged brings: an entry of its signature. *)
Lemma ingest_inv (d : entries_dict) (now : nat) (obs : observation) (st' : merge_state) :
  ingest (d, now) obs = Ok st' →
  (obs_call obs = None ∧ obs_signature obs = None ∧ st' = (d, now))
  ∨ ∃ url method_ source parameters_ url_entry,
      obs_call obs = Some (url, method_, source, parameters_)
      ∧ create_url_mapping_entry now url method_ source parameters_ = Ok url_entry
      ∧ obs_signature obs = Some (signature url_entry)
      ∧ st' = (merge_entry (obs_merge obs) url_entry d, S (S now)).
Proof.
  rewrite ingest_unfold. unfold obs_signature.
  destruct (obs_call obs) as [[[[url method_] source] parameters_]|]; [|intros [= <-]; by left].
  destruct (create_url_mapping_entry _ _ _ _ _) as [ue|] eqn:Hcreate;
    [rewrite bind_Ok | by rewrite bind_Raise].
  intros [= <-]. right. exists url, method_, source, parameters_, ue.
  destruct (create_url_mapping_entry_inv _ _ _ _ _ _ Hcreate) as (parsed & Hparse & ->).
  by rewrite Hparse.
Qed.

Lemma dict_get_elem (k : string) (d : entries_dict) (e : entry) :
  dict_get k d = Some e → (k, e) ∈ d.
Proof.
  induction d as [|[k0 e0] d IH]; simpl; [done|].
  destruct (String.eqb_spec k k0) as [->|].
  - intros [= ->]. apply list_elem_of_here.
  - intros H. apply list_elem_of_further. by apply IH.
Qed.

Lemma dict_get_None (k : string) (d : entries_dict) :
  dict_get k d = None ↔ k ∉ d.*1.
Proof.
  induction d as [|[k0 e0] d IH]; simpl.
  - split; [intros _; apply not_elem_of_nil | done].
  - rewrite not_elem_of_cons. destruct (String.eqb_spec k k0) as [->|Hne].
    + split; [done | by intros [? _]].
    + rewrite IH. split; [done | by intros [_ ?]].
Qed.

Lemma dict_ok_get (k : string) (d : entries_dict) (e : entry) :
  dict_ok d → (k, e) ∈ d → dict_get k d = Some e.
Proof.
  intros [Hnodup _]. induction d as [|[k0 e0] d IH]; simpl.
  - by intros ?%elem_of_nil.
  - simpl in Hnodup. apply NoDup_cons in Hnodup as [Hk0 Hnodup].
    intros [[= -> ->]|Hin]%elem_of_cons.
    + by rewrite String.eqb_refl.
    + destruct (String.eqb_spec k k0) as [->|]; [|by apply IH].
      destruct Hk0. apply list_elem_of_fmap. by exists (k0, e).
Qed.

Lemma dict_ok_signature (k : string) (d : entries_dict) (e : entry) :
  dict_ok d → dict_get k d = Some e → signature e = k.
Proof.
  intros [_ Hsig] Hget%dict_get_elem.
  rewrite Forall_forall in Hsig. apply (Hsig (k, e) Hget).
Qed.

Lemma dict_alter_fst (f : entry → entry) (k : string) (d : entries_dict) :
  (dict_alter f k d).*1 = d.*1.
Proof.
  induction d as [|[k0 e0] d IH]; [done|]. cbn [dict_alter].
  destruct (String.eqb k k0); rewrite !fmap_cons; [done|]. by rewrite IH.
Qed.

Lemma dict_ok_alter (f : entry → entry) (k : string) (d : entries_dict) :
  (∀ e, signature (f e) = signature e) →
  dict_ok d → dict_ok (dict_alter f k d).
Proof.
  intros Hf [Hnodup Hsig]. split; [by rewrite dict_alter_fst|].
  clear Hnodup. induction d as [|[k0 e0] d IH]; simpl; [done|].
  apply Forall_cons in Hsig as [H0 Hsig]. simpl in H0.
  destruct (String.eqb k k0); constructor; simpl; try done.
  - by rewrite Hf.
  - by apply IH.
Qed.

Lemma dict_ok_add (k : string) (e : entry) (d : entries_dict) :
  signature e = k → dict_get k d = None → dict_ok d → dict_ok (dict_add k e d).
Proof.
  intros He Hnone%dict_get_None [Hnodup Hsig]. unfold dict_add. split.
  - rewrite fmap_app. apply NoDup_app. split_and!; [done| |by apply NoDup_singleton].
    intros x Hx Hx'%list_elem_of_singleton. by subst.
  - apply Forall_app. split; [done|]. by constructor.
Qed.

Lemma obs_merge_signature (obs : observation) (url_entry existing : entry) :
  signature (obs_merge obs url_entry existing) = signature existing.
Proof. by destruct obs. Qed.

Lemma ingest_dict_ok (st st' : merge_state) (obs : observation) :
  ingest st obs = Ok st' → dict_ok st.1 → dict_ok st'.1.
Proof.
  destruct st as [d now].
  intros [(_ & _ & ->)|(url & m & src & ps & ue & _ & _ & _ & ->)]%ingest_inv Hok; [done|].
  simpl in *. unfold merge_entry.
  destruct (dict_get (signature ue) d) eqn:Hget.
  - apply dict_ok_alter; [|done]. intros existing. apply obs_merge_signature.
  - by apply dict_ok_add.
Qed.

Lemma for_each_ingest_dict_ok (obs : list observation) (st st' : merge_state) :
  for_each ingest st obs = Ok st' → dict_ok st.1 → dict_ok st'.1.
Proof.
  revert st. induction obs as [|o obs IH]; intros st; simpl.
  - by intros [= <-].
  - destruct (ingest st o) as [st1|] eqn:Ho; [rewrite bind_Ok | by rewrite bind_Raise].
    intros Hrest Hok. eapply IH; [done|]. by eapply ingest_dict_ok.
Qed.

(** What [merge_static_dynamic_data] returns, in terms of the dictionary that
    the fold leaves. *)
Lemma merge_static_dynamic_data_inv (now now' : nat) (static_results : static_results_t)
  (dynamic_results : list flow) (component_results : option (option (list provider)))
  (merged_data : merged_data_t) :
  merge_static_dynamic_data now static_results dynamic_results component_results
    = Ok (merged_data, now') →
  ∃ d n,
    for_each ingest ([], now) (observations static_results dynamic_results component_results)
      = Ok (d, n)
    ∧ now' = S n
    ∧ md_entries merged_data = dedup_entry <$> dict_values d
    ∧ md_timestamp merged_data = clock n
    ∧ dict_ok d.
Proof.
  rewrite merge_static_dynamic_data_fold.
  destruct (for_each ingest _ _) as [[d n]|] eqn:Hrun; [rewrite bind_Ok | by rewrite bind_Raise].
  intros [= <- <-]. exists d, n. split_and!; try done.
  apply (for_each_ingest_dict_ok _ _ _ Hrun). split; [constructor | constructor].
Qed.

(** An entry of the result comes from the entry stored under its signature. *)
Lemma md_entries_inv (d : entries_dict) (e : entry) :
  dict_ok d → e ∈ dedup_entry <$> dict_values d →
  ∃ e0, e = dedup_entry e0 ∧ dict_get (signature e) d = Some e0.
Proof.
  intros Hok (e0 & -> & Hin)%list_elem_of_fmap. exists e0. split; [done|].
  unfold dict_values in Hin. apply list_elem_of_fmap in Hin as ([k e1] & -> & Hin).
  simpl. destruct Hok as [Hnodup Hsig]. pose proof Hsig as Hsig'.
  rewrite Forall_forall in Hsig'. pose proof (Hsig' _ Hin) as Hk. simpl in Hk.
  rewrite Hk. by apply dict_ok_get.
Qed.

Lemma merge_entry_get_ne (merge : entry → entry → entry) (url_entry : entry)
  (d : entries_dict) (sig : string) :
  sig ≠ signature url_entry →
  dict_get sig (merge_entry merge url_entry d) = dict_get sig d.
Proof.
  intros Hne. unfold merge_entry.
  destruct (dict_get (signature url_entry) d) as [e0|].
  - rewrite dict_get_alter. by destruct (String.eqb_spec sig (signature url_entry)).
  - rewrite dict_get_add. destruct (dict_get sig d); [done|].
    by destruct (String.eqb_spec sig (signature url_entry)).
Qed.

Lemma merge_entry_get_new (merge : entry → entry → entry) (url_entry : entry)
  (d : entries_dict) :
  dict_get (signature url_entry) d = None →
  dict_get (signature url_entry) (merge_entry merge url_entry d) = Some url_entry.
Proof.
  intros Hnone. unfold merge_entry. rewrite Hnone, dict_get_add, Hnone.
  by rewrite String.eqb_refl.
Qed.

Lemma hits_cons (sig : string) (o : observation) (obs : list observation) :
  hits sig (o :: obs) =
    if decide (obs_signature o = Some sig) then o :: hits sig obs else hits sig obs.
Proof. unfold hits. by rewrite filter_cons. Qed.

Lemma fold_field_Some {M} (g : observation → M → M) (mk : observation → M) (a : M)
  (l : list observation) :
  fold_field g mk (Some a) l = Some (foldl (λ a o, g o a) a l).
Proof. revert a. induction l as [|o l IH]; intros a; [done|]. apply IH. Qed.

Lemma fold_field_None {M} (g : observation → M → M) (mk : observation → M)
  (l : list observation) :
  fold_field g mk None l =
    match l with
    | [] => None
    | o :: os => Some (foldl (λ a o, g o a) (mk o) os)
    end.
Proof. destruct l as [|o os]; [done|]. apply fold_field_Some. Qed.

(** The field of the entry stored under [sig] follows the observations of
    that signature and no other. *)
Lemma for_each_ingest_field {M} (f : entry → M) (g : observation → M → M)
  (mk : observation → M) (obs : list observation) (st st' : merge_state) (sig : string) :
  field_spec f g mk →
  for_each ingest st obs = Ok st' →
  f <$> dict_get sig st'.1 = fold_field g mk (f <$> dict_get sig st.1) (hits sig obs).
Proof.
  intros Hspec. revert st. induction obs as [|o obs IH]; intros st; simpl.
  - by intros [= <-].
  - destruct (ingest st o) as [st1|] eqn:Ho; [rewrite bind_Ok | by rewrite bind_Raise].
    intros Hrest. rewrite (IH _ Hrest), hits_cons. clear IH Hrest.
    destruct st as [d now].
    apply ingest_inv in Ho
      as [(_ & Hsig & ->)|(url & m & src & ps & ue & Hcall & Hcreate & Hsig & ->)];
      rewrite Hsig.
    + by rewrite decide_False.
    + destruct (Hspec _ _ _ _ _ _ _ Hcall Hcreate) as [Hnew Hmerge].
      destruct (decide (Some (signature ue) = Some sig)) as [[= <-]|Hne].
      * cbn [fold_field foldl fst]. f_equal. destruct (dict_get (signature ue) d) as [existing|] eqn:Hget.
        -- rewrite (merge_entry_get _ _ _ _ _ Hget), String.eqb_refl. simpl.
           by rewrite Hmerge.
        -- rewrite (merge_entry_get_new _ _ _ Hget). simpl. by rewrite Hnew.
      * cbn [fst]. rewrite merge_entry_get_ne; [done|]. congruence.
Qed.

(** An entry of the result, the entry of the dictionary that it comes from,
    and its field as the observations of its signature make it. *)
Lemma merged_entry_field {M} (f : entry → M) (g : observation → M → M)
  (mk : observation → M) (now now' : nat) (static_results : static_results_t)
  (dynamic_results : list flow) (component_results : option (option (list provider)))
  (merged_data : merged_data_t) (e : entry) :
  field_spec f g mk →
  merge_static_dynamic_data now static_results dynamic_results component_results
    = Ok (merged_data, now') →
  e ∈ md_entries merged_data →
  ∃ e0 o os,
    e = dedup_entry e0
    ∧ hits (signature e) (observations static_results dynamic_results component_results)
      = o :: os
    ∧ f e0 = foldl (λ a o, g o a) (mk o) os.
Proof.
  intros Hspec (d & n & Hrun & _ & Hentries & _ & Hok)%merge_static_dynamic_data_inv He.
  rewrite Hentries in He. apply (md_entries_inv _ _ Hok) in He as (e0 & He & Hget).
  pose proof (for_each_ingest_field f g mk _ _ _ (signature e) Hspec Hrun) as Hfield.
  simpl in Hfield. rewrite Hget, fold_field_None in Hfield.
  destruct (hits _ _) as [|o os]; [done|]. injection Hfield as Hfield.
  by exists e0, o, os.
Qed.

(** The specifications of the fields. *)
Ltac field_spec_tac :=
  intros obs now url method_ source parameters_ url_entry Hcall
         (parsed & _ & ->)%create_url_mapping_entry_inv;
  unfold obs_source, obs_url, obs_parameters, obs_method, obs_risk; rewrite ?Hcall;
  destruct obs as [row|flow_|provider_]; simpl in Hcall;
  [| |destruct (default false _ && negb _)];
  try discriminate Hcall; injection Hcall as <- <- <- <-.

Lemma frequency_spec : field_spec frequency (λ _ n, (n + 1)%Z) (λ _, 1%Z).
Proof. field_spec_tac; by split. Qed.

Lemma sources_spec :
  field_spec sources (λ o l, (l ++ [obs_source o])%list) (λ o, [obs_source o]).
Proof. field_spec_tac; by split. Qed.

Lemma original_urls_spec :
  field_spec original_urls (λ o l, (l ++ [default "" (obs_url o)])%list)
             (λ o, [default "" (obs_url o)]).
Proof.
  intros obs now url method_ source parameters_ url_entry Hcall
         (parsed & _ & ->)%create_url_mapping_entry_inv.
  unfold obs_url. rewrite Hcall. by destruct obs.
Qed.

Lemma parameters_spec :
  field_spec parameters (λ o l, (l ++ obs_parameters o)%list) obs_parameters.
Proof. field_spec_tac; split; try done; intros existing; simpl; by rewrite app_nil_r. Qed.

Lemma method_spec :
  field_spec method (λ o current, later_method current (obs_method o)) obs_method.
Proof. field_spec_tac; by split. Qed.

Lemma foldl_snoc_map {A B} (h : A → B) (init : list B) (l : list A) :
  foldl (λ acc o, (acc ++ [h o])%list) init l = (init ++ (h <$> l))%list.
Proof.
  revert init. induction l as [|x l IH]; intros init; simpl.
  - by rewrite app_nil_r.
  - by rewrite IH, <- app_assoc.
Qed.

Lemma foldl_succ {A} (init : Z) (l : list A) :
  foldl (λ n _, (n + 1)%Z) init l = (init + Z.of_nat (List.length l))%Z.
Proof.
  revert init. induction l as [|x l IH]; intros init; simpl List.length; simpl foldl.
  - lia.
  - rewrite IH. lia.
Qed.

Lemma foldl_app_concat {A B} (h : A → list B) (init : list B) (l : list A) :
  foldl (λ acc o, (acc ++ h o)%list) init l = (init ++ List.concat (h <$> l))%list.
Proof.
  revert init. induction l as [|x l IH]; intros init; simpl.
  - by rewrite app_nil_r.
  - by rewrite IH, <- app_assoc.
Qed.

Lemma foldl_later_method (init : string) (methods : list string) :
  foldl later_method init methods
  = default init (last (filter (λ m, m ≠ "UNKNOWN") methods)).
Proof.
  revert init. induction methods as [|m methods IH]; intros init; [done|].
  simpl foldl. rewrite IH, filter_cons. unfold later_method.
  destruct (String.eqb_spec m "UNKNOWN") as [->|Hne]; cbn [negb].
  - rewrite decide_False; [done|]. intros Hne. by apply Hne.
  - rewrite decide_True by done. rewrite last_cons. by destruct (last _).
Qed.

Lemma signatures_of_values (d : entries_dict) :
  dict_ok d → signature <$> (dedup_entry <$> dict_values d) = d.*1.
Proof.
  intros [_ Hsig]. unfold dict_values. induction Hsig as [|[k e] d Hk _ IH]; [done|].
  rewrite !fmap_cons. simpl in *. by rewrite Hk, IH.
Qed.

Lemma hits_elem (sig : string) (o : observation) (obs : list observation) :
  o ∈ hits sig obs ↔ o ∈ obs ∧ obs_signature o = Some sig.
Proof. unfold hits. rewrite list_elem_of_filter. split; intros [? ?]; by split. Qed.

Lemma obs_signature_url (o : observation) (sig : string) :
  obs_signature o = Some sig → ∃ url, obs_url o = Some url.
Proof.
  unfold obs_signature, obs_url.
  destruct (obs_call o) as [[[[url m] src] ps]|]; [|done]. by exists url.
Qed.

(** X1: [merge_static_dynamic_data] returns at most one entry per signature. *)
Theorem merged_signatures_unique (now now' : nat) (static_results : static_results_t)
  (dynamic_results : list flow) (component_results : option (option (list provider)))
  (merged_data : merged_data_t) :
  merge_static_dynamic_data now static_results dynamic_results component_results
    = Ok (merged_data, now') →
  NoDup (signature <$> md_entries merged_data).
Proof.
  intros (d & n & _ & _ & -> & _ & Hok)%merge_static_dynamic_data_inv.
  rewrite (signatures_of_values _ Hok). apply Hok.
Qed.

(** X2: the frequency of an entry of the result is the number of
    observations (static rows, flows and accessible providers) that have its
    signature, and it is at least one. *)
Theorem merged_frequency_counts_observations (now now' : nat)
  (static_results : static_results_t) (dynamic_results : list flow)
  (component_results : option (option (list provider))) (merged_data : merged_data_t)
  (e : entry) :
  merge_static_dynamic_data now static_results dynamic_results component_results
    = Ok (merged_data, now') →
  e ∈ md_entries merged_data →
  frequency e =
    Z.of_nat (List.length (hits (signature e)
                (observations static_results dynamic_results component_results)))
  ∧ (1 ≤ frequency e)%Z.
Proof.
  intros Hrun He.
  destruct (merged_entry_field _ _ _ _ _ _ _ _ _ _ frequency_spec Hrun He)
    as (e0 & o & os & -> & -> & Hfreq).
  cbn [frequency dedup_entry]. rewrite Hfreq, foldl_succ. simpl List.length. lia.
Qed.

(** X3: the sources of an entry of the result are, without repetition, the
    kinds ([static], [dynamic], [component]) of the observations that have
    its signature. *)
Theorem merged_sources_are_observation_kinds (now now' : nat)
  (static_results : static_results_t) (dynamic_results : list flow)
  (component_results : option (option (list provider))) (merged_data : merged_data_t)
  (e : entry) :
  merge_static_dynamic_data now static_results dynamic_results component_results
    = Ok (merged_data, now') →
  e ∈ md_entries merged_data →
  NoDup (sources e)
  ∧ ∀ s, s ∈ sources e ↔
         ∃ o, o ∈ observations static_results dynamic_results component_results
              ∧ obs_signature o = Some (signature e) ∧ obs_source o = s.
Proof.
  intros Hrun He.
  destruct (merged_entry_field _ _ _ _ _ _ _ _ _ _ sources_spec Hrun He)
    as (e0 & o & os & -> & Hhits & Hsources).
  cbn [sources dedup_entry signature] in *. unfold list_set.
  split; [apply NoDup_remove_dups|]. intros s.
  rewrite elem_of_remove_dups, Hsources, foldl_snoc_map.
  change ([obs_source o] ++ (obs_source <$> os))%list with (obs_source <$> o :: os).
  rewrite <- Hhits, list_elem_of_fmap. split.
  - intros (o' & -> & [Hin Hsig]%hits_elem). by exists o'.
  - intros (o' & Hin & Hsig & <-). exists o'. split; [done|]. by apply hits_elem.
Qed.

(** X4: the original URLs of an entry of the result are, without repetition,
    the URLs of the observations that have its signature. *)
Theorem merged_original_urls_are_observed (now now' : nat)
  (static_results : static_results_t) (dynamic_results : list flow)
  (component_results : option (option (list provider))) (merged_data : merged_data_t)
  (e : entry) :
  merge_static_dynamic_data now static_results dynamic_results component_results
    = Ok (merged_data, now') →
  e ∈ md_entries merged_data →
  NoDup (original_urls e)
  ∧ ∀ url, url ∈ original_urls e ↔
           ∃ o, o ∈ observations static_results dynamic_results component_results
                ∧ obs_signature o = Some (signature e) ∧ obs_url o = Some url.
Proof.
  intros Hrun He.
  destruct (merged_entry_field _ _ _ _ _ _ _ _ _ _ original_urls_spec Hrun He)
    as (e0 & o & os & -> & Hhits & Hurls).
  cbn [original_urls dedup_entry signature] in *. unfold list_set.
  split; [apply NoDup_remove_dups|]. intros url.
  rewrite elem_of_remove_dups, Hurls, foldl_snoc_map.
  change ([default "" (obs_url o)] ++ ((λ o, default "" (obs_url o)) <$> os))%list
    with ((λ o, default "" (obs_url o)) <$> o :: os).
  rewrite <- Hhits, list_elem_of_fmap. split.
  - intros (o' & -> & [Hin Hsig]%hits_elem). exists o'. split_and!; [done..|].
    destruct (obs_signature_url _ _ Hsig) as [url' ->]. done.
  - intros (o' & Hin & Hsig & Hurl). exists o'. split; [by rewrite Hurl|].
    by apply hits_elem.
Qed.

(** X5: on static results that [merge_static_results] returned, whose rows
    each have a parameter list of their own, the parameters of an entry of
    the result are the parameter lists of the static rows that have its
    signature, one after the other and with their repetitions. *)
Theorem merged_parameters_are_concatenated (now now' : nat)
  (jadx_results apkleaks_results mobsf_results : tool_results_t)
  (static_results : static_results_t) (dynamic_results : list flow)
  (component_results : option (option (list provider))) (merged_data : merged_data_t)
  (e : entry) :
  merge_static_results jadx_results apkleaks_results mobsf_results = Ok static_results →
  merge_static_dynamic_data now static_results dynamic_results component_results
    = Ok (merged_data, now') →
  e ∈ md_entries merged_data →
  parameters e =
    List.concat (obs_parameters <$>
              filter (λ o, is_static o = true)
                (hits (signature e)
                   (observations static_results dynamic_results component_results))).
Proof.
  intros _ Hrun He.
  destruct (merged_entry_field _ _ _ _ _ _ _ _ _ _ parameters_spec Hrun He)
    as (e0 & o & os & -> & Hhits & Hparameters).
  cbn [parameters dedup_entry signature] in *.
  rewrite Hparameters, foldl_app_concat, Hhits.
  change (obs_parameters o ++ List.concat (obs_parameters <$> os))%list
    with (List.concat (obs_parameters <$> o :: os)).
  generalize (o :: os). clear. intros l. induction l as [|o l IH]; [done|].
  rewrite filter_cons, fmap_cons. simpl List.concat.
  destruct o as [row|flow_|provider_]; simpl is_static.
  - rewrite decide_True by done. rewrite fmap_cons. simpl List.concat. by rewrite IH.
  - rewrite decide_False by done. by rewrite IH.
  - rewrite decide_False by done. rewrite IH. unfold obs_parameters. simpl.
    by destruct (default false _ && negb _).
Qed.

(** X6: the method of an entry of the result is the last method other than
    [UNKNOWN] among the observations that have its signature (a static row
    counts for [UNKNOWN], an accessible provider for [CONTENT_PROVIDER]), and
    [UNKNOWN] when there is none. *)
Theorem merged_method_is_last_known (now now' : nat)
  (static_results : static_results_t) (dynamic_results : list flow)
  (component_results : option (option (list provider))) (merged_data : merged_data_t)
  (e : entry) :
  merge_static_dynamic_data now static_results dynamic_results component_results
    = Ok (merged_data, now') →
  e ∈ md_entries merged_data →
  method e =
    default "UNKNOWN"
      (last (filter (λ m, m ≠ "UNKNOWN")
               (obs_method <$>
                  hits (signature e)
                    (observations static_results dynamic_results component_results)))).
Proof.
  intros Hrun He.
  destruct (merged_entry_field _ _ _ _ _ _ _ _ _ _ method_spec Hrun He)
    as (e0 & o & os & -> & Hhits & Hmethod).
  cbn [method dedup_entry signature] in *. rewrite Hhits, Hmethod.
  rewrite <- foldl_later_method, fmap_cons. simpl foldl.
  replace (later_method "UNKNOWN" (obs_method o)) with (obs_method o).
  - generalize (obs_method o). clear. induction os as [|o' os IH]; intros m; [done|].
    rewrite fmap_cons. simpl. apply IH.
  - unfold later_method. by destruct (String.eqb_spec (obs_method o) "UNKNOWN") as [->|].
Qed.

Lemma merged_entry_inv (now now' : nat) (static_results : static_results_t)
  (dynamic_results : list flow) (component_results : option (option (list provider)))
  (merged_data : merged_data_t) (e : entry) :
  merge_static_dynamic_data now static_results dynamic_results component_results
    = Ok (merged_data, now') →
  e ∈ md_entries merged_data →
  ∃ d n e0,
    for_each ingest ([], now) (observations static_results dynamic_results component_results)
      = Ok (d, n)
    ∧ e = dedup_entry e0
    ∧ dict_get (signature e) d = Some e0.
Proof.
  intros (d & n & Hrun & _ & Hentries & _ & Hok)%merge_static_dynamic_data_inv He.
  rewrite Hentries in He. apply (md_entries_inv _ _ Hok) in He as (e0 & He & Hget).
  by exists d, n, e0.
Qed.

Lemma stored_field {M} (f : entry → M) (g : observation → M → M) (mk : observation → M)
  (now n : nat) (obs : list observation) (d : entries_dict) (sig : string) (e0 : entry) :
  field_spec f g mk →
  for_each ingest ([], now) obs = Ok (d, n) →
  dict_get sig d = Some e0 →
  ∃ o os, hits sig obs = o :: os ∧ f e0 = foldl (λ a o, g o a) (mk o) os.
Proof.
  intros Hspec Hrun Hget.
  pose proof (for_each_ingest_field f g mk _ _ _ sig Hspec Hrun) as Hfield.
  simpl in Hfield. rewrite Hget, fold_field_None in Hfield.
  destruct (hits _ _) as [|o os]; [done|]. injection Hfield as Hfield.
  by exists o, os.
Qed.

(** ** Which runs succeed *)

Lemma for_each_ingest_parsed (obs : list observation) (st st' : merge_state)
  (o : observation) (url : string) :
  for_each ingest st obs = Ok st' → o ∈ obs → obs_url o = Some url →
  ∃ parsed, urlparse url = Ok parsed.
Proof.
  revert st. induction obs as [|o' obs IH]; intros st; simpl.
  - by intros _ ?%elem_of_nil.
  - destruct (ingest st o') as [st1|] eqn:Ho; [rewrite bind_Ok | by rewrite bind_Raise].
    intros Hrest [->|Hin]%elem_of_cons Hurl; [|by eapply IH].
    destruct st as [d now]. unfold obs_url in Hurl.
    apply ingest_inv in Ho
      as [(Hcall & _)|(url' & m & src & ps & ue & Hcall & Hcreate & _)];
      rewrite Hcall in Hurl; [done|]. injection Hurl as ->.
    apply create_url_mapping_entry_inv in Hcreate as (parsed & Hparse & _).
    by exists parsed.
Qed.

Lemma ingest_parsed (st : merge_state) (o : observation) :
  (∀ url, obs_url o = Some url → ∃ parsed, urlparse url = Ok parsed) →
  ∃ st', ingest st o = Ok st'.
Proof.
  destruct st as [d now]. rewrite ingest_unfold. unfold obs_url.
  destruct (obs_call o) as [[[[url m] src] ps]|]; [|by eexists].
  intros Hparse. destruct (Hparse url eq_refl) as [parsed Hparsed].
  rewrite (create_url_mapping_entry_parsed _ _ _ _ _ _ Hparsed), bind_Ok. by eexists.
Qed.

Lemma ingest_rejected (st : merge_state) (o : observation) (url : string) (err : exn) :
  obs_url o = Some url → urlparse url = Raise err → ingest st o = Raise err.
Proof.
  destruct st as [d now]. rewrite ingest_unfold. unfold obs_url.
  destruct (obs_call o) as [[[[url' m] src] ps]|]; [|done].
  intros [= ->] Hparse. unfold create_url_mapping_entry. by rewrite Hparse.
Qed.

Lemma for_each_ingest_parsed_all (obs : list observation) (st : merge_state) :
  (∀ o url, o ∈ obs → obs_url o = Some url → ∃ parsed, urlparse url = Ok parsed) →
  ∃ st', for_each ingest st obs = Ok st'.
Proof.
  revert st. induction obs as [|o obs IH]; intros st Hall; simpl; [by eexists|].
  destruct (ingest_parsed st o) as [st1 ->].
  - intros url. apply Hall, list_elem_of_here.
  - rewrite bind_Ok. apply IH. intros o' url Hin. apply Hall. by apply list_elem_of_further.
Qed.

(** X7: [merge_static_dynamic_data] returns a result exactly when [urlparse]
    accepts the URL of every static row, of every flow and of every
    accessible provider. *)
Theorem merge_succeeds_iff_urls_parse (now : nat) (static_results : static_results_t)
  (dynamic_results : list flow) (component_results : option (option (list provider))) :
  (∃ merged_data now',
     merge_static_dynamic_data now static_results dynamic_results component_results
       = Ok (merged_data, now'))
  ↔ ∀ o url, o ∈ observations static_results dynamic_results component_results →
             obs_url o = Some url → ∃ parsed, urlparse url = Ok parsed.
Proof.
  split.
  - intros (md & now' & (d & n & Hrun & _)%merge_static_dynamic_data_inv) o url.
    by apply (for_each_ingest_parsed _ _ _ _ _ Hrun).
  - intros Hall. rewrite merge_static_dynamic_data_fold.
    destruct (for_each_ingest_parsed_all _ ([], now) Hall) as [[d n] ->].
    rewrite bind_Ok. by eexists _, _.
Qed.

(** X8: [generate_url_map] has no handler: when [urlparse] rejects the URL of
    an observation and accepts those of the observations before it,
    [generate_url_map] raises the exception of that URL. *)
Theorem generate_url_map_raises_first_rejection (now : nat)
  (static_results : static_results_t) (dynamic_results : list flow)
  (component_results : option (option (list provider)))
  (before after : list observation) (o : observation) (url : string) (err : exn) :
  observations static_results dynamic_results component_results
    = (before ++ o :: after)%list →
  (∀ o' url', o' ∈ before → obs_url o' = Some url' → ∃ parsed, urlparse url' = Ok parsed) →
  obs_url o = Some url →
  urlparse url = Raise err →
  generate_url_map now static_results dynamic_results component_results = Raise err.
Proof.
  intros Hobs Hbefore Hurl Hparse. unfold generate_url_map.
  rewrite merge_static_dynamic_data_fold, Hobs, for_each_app.
  destruct (for_each_ingest_parsed_all _ ([], now) Hbefore) as [st1 ->].
  rewrite bind_Ok. simpl for_each. by rewrite (ingest_rejected _ _ _ _ Hurl Hparse).
Qed.

(** ** Providers that are passed over *)

Lemma obs_call_component (provider_ : provider) :
  obs_call (Component provider_) = None ↔ ¬ exposed provider_.
Proof.
  unfold exposed. simpl. destruct (default false (pv_accessible provider_)); simpl.
  - destruct (String.eqb_spec (default "" (pv_uri provider_)) "") as [->|Hne]; simpl.
    + split; [by intros _ [_ ?] | done].
    + split; [done | intros []; by split].
  - split; [by intros _ [? _] | done].
Qed.

Lemma for_each_ingest_exposed (st : merge_state) (providers : list provider) :
  for_each ingest st (Component <$> providers)
  = for_each ingest st (Component <$> filter exposed providers).
Proof.
  revert st. induction providers as [|provider_ providers IH]; intros [d now]; [done|].
  rewrite filter_cons, fmap_cons. destruct (decide (exposed provider_)) as [Hyes|Hno].
  - rewrite fmap_cons. cbn [for_each].
    destruct (ingest (d, now) (Component provider_)) as [st1|]; [|done].
    rewrite !bind_Ok. apply IH.
  - cbn [for_each]. apply obs_call_component in Hno.
    rewrite ingest_unfold, Hno, bind_Ok. apply IH.
Qed.

(** X9: providers that are not accessible, or that have no URI, leave no
    trace in the result; and a component result that is [None], that is empty
    or that has no providers gives the result of an empty list of providers. *)
Theorem providers_passed_over (now : nat) (static_results : static_results_t)
  (dynamic_results : list flow) (providers : list provider) :
  merge_static_dynamic_data now static_results dynamic_results (Some (Some providers))
  = merge_static_dynamic_data now static_results dynamic_results
      (Some (Some (filter exposed providers)))
  ∧ merge_static_dynamic_data now static_results dynamic_results None
    = merge_static_dynamic_data now static_results dynamic_results (Some (Some []))
  ∧ merge_static_dynamic_data now static_results dynamic_results (Some None)
    = merge_static_dynamic_data now static_results dynamic_results (Some (Some [])).
Proof.
  rewrite !merge_static_dynamic_data_fold. unfold observations.
  split; [|by split].
  rewrite !app_assoc, !(for_each_app _ _ (_ ++ _)%list).
  destruct (for_each ingest _ (_ ++ _)%list) as [st|]; [|done].
  by rewrite !bind_Ok, for_each_ingest_exposed.
Qed.

(** ** Counting *)

Lemma total_frequency_app (l1 l2 : list entry) :
  total_frequency (l1 ++ l2) = (total_frequency l1 + total_frequency l2)%Z.
Proof.
  unfold total_frequency. induction l1 as [|e l1 IH]; simpl; [done|]. rewrite IH. lia.
Qed.

Lemma total_frequency_alter (f : entry → entry) (k : string) (d : entries_dict)
  (existing : entry) :
  dict_get k d = Some existing →
  total_frequency (dict_values (dict_alter f k d))
  = (total_frequency (dict_values d) - frequency existing + frequency (f existing))%Z.
Proof.
  unfold dict_values. induction d as [|[k0 e0] d IH]; [done|]. cbn [dict_get dict_alter].
  destruct (String.eqb k k0).
  - intros [= ->]. rewrite !fmap_cons. unfold total_frequency. simpl. lia.
  - intros Hget. rewrite !fmap_cons. specialize (IH Hget).
    unfold total_frequency in *. simpl in *. lia.
Qed.

Lemma total_frequency_dedup (l : list entry) :
  total_frequency (dedup_entry <$> l) = total_frequency l.
Proof.
  unfold total_frequency. induction l as [|e l IH]; [done|]. rewrite fmap_cons. simpl.
  by rewrite IH.
Qed.

Lemma processed_cons (o : observation) (obs : list observation) :
  processed (o :: obs) = if decide (is_Some (obs_call o)) then o :: processed obs
                         else processed obs.
Proof. unfold processed. by rewrite filter_cons. Qed.

Lemma for_each_ingest_total_frequency (obs : list observation) (st st' : merge_state) :
  for_each ingest st obs = Ok st' →
  total_frequency (dict_values st'.1)
  = (total_frequency (dict_values st.1) + Z.of_nat (List.length (processed obs)))%Z.
Proof.
  revert st. induction obs as [|o obs IH]; intros st; simpl for_each.
  - intros [= <-]. simpl. lia.
  - destruct (ingest st o) as [st1|] eqn:Ho; [rewrite bind_Ok | by rewrite bind_Raise].
    intros Hrest. rewrite (IH _ Hrest), processed_cons. clear IH Hrest.
    destruct st as [d now].
    apply ingest_inv in Ho
      as [(Hcall & _ & ->)|(url & m & src & ps & ue & Hcall & Hcreate & _ & ->)];
      rewrite Hcall.
    + rewrite decide_False by (by intros [? ?]). done.
    + rewrite decide_True by done. cbn [fst List.length].
      destruct (frequency_spec _ _ _ _ _ _ _ Hcall Hcreate) as [Hnew Hmerge].
      unfold merge_entry. destruct (dict_get (signature ue) d) as [existing|] eqn:Hget.
      * rewrite (total_frequency_alter _ _ _ _ Hget), Hmerge. lia.
      * unfold dict_add, dict_values. rewrite fmap_app, total_frequency_app.
        unfold total_frequency at 2. simpl. rewrite Hnew. lia.
Qed.

(** X10: the frequencies of the entries of the result add up to the number of
    observations that were processed: the static rows, the flows and the
    accessible providers with a URI. *)
Theorem merged_frequencies_add_up (now now' : nat) (static_results : static_results_t)
  (dynamic_results : list flow) (component_results : option (option (list provider)))
  (merged_data : merged_data_t) :
  merge_static_dynamic_data now static_results dynamic_results component_results
    = Ok (merged_data, now') →
  total_frequency (md_entries merged_data)
  = Z.of_nat (List.length
                (processed (observations static_results dynamic_results component_results))).
Proof.
  intros (d & n & Hrun & _ & -> & _)%merge_static_dynamic_data_inv.
  rewrite total_frequency_dedup.
  apply (for_each_ingest_total_frequency _ _ _ Hrun).
Qed.

(** X11: every observation that is processed is found in the result, in the
    one entry that has its signature, with its URL among the original URLs. *)
Theorem merged_covers_observations (now now' : nat) (static_results : static_results_t)
  (dynamic_results : list flow) (component_results : option (option (list provider)))
  (merged_data : merged_data_t) (o : observation) (url : string) :
  merge_static_dynamic_data now static_results dynamic_results component_results
    = Ok (merged_data, now') →
  o ∈ observations static_results dynamic_results component_results →
  obs_url o = Some url →
  ∃ e, e ∈ md_entries merged_data
       ∧ obs_signature o = Some (signature e)
       ∧ url ∈ original_urls e
       ∧ obs_source o ∈ sources e.
Proof.
  intros (d & n & Hrun & _ & Hentries & _ & Hok)%merge_static_dynamic_data_inv Hin Hurl.
  destruct (for_each_ingest_parsed _ _ _ _ _ Hrun Hin Hurl) as [parsed Hparsed].
  assert (∃ sig, obs_signature o = Some sig) as [sig Hsig].
  { unfold obs_signature, obs_url in *.
    destruct (obs_call o) as [[[[url' m] src] ps]|]; [|done].
    injection Hurl as ->. rewrite Hparsed. by eexists. }
  assert (Hhit : o ∈ hits sig (observations static_results dynamic_results component_results))
    by by apply hits_elem.
  pose proof (for_each_ingest_field _ _ _ _ _ _ sig sources_spec Hrun) as Hsources.
  pose proof (for_each_ingest_field _ _ _ _ _ _ sig original_urls_spec Hrun) as Hurls.
  simpl in Hsources, Hurls. rewrite fold_field_None in Hsources, Hurls.
  destruct (hits _ _) as [|o1 os] eqn:Hhits; [by apply elem_of_nil in Hhit|].
  destruct (dict_get sig d) as [e0|] eqn:Hget; [|done].
  injection Hsources as Hsources. injection Hurls as Hurls.
  rewrite foldl_snoc_map in Hsources, Hurls.
  exists (dedup_entry e0). rewrite Hentries. split_and!.
  - apply list_elem_of_fmap. exists e0. split; [done|]. by eapply dict_get_values.
  - cbn [signature dedup_entry]. by rewrite (dict_ok_signature _ _ _ Hok Hget).
  - cbn [original_urls dedup_entry]. unfold list_set.
    rewrite elem_of_remove_dups, Hurls.
    change (url ∈ (λ o, default "" (obs_url o)) <$> o1 :: os).
    apply list_elem_of_fmap. exists o. by rewrite Hurl.
  - cbn [sources dedup_entry]. unfold list_set.
    rewrite elem_of_remove_dups, Hsources.
    change (obs_source o ∈ obs_source <$> o1 :: os).
    apply list_elem_of_fmap. by exists o.
Qed.

(** ** The risk level of a merged entry *)

Lemma risk_spec : field_spec risk_level (λ o level, raise_risk level o) obs_risk.
Proof. field_spec_tac; by split. Qed.

Lemma risk_fold (level : risk) (os : list observation) :
  let final := foldl raise_risk level os in
  (final = level ∨ ∃ o, o ∈ filter (λ o, is_static o = true) os ∧ final = obs_risk o)
  ∧ (risk_levels level ≤ risk_levels final)%Z
  ∧ ∀ o, o ∈ filter (λ o, is_static o = true) os →
         (risk_levels (obs_risk o) ≤ risk_levels final)%Z.
Proof.
  revert level. induction os as [|o os IH]; intros level; simpl.
  - split_and!; [by left | lia | by intros o ?%elem_of_nil].
  - destruct (IH (raise_risk level o)) as (Hfrom & Hge & Hall). rewrite filter_cons.
    assert (Hstep : (raise_risk level o = level ∧ (is_static o = true →
                       (risk_levels (obs_risk o) ≤ risk_levels level)%Z))
                    ∨ (raise_risk level o = obs_risk o ∧ is_static o = true
                       ∧ (risk_levels level ≤ risk_levels (obs_risk o))%Z)).
    { unfold raise_risk. destruct (is_static o); [|by left].
      destruct (bool_decide_reflect (risk_levels (obs_risk o) > risk_levels level)%Z).
      - right. split_and!; [done..|lia].
      - left. split; [done|]. intros _. lia. }
    destruct Hstep as [[Hsame Hle]|(Hnew & Hstatic & Hle)].
    + rewrite Hsame in *. split_and!; [|done|].
      * destruct Hfrom as [->|(o' & Hin & ->)]; [by left|]. right. exists o'.
        split; [|done]. destruct (decide _); [by apply list_elem_of_further | done].
      * intros o'. destruct (decide (is_static o = true)) as [Hstatic|]; [|by apply Hall].
        intros [->|Hin]%elem_of_cons; [|by apply Hall]. specialize (Hle Hstatic). lia.
    + rewrite Hnew in *. rewrite decide_True by done. split_and!; [|lia|].
      * right. destruct Hfrom as [->|(o' & Hin & ->)].
        -- exists o. split; [apply list_elem_of_here | done].
        -- exists o'. split; [by apply list_elem_of_further | done].
      * intros o' [->|Hin]%elem_of_cons; [done | by apply Hall].
Qed.

Lemma risk_loop_MEDIUM_truthy (url : string) (parameters_ : option (list PathParam))
  (indicators : list string) :
  risk_loop url parameters_ indicators = MEDIUM → truthy parameters_ = true.
Proof.
  induction indicators as [|indicator rest IH]; simpl; [done|].
  destruct (contains indicator (lower url)); [done|].
  destruct (truthy parameters_); [done|]. simpl. apply IH.
Qed.

Lemma obs_risk_MEDIUM (o : observation) :
  obs_risk o = MEDIUM → ∃ row, o = Static row ∧ obs_parameters o ≠ [].
Proof.
  destruct o as [row|flow_|provider_]; unfold obs_risk, obs_parameters; cbn [obs_call].
  - intros Htruthy%risk_loop_MEDIUM_truthy. exists row. split; [done|].
    by destruct (su_parameters row) as [[|]|].
  - by intros Htruthy%risk_loop_MEDIUM_truthy.
  - destruct (default false _ && negb _); [|done].
    by intros Htruthy%risk_loop_MEDIUM_truthy.
Qed.

(** X12: the risk level of an entry of the result is the highest of the levels
    of the first observation of its signature and of the static rows after
    it; the levels of later flows and providers do not count. *)
Theorem merged_risk_is_highest_static (now now' : nat)
  (static_results : static_results_t) (dynamic_results : list flow)
  (component_results : option (option (list provider))) (merged_data : merged_data_t)
  (e : entry) :
  merge_static_dynamic_data now static_results dynamic_results component_results
    = Ok (merged_data, now') →
  e ∈ md_entries merged_data →
  let counted :=
    risk_sources (hits (signature e)
                    (observations static_results dynamic_results component_results)) in
  (∃ o, o ∈ counted ∧ risk_level e = obs_risk o)
  ∧ ∀ o, o ∈ counted → (risk_levels (obs_risk o) ≤ risk_levels (risk_level e))%Z.
Proof.
  intros Hrun He.
  destruct (merged_entry_field _ _ _ _ _ _ _ _ _ _ risk_spec Hrun He)
    as (e0 & o & os & -> & Hhits & Hrisk).
  cbn [risk_level dedup_entry signature] in *. rewrite Hhits, Hrisk.
  cbn [risk_sources]. change (foldl (λ a o, raise_risk a o)) with (foldl raise_risk).
  destruct (risk_fold (obs_risk o) os) as (Hfrom & Hge & Hall). split.
  - destruct Hfrom as [->|(o' & Hin & ->)].
    + exists o. split; [apply list_elem_of_here | done].
    + exists o'. split; [by apply list_elem_of_further | done].
  - intros o' [->|Hin]%elem_of_cons; [done | by apply Hall].
Qed.

(** X13: an entry of level [MEDIUM] has parameters: the level comes from a
    parameter value of a static row, and that row's parameters are in the
    entry.  Entries made of flows and providers only are [LOW] or [HIGH]. *)
Theorem merged_MEDIUM_has_parameters (now now' : nat)
  (static_results : static_results_t) (dynamic_results : list flow)
  (component_results : option (option (list provider))) (merged_data : merged_data_t)
  (e : entry) :
  merge_static_dynamic_data now static_results dynamic_results component_results
    = Ok (merged_data, now') →
  e ∈ md_entries merged_data →
  risk_level e = MEDIUM →
  parameters e ≠ []
  ∧ ∃ row, Static row ∈ observations static_results dynamic_results component_results
           ∧ obs_signature (Static row) = Some (signature e)
           ∧ obs_risk (Static row) = MEDIUM.
Proof.
  intros Hrun He Hmedium.
  destruct (merged_entry_inv _ _ _ _ _ _ _ Hrun He) as (d & n & e0 & Hfold & -> & Hget).
  cbn [risk_level parameters dedup_entry signature] in *.
  destruct (stored_field _ _ _ _ _ _ _ _ _ risk_spec Hfold Hget) as (o & os & Hhits & Hrisk).
  destruct (stored_field _ _ _ _ _ _ _ _ _ parameters_spec Hfold Hget)
    as (o_ & os_ & Hhits_ & Hparameters).
  rewrite Hhits in Hhits_. injection Hhits_ as <- <-.
  change (foldl (λ a o, raise_risk a o)) with (foldl raise_risk) in Hrisk.
  destruct (risk_fold (obs_risk o) os) as (Hfrom & _ & _).
  assert (∃ o', o' ∈ o :: os ∧ obs_risk o' = MEDIUM) as (o' & Hin & Ho').
  { destruct Hfrom as [Heq|(o' & [_ Hin]%list_elem_of_filter & Heq)].
    - exists o. split; [apply list_elem_of_here | congruence].
    - exists o'. split; [by apply list_elem_of_further | congruence]. }
  destruct (obs_risk_MEDIUM _ Ho') as (row & -> & Hne). split.
  - rewrite Hparameters, foldl_app_concat.
    change (obs_parameters o ++ List.concat (obs_parameters <$> os))%list
      with (List.concat (obs_parameters <$> o :: os)).
    intros Hnil. apply Hne. clear -Hin Hnil.
    induction (o :: os) as [|o1 l IH]; [by apply elem_of_nil in Hin|].
    rewrite fmap_cons in Hnil. simpl in Hnil. apply app_eq_nil in Hnil as [H1 H2].
    apply elem_of_cons in Hin as [<-|Hin]; [done | by apply IH].
  - exists row. rewrite <- Hhits in Hin. apply hits_elem in Hin as [Hin Hsig]. by split_and!.
Qed.

(** ** Time stamps *)

Lemma clock_le (n m : nat) : monotone_clock → (n ≤ m)%nat → (clock n ≤ clock m)%Z.
Proof.
  intros Hmono Hle. induction Hle as [|m Hle IH]; [lia|]. specialize (Hmono m). lia.
Qed.

Lemma Forall_dict_alter (P Q : entry → Prop) (f : entry → entry) (k : string)
  (d : entries_dict) :
  (∀ e, P e → Q e) → (∀ e, P e → Q (f e)) →
  Forall P (dict_values d) → Forall Q (dict_values (dict_alter f k d)).
Proof.
  intros Hweaken Hf. unfold dict_values.
  induction d as [|[k0 e0] d IH]; [done|]. cbn [dict_alter]. rewrite fmap_cons.
  intros [H0 Hd]%Forall_cons. simpl in H0.
  destruct (String.eqb k k0); rewrite fmap_cons; constructor; simpl; auto.
  by apply Forall_impl with P.
Qed.

Lemma ingest_seen_by (st st' : merge_state) (o : observation) :
  monotone_clock → ingest st o = Ok st' →
  Forall (seen_by st.2) (dict_values st.1) → Forall (seen_by st'.2) (dict_values st'.1).
Proof.
  intros Hmono Ho Hseen. destruct st as [d now].
  apply ingest_inv in Ho
    as [(_ & _ & ->)|(url & m & src & ps & ue & Hcall & Hcreate & _ & ->)]; [done|].
  cbn [fst snd] in *.
  apply create_url_mapping_entry_inv in Hcreate as (parsed & _ & Hue).
  assert (Hfirst : first_seen ue = clock now) by by rewrite Hue.
  assert (Hlast : last_seen ue = clock (S now)) by by rewrite Hue.
  pose proof (Hmono now). pose proof (Hmono (S now)).
  assert (Hweaken : ∀ e, seen_by now e → seen_by (S (S now)) e).
  { intros e [? ?]. split; lia. }
  unfold merge_entry. destruct (dict_get (signature ue) d).
  - apply Forall_dict_alter with (seen_by now); [done| |done].
    intros existing [? ?].
    assert (first_seen (obs_merge o ue existing) = first_seen existing
            ∧ last_seen (obs_merge o ue existing)
              = Z.max (last_seen existing) (last_seen ue)) as [Hf Hl]
      by by destruct o.
    unfold seen_by. rewrite Hf, Hl, Hlast. lia.
  - unfold dict_add, dict_values. rewrite fmap_app. apply Forall_app. split.
    + by apply Forall_impl with (seen_by now).
    + repeat constructor; simpl; lia.
Qed.

Lemma for_each_ingest_seen_by (obs : list observation) (st st' : merge_state) :
  monotone_clock → for_each ingest st obs = Ok st' →
  Forall (seen_by st.2) (dict_values st.1) → Forall (seen_by st'.2) (dict_values st'.1).
Proof.
  intros Hmono. revert st. induction obs as [|o obs IH]; intros st; simpl.
  - by intros [= <-].
  - destruct (ingest st o) as [st1|] eqn:Ho; [rewrite bind_Ok | by rewrite bind_Raise].
    intros Hrest Hseen. apply (IH _ Hrest). by apply (ingest_seen_by _ _ _ Hmono Ho).
Qed.

(** X14: when the clock does not go back, every entry of the result was first
    seen no later than it was last seen, and last seen no later than the time
    stamp of the result. *)
Theorem merged_timestamps_ordered (now now' : nat) (static_results : static_results_t)
  (dynamic_results : list flow) (component_results : option (option (list provider)))
  (merged_data : merged_data_t) (e : entry) :
  monotone_clock →
  merge_static_dynamic_data now static_results dynamic_results component_results
    = Ok (merged_data, now') →
  e ∈ md_entries merged_data →
  (first_seen e ≤ last_seen e)%Z ∧ (last_seen e ≤ md_timestamp merged_data)%Z.
Proof.
  intros Hmono (d & n & Hrun & _ & -> & -> & _)%merge_static_dynamic_data_inv
         (e0 & -> & Hin)%list_elem_of_fmap.
  pose proof (for_each_ingest_seen_by _ _ _ Hmono Hrun (Forall_nil_2 _)) as Hseen.
  cbn [fst snd] in Hseen. rewrite Forall_forall in Hseen.
  apply (Hseen e0 Hin).
Qed.

(** ** The statistics of [generate_url_map] *)

Lemma count_up_lookup (d : gmap string nat) (k k' : string) :
  count_up d k' !! k = if decide (k = k') then Some (S (default 0 (d !! k))) else d !! k.
Proof.
  unfold count_up. destruct (decide (k = k')) as [->|Hne].
  - by rewrite lookup_insert_eq.
  - by rewrite lookup_insert_ne.
Qed.

Lemma foldl_count_up (keys : list string) (d : gmap string nat) (k : string) :
  default 0 (foldl count_up d keys !! k)
  = (default 0 (d !! k) + List.length (filter (λ k', k' = k) keys))%nat
  ∧ (foldl count_up d keys !! k = Some 0 → d !! k = Some 0).
Proof.
  revert d. induction keys as [|k' keys IH]; intros d; simpl foldl.
  - split; [simpl; lia | done].
  - destruct (IH (count_up d k')) as [Hcount Hzero]. rewrite Hcount, filter_cons.
    rewrite count_up_lookup in Hcount, Hzero |- *.
    destruct (decide (k = k')) as [->|Hne].
    + rewrite decide_True by done. split; [simpl; lia|]. intros H0. by apply Hzero in H0.
    + rewrite decide_False by done. done.
Qed.

Lemma foldl_count_up_key (key : entry → string) (entries : list entry)
  (d : gmap string nat) :
  foldl (λ d e, count_up d (key e)) d entries = foldl count_up d (key <$> entries).
Proof. revert d. induction entries as [|e l IH]; intros d; [done|]. apply IH. Qed.

Lemma foldl_count_up_sources (entries : list entry) (d : gmap string nat) :
  foldl (λ d e, foldl count_up d (sources e)) d entries
  = foldl count_up d (List.concat (sources <$> entries)).
Proof.
  revert d. induction entries as [|e l IH]; intros d; [done|].
  rewrite fmap_cons. simpl. by rewrite foldl_app, IH.
Qed.

Lemma count_by_fmap (key : entry → string) (k : string) (entries : list entry) :
  List.length (filter (λ k', k' = k) (key <$> entries)) = count_by key k entries.
Proof.
  unfold count_by. induction entries as [|e l IH]; [done|].
  rewrite fmap_cons, !filter_cons. destruct (decide (key e = k)); simpl; by rewrite IH.
Qed.

Lemma count_NoDup (k : string) (l : list string) :
  NoDup l → List.length (filter (λ k', k' = k) l) = if decide (k ∈ l) then 1 else 0.
Proof.
  induction 1 as [|x l Hx Hl IH]; [done|]. rewrite filter_cons.
  destruct (decide (x = k)) as [->|Hne].
  - rewrite decide_True by apply list_elem_of_here. simpl. rewrite IH.
    by rewrite decide_False.
  - rewrite IH. destruct (decide (k ∈ l)) as [Hin|Hout].
    + rewrite decide_True by by apply list_elem_of_further. done.
    + rewrite decide_False; [done|]. intros [->|?]%elem_of_cons; done.
Qed.

Lemma count_source_concat (k : string) (entries : list entry) :
  Forall (λ e, NoDup (sources e)) entries →
  List.length (filter (λ k', k' = k) (List.concat (sources <$> entries)))
  = count_source k entries.
Proof.
  unfold count_source. induction 1 as [|e l He Hl IH]; [done|].
  rewrite fmap_cons. simpl List.concat. rewrite filter_app, length_app, IH, filter_cons.
  rewrite (count_NoDup _ _ He). destruct (decide (k ∈ sources e)); simpl; lia.
Qed.

Lemma count_by_risk (entries : list entry) :
  (count_by (risk_name ∘ risk_level) "LOW" entries
   + count_by (risk_name ∘ risk_level) "MEDIUM" entries
   + count_by (risk_name ∘ risk_level) "HIGH" entries)%nat
  = List.length entries.
Proof.
  unfold count_by. induction entries as [|e l IH]; [done|].
  rewrite !filter_cons.
  destruct (decide ((risk_name ∘ risk_level) e = "LOW")) as [H1|H1],
           (decide ((risk_name ∘ risk_level) e = "MEDIUM")) as [H2|H2],
           (decide ((risk_name ∘ risk_level) e = "HIGH")) as [H3|H3];
    unfold compose in H1, H2, H3; destruct (risk_level e); simpl in H1, H2, H3;
    try done; cbn [List.length]; lia.
Qed.

Lemma generate_url_map_inv (now : nat) (static_results : static_results_t)
  (dynamic_results : list flow) (component_results : option (option (list provider)))
  (url_map : url_map_t) :
  generate_url_map now static_results dynamic_results component_results = Ok url_map →
  ∃ merged_data now',
    merge_static_dynamic_data now static_results dynamic_results component_results
      = Ok (merged_data, now')
    ∧ um_entries url_map = Some (md_entries merged_data)
    ∧ total_entries (um_metadata url_map) = List.length (md_entries merged_data)
    ∧ risk_distribution (um_metadata url_map)
      = foldl count_up ∅ ((risk_name ∘ risk_level) <$> md_entries merged_data)
    ∧ method_distribution (um_metadata url_map)
      = foldl count_up ∅ (method <$> md_entries merged_data)
    ∧ source_distribution (um_metadata url_map)
      = foldl count_up ∅ (List.concat (sources <$> md_entries merged_data))
    ∧ generated_at (um_metadata url_map) = clock now'.
Proof.
  unfold generate_url_map.
  destruct (merge_static_dynamic_data _ _ _ _) as [[md now']|]; [rewrite bind_Ok | done].
  intros [= <-]. exists md, now'. cbn.
  by rewrite <- !foldl_count_up_key, <- foldl_count_up_sources.
Qed.

(** X15: in the metadata of the URL map, [total_entries] is the number of
    entries, [risk_distribution] gives for each level the number of entries
    of that level, with no key for a level that no entry has, and the three
    counts add up to [total_entries]. *)
Theorem risk_distribution_counts_entries (now : nat) (static_results : static_results_t)
  (dynamic_results : list flow) (component_results : option (option (list provider)))
  (url_map : url_map_t) :
  generate_url_map now static_results dynamic_results component_results = Ok url_map →
  let entries := default [] (um_entries url_map) in
  let counts := risk_distribution (um_metadata url_map) in
  total_entries (um_metadata url_map) = List.length entries
  ∧ (∀ k, default 0 (counts !! k) = count_by (risk_name ∘ risk_level) k entries
          ∧ counts !! k ≠ Some 0)
  ∧ (default 0 (counts !! "LOW") + default 0 (counts !! "MEDIUM")
     + default 0 (counts !! "HIGH"))%nat = total_entries (um_metadata url_map).
Proof.
  intros (md & now' & _ & -> & -> & Hrisk & _)%generate_url_map_inv entries counts.
  subst entries counts. rewrite Hrisk. cbn [default from_option id].
  assert (Hcount : ∀ k, default 0
                     (foldl count_up ∅ ((risk_name ∘ risk_level) <$> md_entries md) !! k)
                   = count_by (risk_name ∘ risk_level) k (md_entries md)).
  { intros k. rewrite (proj1 (foldl_count_up _ _ _)), count_by_fmap.
    by rewrite lookup_empty. }
  split_and!; [done| |].
  - intros k. split; [apply Hcount|].
    intros Hzero%foldl_count_up. by rewrite lookup_empty in Hzero.
  - rewrite !Hcount. apply count_by_risk.
Qed.

(** X16: [method_distribution] gives for each method the number of entries
    that have it, and [source_distribution] gives for each source the number
    of entries that list it; a method or a source that no entry has is not a
    key. *)
Theorem method_and_source_distribution_count_entries (now : nat)
  (static_results : static_results_t) (dynamic_results : list flow)
  (component_results : option (option (list provider))) (url_map : url_map_t) :
  generate_url_map now static_results dynamic_results component_results = Ok url_map →
  let entries := default [] (um_entries url_map) in
  ∀ k,
    default 0 (method_distribution (um_metadata url_map) !! k) = count_by method k entries
    ∧ method_distribution (um_metadata url_map) !! k ≠ Some 0
    ∧ default 0 (source_distribution (um_metadata url_map) !! k) = count_source k entries
    ∧ source_distribution (um_metadata url_map) !! k ≠ Some 0.
Proof.
  intros (md & now' & Hrun & -> & _ & _ & -> & -> & _)%generate_url_map_inv entries k.
  subst entries. cbn [default from_option id]. split_and!.
  - rewrite (proj1 (foldl_count_up _ _ _)), count_by_fmap. by rewrite lookup_empty.
  - intros Hzero%foldl_count_up. by rewrite lookup_empty in Hzero.
  - rewrite (proj1 (foldl_count_up _ _ _)), lookup_empty. simpl.
    apply count_source_concat. apply Forall_forall. intros e He.
    destruct (merged_entry_inv _ _ _ _ _ _ _ Hrun He) as (_ & _ & e0 & _ & -> & _).
    apply NoDup_remove_dups.
  - intros Hzero%foldl_count_up. by rewrite lookup_empty in Hzero.
Qed.

(** ** Comparing URL maps *)

(** X17: the three lists of a comparison have no signature in common, the
    added and the unchanged signatures are together the signatures of the new
    map, the removed and the unchanged ones those of the old map, and
    exchanging the two maps exchanges added and removed. *)
Theorem compare_url_maps_partition (old_map new_map : url_map_t) :
  let r := compare_url_maps old_map new_map in
  let r' := compare_url_maps new_map old_map in
  (∀ sig, ¬ (sig ∈ added r ∧ sig ∈ removed r)
          ∧ ¬ (sig ∈ added r ∧ sig ∈ unchanged r)
          ∧ ¬ (sig ∈ removed r ∧ sig ∈ unchanged r))
  ∧ (added_count r + unchanged_count r)%nat = size (signatures_of new_map)
  ∧ (removed_count r + unchanged_count r)%nat = size (signatures_of old_map)
  ∧ added r' = removed r ∧ removed r' = added r ∧ unchanged r' = unchanged r
  ∧ added_count r' = removed_count r ∧ removed_count r' = added_count r
  ∧ unchanged_count r' = unchanged_count r.
Proof.
  intros r r'. subst r r'. cbn [compare_url_maps added removed unchanged added_count
                                removed_count unchanged_count].
  set (old := signatures_of old_map). set (new := signatures_of new_map).
  assert (Hcomm : new ∩ old = old ∩ new) by apply (comm_L (∩)).
  split_and!; try done; try by rewrite Hcomm.
  - intros sig. rewrite !elem_of_elements, !elem_of_difference, elem_of_intersection.
    split_and!; intros [[? ?] [? ?]]; done.
  - rewrite <- size_union by apply disjoint_difference_l1, intersection_subseteq_l.
    f_equal. apply set_eq. intros sig.
    rewrite elem_of_union, elem_of_difference, elem_of_intersection.
    destruct (decide (sig ∈ old)); split;
      [intros [[? ?]|[? ?]]; done | intros ?; by right
      | intros [[? ?]|[? ?]]; done | intros ?; by left].
  - rewrite <- size_union by apply disjoint_difference_l1, intersection_subseteq_r.
    f_equal. apply set_eq. intros sig.
    rewrite elem_of_union, elem_of_difference, elem_of_intersection.
    destruct (decide (sig ∈ new)); split;
      [intros [[? ?]|[? ?]]; done | intros ?; by right
      | intros [[? ?]|[? ?]]; done | intros ?; by left].
Qed.

(** X18: a URL map that [generate_url_map] returned, compared with itself,
    has as many unchanged signatures as it has entries. *)
Theorem generated_map_compared_with_itself (now : nat) (static_results : static_results_t)
  (dynamic_results : list flow) (component_results : option (option (list provider)))
  (url_map : url_map_t) :
  generate_url_map now static_results dynamic_results component_results = Ok url_map →
  unchanged_count (compare_url_maps url_map url_map) = total_entries (um_metadata url_map)
  ∧ added_count (compare_url_maps url_map url_map) = 0
  ∧ removed_count (compare_url_maps url_map url_map) = 0.
Proof.
  intros (md & now' & (d & n & _ & _ & Hentries & _ & Hok)%merge_static_dynamic_data_inv
          & Hum & Htotal & _)%generate_url_map_inv.
  split_and!.
  - simpl. rewrite (idemp_L (∩)). unfold signatures_of.
    rewrite Hum, Htotal. cbn [default from_option id].
    rewrite size_list_to_set, length_fmap; [done|].
    rewrite Hentries, (signatures_of_values _ Hok). apply Hok.
  - simpl. by rewrite difference_diag_L, size_empty.
  - simpl. by rewrite difference_diag_L, size_empty.
Qed.

(** ** Deduplication *)

Lemma mapM_Forall2 {A B} (f : A → result B) (l : list A) (k : list B) :
  mapM f l = Ok k → Forall2 (λ x y, f x = Ok y) l k.
Proof.
  revert k. induction l as [|x l IH]; intros k; simpl.
  - intros [= <-]. constructor.
  - destruct (f x) as [y|] eqn:Hy; [rewrite bind_Ok | by rewrite bind_Raise].
    destruct (mapM f l) as [k'|]; [rewrite bind_Ok | by rewrite bind_Raise].
    intros [= <-]. constructor; [done|]. by apply IH.
Qed.

(** A loop that collects results returns when each call does. *)
Lemma mapM_returns {A B} (f : A → result B) (l : list A) :
  (∃ k, mapM f l = Ok k) ↔ ∀ x, x ∈ l → ∃ y, f x = Ok y.
Proof.
  induction l as [|x l IH]; simpl.
  - split; [by intros _ x ?%elem_of_nil | intros _; by exists []].
  - split.
    + intros [k Hk] x'. destruct (f x) as [y|] eqn:Hy; [|by rewrite bind_Raise in Hk].
      rewrite bind_Ok in Hk.
      destruct (mapM f l) as [k'|] eqn:Hk'; [|by rewrite bind_Raise in Hk].
      intros [->|Hin]%elem_of_cons; [by exists y|]. apply IH; [by exists k' | done].
    + intros Hall. destruct (Hall x (list_elem_of_here _ _)) as [y ->].
      destruct (proj2 IH) as [k ->].
      * intros x' Hin. apply Hall. by apply list_elem_of_further.
      * rewrite !bind_Ok. by eexists.
Qed.

(** [normalize_url] and [extract_path_parameters] return unless the message
    for a URL that [urlparse] rejects cannot be printed. *)
Lemma normalize_url_returns (url : string) :
  (∃ normalized, normalize_url url = Ok normalized)
  ↔ ∀ e, urlparse url = Raise e → print (normalize_error url e) = Ok tt.
Proof.
  destruct (urlparse url) as [parsed|e] eqn:Hparse.
  - split; [done|]. intros _. by eapply normalize_url_accepted.
  - split.
    + intros [normalized Hn] e' [= <-]. by destruct (normalize_url_rejected _ _ _ Hparse Hn).
    + intros Hprint. exists url. apply normalize_url_printed with e; [done|]. by apply Hprint.
Qed.

Lemma extract_path_parameters_returns (url : string) :
  (∃ r, extract_path_parameters url = Ok r)
  ↔ ∀ e, urlparse url = Raise e → print (extract_error url e) = Ok tt.
Proof.
  destruct (urlparse url) as [parsed|e] eqn:Hparse.
  - split; [done|]. intros _. by eapply extract_path_parameters_accepted.
  - split.
    + intros [r Hr] e' [= <-]. by destruct (extract_path_parameters_rejected _ _ _ Hparse Hr).
    + intros Hprint. exists (url, []).
      apply extract_path_parameters_printed with e; [done|]. by apply Hprint.
Qed.

Lemma list_set_length (l : list string) : (List.length (list_set l) ≤ List.length l)%nat.
Proof.
  unfold list_set. induction l as [|x l IH]; simpl; [done|].
  destruct (decide_rel elem_of x l); simpl; lia.
Qed.

Lemma deduplicate_urls_inv (urls unique_urls : list string) :
  deduplicate_urls urls = Ok unique_urls →
  NoDup unique_urls
  ∧ (∀ normalized, normalized ∈ unique_urls
                   ↔ ∃ url, url ∈ urls ∧ normalize_url url = Ok normalized)
  ∧ (List.length unique_urls ≤ List.length urls)%nat
  ∧ ∀ url, url ∈ urls → ∃ normalized, normalize_url url = Ok normalized.
Proof.
  unfold deduplicate_urls.
  destruct (mapM normalize_url urls) as [k|] eqn:Hk; [rewrite bind_Ok | by rewrite bind_Raise].
  intros [= <-]. pose proof (mapM_Forall2 _ _ _ Hk) as Hall. split_and!.
  - apply NoDup_remove_dups.
  - intros normalized. unfold list_set. rewrite elem_of_remove_dups.
    clear -Hall. induction Hall as [|url y urls k Hy Hall IH].
    + split; [by intros ?%elem_of_nil | by intros (? & ?%elem_of_nil & _)].
    + rewrite elem_of_cons, IH. split.
      * intros [->|(url' & Hin & Hurl')].
        -- exists url. split; [apply list_elem_of_here | done].
        -- exists url'. split; [by apply list_elem_of_further | done].
      * intros (url' & [->|Hin]%elem_of_cons & Hurl').
        -- left. congruence.
        -- right. by exists url'.
  - rewrite (Forall2_length _ _ _ Hall). apply list_set_length.
  - apply mapM_returns. by exists k.
Qed.

Lemma deduplicate_urls_returns (urls : list string) :
  (∃ unique_urls, deduplicate_urls urls = Ok unique_urls)
  ↔ ∀ url, url ∈ urls → ∃ normalized, normalize_url url = Ok normalized.
Proof.
  split.
  - intros [unique_urls Hrun]. by apply (deduplicate_urls_inv _ _ Hrun).
  - intros [k Hk]%mapM_returns. unfold deduplicate_urls. rewrite Hk, bind_Ok. by eexists.
Qed.

(** X19: what [deduplicate_urls] returns has no repetition, is made of
    exactly the strings that [normalize_url] gives for the URLs of its
    argument, and is no longer than the argument.  [deduplicate_urls] returns
    unless, for some URL that [urlparse] rejects, the message of the handler
    of [normalize_url] cannot be printed; then it raises. *)
Theorem deduplicate_urls_normal_forms (urls : list string) :
  (∀ unique_urls,
     deduplicate_urls urls = Ok unique_urls →
     NoDup unique_urls
     ∧ (∀ normalized, normalized ∈ unique_urls
                      ↔ ∃ url, url ∈ urls ∧ normalize_url url = Ok normalized)
     ∧ (List.length unique_urls ≤ List.length urls)%nat)
  ∧ ((∃ unique_urls, deduplicate_urls urls = Ok unique_urls)
     ↔ ∀ url e, url ∈ urls → urlparse url = Raise e →
                print (normalize_error url e) = Ok tt).
Proof.
  split.
  - intros unique_urls (Hnodup & Helem & Hlength & _)%deduplicate_urls_inv. by split_and!.
  - rewrite deduplicate_urls_returns. split.
    + intros Hall url e Hin. by apply normalize_url_returns, Hall.
    + intros Hall url Hin. apply normalize_url_returns. intros e. by apply Hall.
Qed.

(** X20: two URLs with a host, and without brackets, semicolon or params,
    have the same normal form, and are one URL after deduplication, exactly
    when they have the same components once scheme and host are in lower
    case, the trailing dots of the host are removed and the trailing slashes
    of the path are removed. *)
Theorem normalize_url_same_iff_same_components (url1 url2 : string)
  (parsed1 parsed2 : ParseResult) :
  urlparse url1 = Ok parsed1 →
  urlparse url2 = Ok parsed2 →
  hosted (normalize_components parsed1) = true →
  hosted (normalize_components parsed2) = true →
  normalize_url url1 = normalize_url url2
  ↔ normalize_components parsed1 = normalize_components parsed2.
Proof.
  intros Hparse1 Hparse2 Hhosted1 Hhosted2.
  rewrite (normalize_url_parsed _ _ Hparse1), (normalize_url_parsed _ _ Hparse2).
  split; [|by intros ->]. intros [= Hsame].
  pose proof (urlparse_unparse_hosted _ Hhosted1) as H1.
  pose proof (urlparse_unparse_hosted _ Hhosted2) as H2.
  rewrite Hsame in H1. congruence.
Qed.

(** ** The merged static results *)

Lemma str_in_list_elem (x : string) (l : list string) :
  str_in_list x l = true ↔ x ∈ l.
Proof.
  unfold str_in_list. induction l as [|y l IH]; simpl.
  - split; [done | by intros ?%elem_of_nil].
  - rewrite elem_of_cons, orb_true_iff, IH, String.eqb_eq. done.
Qed.

Lemma Forall2_elem_l {A B} (R : A → B → Prop) (l : list A) (k : list B) (x : A) :
  Forall2 R l k → x ∈ l → ∃ y, y ∈ k ∧ R x y.
Proof.
  induction 1 as [|x' y l k Hxy _ IH]; [by intros ?%elem_of_nil|].
  intros [->|Hin]%elem_of_cons.
  - exists y. split; [apply list_elem_of_here | done].
  - destruct (IH Hin) as (y' & Hin' & Hy'). exists y'.
    split; [by apply list_elem_of_further | done].
Qed.

(** The row that the loop of [merge_static_results] makes of a normal form. *)
Lemma row_of_extracted (jadx_results apkleaks_results mobsf_results : tool_results_t)
  (url : string) (row : static_url) :
  ('(normalized_url, parameters) ← extract_path_parameters url;
   Ok {| su_url := Some normalized_url;
         su_original_url := url;
         su_parameters := Some parameters;
         su_sources :=
           reporting_tools jadx_results apkleaks_results mobsf_results url |}) = Ok row →
  row_of jadx_results apkleaks_results mobsf_results url row.
Proof.
  destruct (extract_path_parameters url) as [[nurl ps]|] eqn:Hextract;
    [rewrite bind_Ok | by rewrite bind_Raise].
  intros [= <-]. split_and!; [done..|]. by exists nurl, ps.
Qed.

Lemma merge_static_results_inv (jadx_results apkleaks_results mobsf_results : tool_results_t)
  (merged : static_results_t) :
  merge_static_results jadx_results apkleaks_results mobsf_results = Ok merged →
  ∃ unique_urls rows,
    deduplicate_urls (all_urls jadx_results apkleaks_results mobsf_results) = Ok unique_urls
    ∧ Forall2 (row_of jadx_results apkleaks_results mobsf_results) unique_urls rows
    ∧ merged
      = {| sr_urls := Some rows;
           sr_domains :=
             Some (list_set (default [] (tr_domains jadx_results)
                             ++ default [] (tr_domains apkleaks_results)
                             ++ default [] (tr_domains mobsf_results)));
           sr_endpoints :=
             Some (list_set (default [] (tr_endpoints jadx_results)
                             ++ default [] (tr_endpoints apkleaks_results)
                             ++ default [] (tr_endpoints mobsf_results)));
           sr_secrets := Some (default [] (tr_secrets apkleaks_results));
           sr_permissions := Some (default [] (tr_permissions mobsf_results));
           sr_certificates := Some (default [] (tr_certificates mobsf_results)) |}.
Proof.
  unfold merge_static_results. fold (all_urls jadx_results apkleaks_results mobsf_results).
  destruct (deduplicate_urls _) as [unique_urls|] eqn:Hdedup;
    [rewrite bind_Ok | by rewrite bind_Raise].
  match goal with
  | |- context [mapM ?f unique_urls] => destruct (mapM f unique_urls) as [rows|] eqn:Hrows
  end; [rewrite bind_Ok | by rewrite bind_Raise].
  intros [= <-]. exists unique_urls, rows. split_and!; [done| |done].
  apply mapM_Forall2 in Hrows. eapply Forall2_impl; [exact Hrows|].
  intros url row. apply row_of_extracted.
Qed.

Lemma merge_static_results_returns
  (jadx_results apkleaks_results mobsf_results : tool_results_t) :
  (∃ merged, merge_static_results jadx_results apkleaks_results mobsf_results = Ok merged)
  ↔ ∀ url, url ∈ all_urls jadx_results apkleaks_results mobsf_results →
           ∃ normalized, normalize_url url = Ok normalized
                         ∧ ∃ r, extract_path_parameters normalized = Ok r.
Proof.
  split.
  - intros [merged (unique_urls & rows & Hdedup & Hrows & _)%merge_static_results_inv]
           url Hin.
    destruct (deduplicate_urls_inv _ _ Hdedup) as (_ & Helem & _ & Hall).
    destruct (Hall url Hin) as [normalized Hn]. exists normalized. split; [done|].
    assert (Hunique : normalized ∈ unique_urls) by (apply Helem; by exists url).
    destruct (Forall2_elem_l _ _ _ _ Hrows Hunique)
      as (row & _ & _ & _ & nurl & ps & Hextract & _).
    by eexists.
  - intros Hall.
    destruct (proj2 (deduplicate_urls_returns
                       (all_urls jadx_results apkleaks_results mobsf_results)))
      as [unique_urls Hdedup].
    { intros url Hin. destruct (Hall url Hin) as (normalized & Hn & _). by exists normalized. }
    unfold merge_static_results.
    fold (all_urls jadx_results apkleaks_results mobsf_results). rewrite Hdedup, bind_Ok.
    match goal with
    | |- context [mapM ?f unique_urls] => destruct (proj2 (mapM_returns f unique_urls))
                                            as [rows ->]
    end; [|rewrite bind_Ok; by eexists].
    intros normalized Hunique.
    apply (deduplicate_urls_inv _ _ Hdedup) in Hunique as (url & Hin & Hn).
    destruct (Hall url Hin) as (normalized' & Hn' & [nurl ps] & Hextract).
    assert (normalized' = normalized) as -> by congruence.
    rewrite Hextract, bind_Ok. by eexists.
Qed.

(** X21: what [merge_static_results] returns has one row for each distinct
    normal form of the URLs of the three tools; the row holds that normal
    form as [original_url] and what [extract_path_parameters] makes of it as
    [url] and [parameters].  [merge_static_results] returns when
    [normalize_url] returns for each URL and [extract_path_parameters] for
    its normal form, that is unless a message of their handlers cannot be
    printed; otherwise it raises. *)
Theorem merge_static_results_rows
  (jadx_results apkleaks_results mobsf_results : tool_results_t) :
  (∀ merged,
     merge_static_results jadx_results apkleaks_results mobsf_results = Ok merged →
     ∃ rows,
       sr_urls merged = Some rows
       ∧ NoDup (su_original_url <$> rows)
       ∧ (∀ normalized,
            normalized ∈ su_original_url <$> rows
            ↔ ∃ url, url ∈ all_urls jadx_results apkleaks_results mobsf_results
                     ∧ normalize_url url = Ok normalized)
       ∧ ∀ row, row ∈ rows →
                ∃ normalized_url parameters_,
                  extract_path_parameters (su_original_url row)
                    = Ok (normalized_url, parameters_)
                  ∧ su_url row = Some normalized_url
                  ∧ su_parameters row = Some parameters_)
  ∧ ((∃ merged,
        merge_static_results jadx_results apkleaks_results mobsf_results = Ok merged)
     ↔ ∀ url, url ∈ all_urls jadx_results apkleaks_results mobsf_results →
              ∃ normalized,
                normalize_url url = Ok normalized
                ∧ (∀ e, urlparse url = Raise e → print (normalize_error url e) = Ok tt)
                ∧ ∀ e, urlparse normalized = Raise e →
                       print (extract_error normalized e) = Ok tt).
Proof.
  split.
  - intros merged (unique_urls & rows & Hdedup & Hrows & ->)%merge_static_results_inv.
    destruct (deduplicate_urls_inv _ _ Hdedup) as (Hnodup & Helem & _).
    assert (Horiginal : su_original_url <$> rows = unique_urls).
    { clear -Hrows. induction Hrows as [|url row urls rows [Hrow _] _ IH]; [done|].
      rewrite fmap_cons. by rewrite Hrow, IH. }
    exists rows. split_and!; [done | by rewrite Horiginal | |].
    + intros normalized. by rewrite Horiginal.
    + intros row Hin. clear -Hrows Hin.
      induction Hrows as [|url row' urls rows (Horig & _ & Hextract) _ IH];
        [by apply elem_of_nil in Hin|].
      apply elem_of_cons in Hin as [->|Hin]; [|by apply IH]. by rewrite Horig.
  - rewrite merge_static_results_returns. split.
    + intros Hall url Hin. destruct (Hall url Hin) as (normalized & Hn & Hr).
      exists normalized. split_and!; [done| |].
      * apply normalize_url_returns. by exists normalized.
      * by apply extract_path_parameters_returns.
    + intros Hall url Hin. destruct (Hall url Hin) as (normalized & Hn & _ & Hr).
      exists normalized. split; [done|]. by apply extract_path_parameters_returns.
Qed.

Lemma tools_listed (by_jadx by_apkleaks by_mobsf : bool) :
  let tools := ((if by_jadx then ["jadx"] else [])
                ++ (if by_apkleaks then ["apkleaks"] else [])
                ++ (if by_mobsf then ["mobsf"] else []))%list in
  ("jadx" ∈ tools ↔ by_jadx = true)
  ∧ ("apkleaks" ∈ tools ↔ by_apkleaks = true)
  ∧ ("mobsf" ∈ tools ↔ by_mobsf = true)
  ∧ (tools = [] ↔ ¬ (by_jadx = true ∨ by_apkleaks = true ∨ by_mobsf = true)).
Proof.
  intros tools. subst tools. rewrite <- !str_in_list_elem.
  destruct by_jadx, by_apkleaks, by_mobsf; simpl;
    (split_and!; split; try done; try (intros Hnone; exfalso; apply Hnone; auto);
     try (intros _ [?|[?|?]]; done)).
Qed.

(** X22: the sources of a row of the merged static results are, in the order
    [jadx], [apkleaks], [mobsf], the tools that reported the row's normal
    form verbatim.  A row made from URLs that normalisation changed, and
    whose normal form no tool reported, has no source. *)
Theorem merge_static_results_sources
  (jadx_results apkleaks_results mobsf_results : tool_results_t)
  (merged : static_results_t) (row : static_url) :
  merge_static_results jadx_results apkleaks_results mobsf_results = Ok merged →
  row ∈ default [] (sr_urls merged) →
  su_sources row
    = reporting_tools jadx_results apkleaks_results mobsf_results (su_original_url row)
  ∧ ("jadx" ∈ su_sources row ↔ su_original_url row ∈ default [] (tr_urls jadx_results))
  ∧ ("apkleaks" ∈ su_sources row
     ↔ su_original_url row ∈ default [] (tr_urls apkleaks_results))
  ∧ ("mobsf" ∈ su_sources row ↔ su_original_url row ∈ default [] (tr_urls mobsf_results))
  ∧ (su_sources row = []
     ↔ su_original_url row ∉ all_urls jadx_results apkleaks_results mobsf_results).
Proof.
  intros (unique_urls & rows & _ & Hrows & ->)%merge_static_results_inv Hin.
  cbn [sr_urls default from_option id] in Hin.
  assert (Hrow : su_sources row
                 = reporting_tools jadx_results apkleaks_results mobsf_results
                     (su_original_url row)).
  { clear -Hrows Hin.
    induction Hrows as [|url row' urls rows (Horig & Hsources & _) _ IH];
      [by apply elem_of_nil in Hin|].
    apply elem_of_cons in Hin as [->|Hin]; [|by apply IH]. by rewrite Horig. }
  split; [done|]. rewrite Hrow. unfold reporting_tools, elem_b.
  destruct (tools_listed
              (str_in_list (su_original_url row) (default [] (tr_urls jadx_results)))
              (str_in_list (su_original_url row) (default [] (tr_urls apkleaks_results)))
              (str_in_list (su_original_url row) (default [] (tr_urls mobsf_results))))
    as (Hjadx & Hapkleaks & Hmobsf & Hnone).
  rewrite Hjadx, Hapkleaks, Hmobsf, Hnone. unfold all_urls.
  by rewrite !elem_of_app, !str_in_list_elem.
Qed.

(** X23: the domains and the endpoints of the merged static results are those
    of the three tools, each once; the secrets are those of APKLeaks, the
    permissions and the certificates those of MobSF, as reported. *)
Theorem merge_static_results_collections
  (jadx_results apkleaks_results mobsf_results : tool_results_t)
  (merged : static_results_t) :
  merge_static_results jadx_results apkleaks_results mobsf_results = Ok merged →
  NoDup (default [] (sr_domains merged))
  ∧ NoDup (default [] (sr_endpoints merged))
  ∧ (∀ domain, domain ∈ default [] (sr_domains merged)
               ↔ domain ∈ default [] (tr_domains jadx_results)
                 ∨ domain ∈ default [] (tr_domains apkleaks_results)
                 ∨ domain ∈ default [] (tr_domains mobsf_results))
  ∧ (∀ endpoint, endpoint ∈ default [] (sr_endpoints merged)
                 ↔ endpoint ∈ default [] (tr_endpoints jadx_results)
                   ∨ endpoint ∈ default [] (tr_endpoints apkleaks_results)
                   ∨ endpoint ∈ default [] (tr_endpoints mobsf_results))
  ∧ default [] (sr_secrets merged) = default [] (tr_secrets apkleaks_results)
  ∧ default [] (sr_permissions merged) = default [] (tr_permissions mobsf_results)
  ∧ default [] (sr_certificates merged) = default [] (tr_certificates mobsf_results).
Proof.
  intros (unique_urls & rows & _ & _ & ->)%merge_static_results_inv.
  cbn [sr_domains sr_endpoints sr_secrets sr_permissions sr_certificates].
  unfold list_set. cbn [default from_option id].
  split_and!; try done; try apply NoDup_remove_dups.
  - intros domain. by rewrite elem_of_remove_dups, !elem_of_app.
  - intros endpoint. by rewrite elem_of_remove_dups, !elem_of_app.
Qed.

(** ** From the static results to the URL map *)

(** X24: a URL that [urlparse] rejects never reaches a URL map.  When
    [merge_static_results] returns, both messages for the URL were printed,
    the URL is in the result as it was reported, [normalize_url] and
    [extract_path_parameters] both having returned it unchanged, and
    [generate_url_map] raises on that result, whatever the dynamic and the
    component results are.  So [merge_static_results] followed by
    [generate_url_map] raises in every case. *)
Theorem rejected_static_url_aborts_url_map
  (jadx_results apkleaks_results mobsf_results : tool_results_t) (url : string) (err : exn) :
  url ∈ all_urls jadx_results apkleaks_results mobsf_results →
  urlparse url = Raise err →
  (∀ merged,
     merge_static_results jadx_results apkleaks_results mobsf_results = Ok merged →
     print (normalize_error url err) = Ok tt
     ∧ print (extract_error url err) = Ok tt
     ∧ (∃ row, row ∈ default [] (sr_urls merged)
               ∧ su_url row = Some url ∧ su_original_url row = url
               ∧ su_parameters row = Some [])
     ∧ ∀ now dynamic_results component_results,
         ∃ err', generate_url_map now merged dynamic_results component_results = Raise err')
  ∧ ∀ now dynamic_results component_results,
      ∃ err',
        (merge_static_results jadx_results apkleaks_results mobsf_results
         ≫= λ merged, generate_url_map now merged dynamic_results component_results)
        = Raise err'.
Proof.
  intros Hin Hparse.
  assert (Hreturned :
    ∀ merged,
      merge_static_results jadx_results apkleaks_results mobsf_results = Ok merged →
      print (normalize_error url err) = Ok tt
      ∧ print (extract_error url err) = Ok tt
      ∧ (∃ row, row ∈ default [] (sr_urls merged)
                ∧ su_url row = Some url ∧ su_original_url row = url
                ∧ su_parameters row = Some [])
      ∧ ∀ now dynamic_results component_results,
          ∃ err', generate_url_map now merged dynamic_results component_results
                  = Raise err').
  { intros merged (unique_urls & rows & Hdedup & Hrows & ->)%merge_static_results_inv.
    destruct (deduplicate_urls_inv _ _ Hdedup) as (_ & Helem & _ & Hall).
    destruct (Hall url Hin) as [normalized Hn].
    destruct (normalize_url_rejected _ _ _ Hparse Hn) as [-> Hprinted].
    assert (Hunique : url ∈ unique_urls) by (apply Helem; by exists url).
    destruct (Forall2_elem_l _ _ _ _ Hrows Hunique)
      as (row & Hrow & Horig & _ & nurl & ps & Hextract & Hurl & Hps).
    destruct (extract_path_parameters_rejected _ _ _ Hparse Hextract) as [[= -> ->] Hprinted'].
    split_and!; [done | done | by exists row |].
    intros now dynamic_results component_results. unfold generate_url_map.
    destruct (merge_static_dynamic_data _ _ _ _) as [[md now']|err'] eqn:Hrun;
      [|by exists err'].
    apply merge_static_dynamic_data_inv in Hrun as (d & n & Hrun & _).
    destruct (for_each_ingest_parsed _ _ _ (Static row) url Hrun) as [parsed Hparsed].
    - unfold observations. apply elem_of_app. left. apply list_elem_of_fmap. by exists row.
    - unfold obs_url. simpl. by rewrite Hurl.
    - congruence. }
  split; [exact Hreturned|]. intros now dynamic_results component_results.
  destruct (merge_static_results _ _ _) as [merged|err'] eqn:Hmerged; [|by exists err'].
  rewrite bind_Ok. by apply (Hreturned merged).
Qed.

(** ** The URL map of [url_normalizer.py] *)

(** The rows that the [try] block of the loop fails on. *)
Lemma static_map_entry_of_raises (row : static_url) :
  (∃ e, static_map_entry_of row = Raise e)
  ↔ su_url row = None ∨ su_parameters row = None
    ∨ ∃ url err, su_url row = Some url ∧ urlparse url = Raise err.
Proof.
  unfold static_map_entry_of, static_map_row.
  destruct (su_url row) as [url|]; [|split; [by left | by eexists]].
  destruct (urlparse url) as [parsed|err] eqn:Hparse.
  - destruct (su_parameters row) as [ps|].
    + rewrite bind_Ok. split; [by intros [e ?]|].
      intros [?|[?|(url' & err' & [= <-] & ?)]]; congruence.
    + rewrite bind_Ok. split; [by right; left | by eexists].
  - split; [|destruct (su_parameters row); by eexists].
    intros _. right. right. by exists url, err.
Qed.

Lemma static_map_entries_cons_bad (row : static_url) (rows : list static_url)
  (entries : list static_map_entry) (e : exn)
  (step := λ (entries : list static_map_entry) (row : static_url),
             try_except
               (url_entry ← static_map_entry_of row;
                Ok (entries ++ [url_entry])%list)
               (λ e, print (entry_error row e);; Ok entries)) :
  static_map_entry_of row = Raise e →
  for_each step entries (row :: rows)
  = (print (entry_error row e);; for_each step entries rows).
Proof.
  intros Hbad. subst step. cbn [for_each]. rewrite Hbad, bind_Raise.
  cbn [try_except]. by destruct (print _).
Qed.

(** X25: [url_normalizer.generate_url_map] fails on a row, one that has its
    [sources] and its [original_url], exactly when the row lacks its [url] or
    its [parameters] or [urlparse] rejects its URL.  It then
    prints a message; when the message is printed the row is skipped, and
    the entries are those of the rows before and after it; when [print]
    raises, the exception leaves the function. *)
Theorem static_map_skips_bad_row (before after : list static_url) (row : static_url) :
  ((∃ e, static_map_entry_of row = Raise e)
   ↔ su_url row = None ∨ su_parameters row = None
     ∨ ∃ url err, su_url row = Some url ∧ urlparse url = Raise err)
  ∧ ∀ e,
      static_map_entry_of row = Raise e →
      (print (entry_error row e) = Ok tt →
       static_map_entries (static_rows (before ++ row :: after))
       = static_map_entries (static_rows (before ++ after)))
      ∧ ∀ failure entries,
          print (entry_error row e) = Raise failure →
          static_map_entries (static_rows before) = Ok entries →
          static_map_entries (static_rows (before ++ row :: after)) = Raise failure.
Proof.
  split; [apply static_map_entry_of_raises|]. intros e Hbad.
  unfold static_map_entries, static_rows. cbn [sr_urls default from_option id].
  rewrite !for_each_app. split.
  - intros Hprint. destruct (for_each _ [] before) as [entries|]; [|done].
    rewrite !bind_Ok, (static_map_entries_cons_bad _ _ _ _ Hbad), Hprint. done.
  - intros failure entries Hprint ->.
    rewrite bind_Ok, (static_map_entries_cons_bad _ _ _ _ Hbad), Hprint. done.
Qed.

(** X26: on a static row the two URL maps agree: the entry of
    [url_normalizer.generate_url_map] has the host, the method, the
    parameters and the risk level of the entry that
    [create_url_mapping_entry] makes of the row, and its signature when the
    row has no parameters. *)
Theorem static_map_row_agrees_with_mapping_entry (now : nat) (url original_url : string)
  (parameters_ : list PathParam) (sources_ : list string) (e : entry) :
  create_url_mapping_entry now url "UNKNOWN" "static" (Some parameters_) = Ok e →
  ∃ url_entry,
    static_map_row url original_url parameters_ sources_ = Ok url_entry
    ∧ sm_host url_entry = host e
    ∧ sm_method url_entry = method e
    ∧ sm_parameters url_entry = parameters e
    ∧ sm_risk_level url_entry = risk_level e
    ∧ (parameters_ = [] → sm_signature url_entry = signature e ∧ sm_path url_entry = path e).
Proof.
  intros (parsed & Hparse & ->)%create_url_mapping_entry_inv.
  unfold static_map_row. rewrite Hparse, bind_Ok. eexists. split; [done|].
  cbn [sm_host sm_method sm_parameters sm_risk_level sm_signature sm_path host method
       parameters risk_level signature path default from_option id].
  split_and!; try done.
  - apply static_risk_loop_risk_loop.
  - by intros ->.
Qed.

(** ** The parameters that [extract_path_parameters] finds *)

Lemma findall_from_matched (match_at : string → option string) (skip : nat) (s m : string) :
  m ∈ findall_from match_at skip s → matched match_at m.
Proof.
  revert skip. induction s as [|c t IH]; intros skip; simpl.
  - by intros ?%elem_of_nil.
  - destruct skip as [|k]; [|apply IH].
    destruct (match_at (String c t)) as [m'|] eqn:Hm; [|apply IH].
    intros [->|Hin]%elem_of_cons; [by exists (String c t) | by eapply IH].
Qed.

Lemma findall_matched (match_at : string → option string) (s : string) :
  Forall (matched match_at) (findall match_at s).
Proof. apply Forall_forall. intros m. apply findall_from_matched. Qed.

Lemma foldl_parameters (step : string * list PathParam → string → string * list PathParam)
  (P : PathParam → Prop) (Q : string → Prop) (matches : list string) :
  (∀ path_ ps m, Q m → ∃ path' new, step (path_, ps) m = (path', (ps ++ new)%list)
                                    ∧ Forall P new) →
  Forall Q matches →
  ∀ path_ ps, ∃ path' new, foldl step (path_, ps) matches = (path', (ps ++ new)%list)
                           ∧ Forall P new.
Proof.
  intros Hstep. induction 1 as [|m matches Hm _ IH]; intros path_ ps; simpl.
  - exists path_, []. by rewrite app_nil_r.
  - destruct (Hstep path_ ps m Hm) as (path1 & new1 & -> & Hnew1).
    destruct (IH path1 (ps ++ new1)%list) as (path2 & new2 & -> & Hnew2).
    exists path2, (new1 ++ new2)%list. rewrite app_assoc. split; [done|].
    by apply Forall_app.
Qed.

Lemma match_group_inv (cls : ascii → bool) (n : nat) (s rest : string) :
  match_group cls n s = Some rest →
  ∃ group, s = group +:+ rest ∧ len group = n ∧ str_forallb cls group = true.
Proof.
  revert s. induction n as [|n IH]; intros s; simpl.
  - intros [= ->]. by exists "".
  - destruct s as [|c t]; [done|]. destruct (cls c) eqn:Hc; [|done].
    intros (group & -> & <- & Hgroup)%IH. exists (String c group).
    split_and!; [done..|]. simpl. by rewrite Hc.
Qed.

Lemma match_literal_inv (c : ascii) (s rest : string) :
  match_literal c s = Some rest → s = String c rest.
Proof.
  destruct s as [|d t]; simpl; [done|].
  destruct (eqb_char c d) eqn:Hcd; [|done]. apply Ascii.eqb_eq in Hcd as ->.
  by intros [= ->].
Qed.

Lemma uuid_pattern_shaped (m : string) : matched uuid_pattern m → uuid_shaped m.
Proof.
  intros [s Hs]. unfold uuid_pattern in Hs.
  destruct (match_group is_lower_hex 8 s) as [s1|] eqn:H1; [|discriminate Hs]; cbn [mbind option_bind] in Hs.
  destruct (match_literal "-" s1) as [s2|] eqn:H2; [|discriminate Hs]; cbn [mbind option_bind] in Hs.
  destruct (match_group is_lower_hex 4 s2) as [s3|] eqn:H3; [|discriminate Hs]; cbn [mbind option_bind] in Hs.
  destruct (match_literal "-" s3) as [s4|] eqn:H4; [|discriminate Hs]; cbn [mbind option_bind] in Hs.
  destruct (match_group is_lower_hex 4 s4) as [s5|] eqn:H5; [|discriminate Hs]; cbn [mbind option_bind] in Hs.
  destruct (match_literal "-" s5) as [s6|] eqn:H6; [|discriminate Hs]; cbn [mbind option_bind] in Hs.
  destruct (match_group is_lower_hex 4 s6) as [s7|] eqn:H7; [|discriminate Hs]; cbn [mbind option_bind] in Hs.
  destruct (match_literal "-" s7) as [s8|] eqn:H8; [|discriminate Hs]; cbn [mbind option_bind] in Hs.
  destruct (match_group is_lower_hex 12 s8) as [s9|] eqn:H9; [|discriminate Hs]; cbn [mbind option_bind] in Hs.
  assert (Hm : str_take 36 s = m) by congruence. clear Hs. subst m.
  apply match_group_inv in H1 as (a & -> & Ha & Hhex_a).
  apply match_literal_inv in H2 as ->.
  apply match_group_inv in H3 as (b & -> & Hb & Hhex_b).
  apply match_literal_inv in H4 as ->.
  apply match_group_inv in H5 as (c & -> & Hc & Hhex_c).
  apply match_literal_inv in H6 as ->.
  apply match_group_inv in H7 as (d & -> & Hd & Hhex_d).
  apply match_literal_inv in H8 as ->.
  apply match_group_inv in H9 as (e & -> & He & Hhex_e).
  exists a, b, c, d, e. split_and!; try done.
  - set (u := a +:+ "-" +:+ b +:+ "-" +:+ c +:+ "-" +:+ d +:+ "-" +:+ e).
    assert (Hlen : len u = 36).
    { unfold u. rewrite <- !len_app, Ha, Hb, Hc, Hd, He. done. }
    assert (Hu : a +:+ String "-" (b +:+ String "-" (c +:+ String "-"
                   (d +:+ String "-" (e +:+ s9)))) = u +:+ s9).
    { unfold u. by rewrite !str_app_assoc, !str_app_cons, !str_app_nil_l. }
    rewrite Hu, <- Hlen. apply str_take_app.
  - rewrite !str_forallb_app, Hhex_a, Hhex_b, Hhex_c, Hhex_d, Hhex_e. done.
Qed.

Lemma slash_run_pattern_inv (cls : ascii → bool) (m : string) :
  matched (slash_run_pattern cls) m →
  ∃ run, m = "/" +:+ run +:+ "/" ∧ run ≠ "" ∧ str_forallb cls run = true.
Proof.
  intros [s Hs]. unfold slash_run_pattern in Hs.
  destruct s as [|c t]; [done|].
  destruct (Ascii.eqb_spec c "/") as [->|Hne].
  - destruct (span_class_spec cls t) as (Hrun & _ & _).
    destruct (span_class cls t) as [[|c0 run] rest]; [done|].
    destruct rest as [|c1 rest]; [done|].
    destruct (Ascii.eqb_spec c1 "/") as [->|Hne].
    + injection Hs as <-. by exists (String c0 run).
    + exfalso. revert Hs. clear -Hne.
      destruct c1 as [[] [] [] [] [] [] [] []]; done.
  - exfalso. revert Hs. clear -Hne. destruct c as [[] [] [] [] [] [] [] []]; done.
Qed.

Lemma rstrip_app_one (p : ascii → bool) (run : string) (c : ascii) :
  str_forallb (λ x, negb (p x)) run = true → p c = true →
  rstrip p (run +:+ String c "") = run.
Proof.
  intros Hrun Hc. induction run as [|x run IH]; str_simpl.
  - by rewrite Hc.
  - simpl in Hrun. apply andb_prop in Hrun as [Hx Hrun]. rewrite (IH Hrun).
    destruct run; [|done]. by destruct (p x).
Qed.

Lemma strip_slash_run (cls : ascii → bool) (run : string) :
  (∀ c, cls c = true → is_slash c = false) →
  run ≠ "" → str_forallb cls run = true →
  strip is_slash ("/" +:+ run +:+ "/") = run.
Proof.
  intros Hcls Hne Hrun. unfold strip. rewrite str_app_cons, str_app_nil_l.
  assert (Hfree : str_forallb (λ x, negb (is_slash x)) run = true).
  { eapply str_forallb_impl; [|done]. intros c Hc. by rewrite (Hcls c Hc). }
  destruct run as [|c run]; [done|]. cbn [lstrip]. change (is_slash "/") with true.
  cbn iota. rewrite str_app_cons. cbn [lstrip].
  pose proof Hfree as Hfree'. simpl in Hfree'. apply andb_prop in Hfree' as [Hc _].
  destruct (is_slash c) eqn:Hslash; [done|]. rewrite <- str_app_cons.
  by apply rstrip_app_one.
Qed.

Lemma digit_not_slash (c : ascii) : is_digit c = true → is_slash c = false.
Proof.
  intros Hc. unfold is_slash, eqb_char. destruct (Ascii.eqb_spec c "/") as [->|]; done.
Qed.

Lemma alnum_not_slash (c : ascii) : is_alnum c = true → is_slash c = false.
Proof.
  intros Hc. unfold is_slash, eqb_char. destruct (Ascii.eqb_spec c "/") as [->|]; done.
Qed.

Lemma extract_uuids_parameters (path_ : string) (ps : list PathParam) :
  ∃ path' new, extract_uuids path_ ps = (path', (ps ++ new)%list) ∧ Forall uuid_param new.
Proof.
  unfold extract_uuids.
  apply foldl_parameters with (Q := matched uuid_pattern); [|apply findall_matched].
  intros p ps' m Hm. eexists _, [_]. split; [done|]. repeat constructor. simpl.
  by apply uuid_pattern_shaped.
Qed.

Lemma extract_numeric_ids_parameters (path_ : string) (ps : list PathParam) :
  ∃ path' new, extract_numeric_ids path_ ps = (path', (ps ++ new)%list)
               ∧ Forall numeric_param new.
Proof.
  unfold extract_numeric_ids.
  apply foldl_parameters with (Q := matched numeric_pattern); [|apply findall_matched].
  intros p ps' m (run & -> & Hne & Hrun)%slash_run_pattern_inv.
  eexists _, [_]. split; [done|]. repeat constructor; simpl;
    rewrite (strip_slash_run is_digit run digit_not_slash Hne Hrun); done.
Qed.

Lemma extract_alphanumeric_ids_parameters (path_ : string) (ps : list PathParam) :
  ∃ path' new, extract_alphanumeric_ids path_ ps = (path', (ps ++ new)%list)
               ∧ Forall alphanumeric_param new.
Proof.
  unfold extract_alphanumeric_ids.
  apply foldl_parameters with (Q := matched alphanumeric_pattern); [|apply findall_matched].
  intros p ps' m (run & -> & Hne & Hrun)%slash_run_pattern_inv.
  rewrite (strip_slash_run is_alnum run alnum_not_slash Hne Hrun).
  destruct (str_in_list (lower run) common_words) eqn:Hcommon; cbn [negb].
  - exists p, []. by rewrite app_nil_r.
  - eexists _, [_]. split; [done|]. by repeat constructor.
Qed.

(** X27: the parameters that [extract_path_parameters] returns come in three
    runs: the UUIDs, each of five groups of 8, 4, 4, 4 and 12 lower-case
    hexadecimal digits joined by hyphens; the numeric ids, each a non-empty
    run of digits; the alphanumeric ids, each a non-empty run of letters and
    digits that is, in lower case, none of the common words. *)
Theorem extract_path_parameters_shapes (url normalized_url : string)
  (parameters_ : list PathParam) :
  extract_path_parameters url = Ok (normalized_url, parameters_) →
  ∃ uuids numeric_ids alphanumeric_ids,
    parameters_ = (uuids ++ numeric_ids ++ alphanumeric_ids)%list
    ∧ Forall uuid_param uuids
    ∧ Forall numeric_param numeric_ids
    ∧ Forall alphanumeric_param alphanumeric_ids.
Proof.
  destruct (urlparse url) as [parsed|err] eqn:Hparse.
  - rewrite (extract_path_parameters_parsed _ _ Hparse).
    destruct (extract_uuids_parameters (p_path parsed) []) as (path1 & uuids & -> & Huuids).
    destruct (extract_numeric_ids_parameters path1 ([] ++ uuids))
      as (path2 & numeric_ids & -> & Hnumeric).
    destruct (extract_alphanumeric_ids_parameters path2 (([] ++ uuids) ++ numeric_ids))
      as (path3 & alphanumeric_ids & -> & Halphanumeric).
    intros [= _ <-]. exists uuids, numeric_ids, alphanumeric_ids.
    split_and!; [|done..]. simpl. by rewrite <- app_assoc.
  - intros [[= _ ->] _]%(extract_path_parameters_rejected _ _ _ Hparse).
    by exists [], [], [].
Qed.

(** ** Case *)

Lemma existsb_fmap {A B} (f : B → bool) (g : A → B) (l : list A) :
  existsb f (g <$> l) = existsb (λ x, f (g x)) l.
Proof. induction l as [|x l IH]; [done|]. rewrite fmap_cons. simpl. by rewrite IH. Qed.

(** X28: the risk level does not depend on the case of the URL or of the
    parameter values. *)
Theorem risk_loop_ignores_case (url : string) (parameters_ : option (list PathParam))
  (indicators : list string) :
  risk_loop (lower url) ((λ l : list PathParam, lower_param <$> l) <$> parameters_)
    indicators
  = risk_loop url parameters_ indicators.
Proof.
  induction indicators as [|indicator rest IH]; [done|]. simpl.
  rewrite lower_idemp, IH. destruct (contains indicator (lower url)); [done|].
  destruct parameters_ as [[|p ps]|]; [done| |done].
  cbn [fmap option_fmap option_map truthy default from_option id].
  rewrite fmap_cons. cbn [truthy andb]. rewrite <- fmap_cons, existsb_fmap.
  unfold lower_param. cbn [value].
  replace (existsb (λ x, contains indicator (lower (lower (value x)))) (p :: ps))
    with (existsb (λ param, contains indicator (lower (value param))) (p :: ps)); [done|].
  generalize (p :: ps). intros l. induction l as [|x l IHl]; [done|]. simpl.
  by rewrite lower_idemp, IHl.
Qed.

End Engine.

(** * Examples and counterexamples *)

(** C8 at [https://api.example.com/users/123/] and at the bare path
    [/users/123/]. *)
Lemma extract_users_123_witness :
  let url := "https://api.example.com/users/123/" in
  let parsed := mkParseResult "https" "api.example.com" "/users/123/" "" "" "" in
  let bare := mkParseResult "" "" "/users/123/" "" "" "" in
  urlparse sample_ip_address url = Ok parsed
  ∧ p_path parsed = "/users/123/"
  ∧ extract_path_parameters sample_ip_address sample_print url =
      Ok ("https://api.example.com/users/{id}/", [mkParam "numeric_id" "123"])
  ∧ urlparse sample_ip_address "/users/123/" = Ok bare
  ∧ extract_path_parameters sample_ip_address sample_print "/users/123/" =
      Ok ("/users/{id}/", [mkParam "numeric_id" "123"]).
Proof.
  intros url parsed bare.
  split; [reflexivity|]. split; [reflexivity|].
  split; [exact (proj1 (extract_users_123 sample_ip_address sample_print url parsed eq_refl eq_refl))|].
  split; [reflexivity|].
  exact (proj1 (extract_users_123 sample_ip_address sample_print "/users/123/" bare eq_refl eq_refl)).
Defined.

(** C10, at the input that shows the defect.  [urlparse] rejects the URL, a
    bracket that is not closed followed by the letter e with an acute accent;
    the handlers of [normalize_url] and [extract_path_parameters] then print
    a message that contains the URL.  On a standard output that encodes ASCII
    only the [print] raises, and the exception leaves both functions: their
    [try] covers the body, not the handler.  On a standard output that
    encodes the URL both return the fallback values.  In general, for a URL
    that [urlparse] rejects each function does what its [print] does and
    then returns the fallback value, and for a URL that [urlparse] accepts
    each returns a value. *)
Theorem extraction_propagates_print_error :
  let url := "http://[" +:+ chr 233 in
  let failure := UnicodeEncodeError "'ascii' codec can't encode character" in
  urlparse sample_ip_address url = Raise (ValueError "Invalid IPv6 URL")
  ∧ normalize_url sample_ip_address ascii_print url = Raise failure
  ∧ extract_path_parameters sample_ip_address ascii_print url = Raise failure
  ∧ normalize_url sample_ip_address sample_print url = Ok url
  ∧ extract_path_parameters sample_ip_address sample_print url = Ok (url, [])
  ∧ (∀ ip_address print url e,
       urlparse ip_address url = Raise e →
       normalize_url ip_address print url = (print (normalize_error url e);; Ok url)
       ∧ extract_path_parameters ip_address print url
         = (print (extract_error url e);; Ok (url, [])))
  ∧ (∀ ip_address print url parsed,
       urlparse ip_address url = Ok parsed →
       (∃ normalized, normalize_url ip_address print url = Ok normalized)
       ∧ ∃ r, extract_path_parameters ip_address print url = Ok r).
Proof.
  intros url failure. do 5 (split; [vm_compute; reflexivity|]). split.
  - intros ip_address print url' e Hparse. split.
    + by apply normalize_url_fallback.
    + by apply extract_path_parameters_fallback.
  - intros ip_address print url' parsed Hparse. split.
    + by eapply normalize_url_accepted.
    + by eapply extract_path_parameters_accepted.
Qed.

(** C9, at the inputs that show the defect, on a standard output that
    encodes ASCII only.  The file with the accented name is there and holds
    a JSON document: it is read and decoded, the [print] of the name inside
    the [try] raises, the handler prints the message of that exception and
    [None] is returned for a load that succeeded.  The file with the other
    accented name is not there: the message of the exception names the file,
    the [print] of the handler raises and the exception leaves
    [load_url_map].  On a standard output that encodes the names the first
    load returns the document and the second [None].  In general
    [load_url_map] does what its [print]s do. *)
Theorem load_url_map_print_errors :
  let missing := chr 233 +:+ ".json" in
  let failure := UnicodeEncodeError "'ascii' codec can't encode character" in
  accented_read_text accented_name = Ok "{}"
  ∧ sample_json_loads "{}" = Ok (JDict [])
  ∧ load_url_map ascii_print accented_read_text sample_json_loads accented_name = Ok JNull
  ∧ load_url_map sample_print accented_read_text sample_json_loads accented_name
    = Ok (JDict [])
  ∧ load_url_map ascii_print accented_read_text sample_json_loads missing = Raise failure
  ∧ load_url_map sample_print accented_read_text sample_json_loads missing = Ok JNull
  ∧ (∀ print read_text json_loads input_path,
       (∀ e, read_text input_path = Raise e →
             load_url_map print read_text json_loads input_path
             = (print (load_error e);; Ok JNull))
       ∧ (∀ text e, read_text input_path = Ok text → json_loads text = Raise e →
                    load_url_map print read_text json_loads input_path
                    = (print (load_error e);; Ok JNull))
       ∧ (∀ text url_map, read_text input_path = Ok text → json_loads text = Ok url_map →
                          load_url_map print read_text json_loads input_path
                          = match print (loaded_message input_path) with
                            | Ok _ => Ok url_map
                            | Raise e => print (load_error e);; Ok JNull
                            end)).
Proof.
  intros missing failure. do 6 (split; [vm_compute; reflexivity|]).
  intros print read_text json_loads input_path. split_and!.
  - apply load_url_map_unreadable.
  - apply load_url_map_malformed.
  - apply load_url_map_decoded.
Qed.

(** C7 on two catalogs that hold the same signature with different content. *)
Lemma compare_url_maps_witness :
  let catalog (level : risk) :=
    mkUrlMap (mkMetadata 0 1 ∅ ∅ ∅)
             (Some [mkEntry "api.example.com/v1/login" "api.example.com" "/v1/login" "POST"
                            [] ["static"] ["https://api.example.com/v1/login"] level 0 1 1])
             [] [] [] [] [] in
  signatures_of (catalog LOW) = signatures_of (catalog HIGH)
  ∧ compare_url_maps (catalog LOW) (catalog HIGH) = compare_url_maps (catalog LOW) (catalog LOW)
  ∧ added (compare_url_maps (catalog LOW) (catalog HIGH)) = []
  ∧ removed (compare_url_maps (catalog LOW) (catalog HIGH)) = []
  ∧ unchanged (compare_url_maps (catalog LOW) (catalog HIGH)) = ["api.example.com/v1/login"].
Proof.
  intros catalog.
  assert (Hsig : signatures_of (catalog LOW) = signatures_of (catalog HIGH)) by reflexivity.
  pose proof (proj2 (proj2 (compare_url_maps_reflexive_and_set_based (catalog LOW)))
                (catalog LOW) (catalog HIGH) (catalog LOW) (catalog LOW) eq_refl (eq_sym Hsig))
    as Hsame.
  split; [exact Hsig|]. split; [exact Hsame|].
  rewrite Hsame. vm_compute. split_and!; reflexivity.
Defined.

(** C5 on a stored LOW entry into which a static row of level HIGH and then
    a dynamic flow are merged. *)
Lemma risk_level_monotone_witness :
  let stored := mkEntry "api.example.com/v1/users" "api.example.com" "/v1/users" "UNKNOWN"
                        [] ["static"] ["https://api.example.com/v1/users"] LOW 0 1 1 in
  let st : merge_state := ([("api.example.com/v1/users", stored)], 2) in
  let later :=
    [Static (mkStaticUrl (Some "http://api.example.com/v1/users?token=abc") "" (Some []) []);
     Dynamic (mkFlow (Some "https://api.example.com/v1/users") (Some "GET"))] in
  ∃ st',
    for_each (ingest sample_ip_address sample_clock) st later = Ok st'
    ∧ dict_get "api.example.com/v1/users" st.1 = Some stored
    ∧ ∃ e', dict_get "api.example.com/v1/users" st'.1 = Some e'
            ∧ (risk_levels (risk_level stored) ≤ risk_levels (risk_level e'))%Z.
Proof.
  intros stored st later. eexists. split; [by vm_compute|]. split; [reflexivity|].
  eapply (risk_level_monotone sample_ip_address sample_clock later st);
    [by vm_compute | reflexivity].
Defined.

(** C4 at a dynamic URL with an upper-case host, a trailing dot, a trailing
    slash and a query. *)
Lemma signature_is_netloc_and_path_witness :
  let url := "HTTPS://API.Example.COM./v1/users/?page=2" in
  let parsed := mkParseResult "https" "API.Example.COM." "/v1/users/" "" "page=2" "" in
  urlparse sample_ip_address url = Ok parsed
  ∧ (∃ e, create_url_mapping_entry sample_ip_address sample_clock 0 url "GET" "dynamic" None
            = Ok e
          ∧ host e = "API.Example.COM." ∧ path e = "/v1/users/"
          ∧ signature e = host e +:+ path e)
  ∧ normalize_url sample_ip_address sample_print url = Ok "https://api.example.com/v1/users?page=2".
Proof.
  intros url parsed. split; [reflexivity|].
  destruct (signature_is_netloc_and_path sample_ip_address sample_clock sample_print 0 url "GET" "dynamic"
              None parsed eq_refl) as (Hentry & _ & Hnorm & _).
  split; [exact Hentry | exact Hnorm].
Defined.

(** The claim of C4 fails at the same URL: the signature built from it keeps
    the upper case, the trailing dot and the trailing slash. *)
Lemma signature_not_normalized :
  ∃ e, create_url_mapping_entry sample_ip_address sample_clock 0
         "HTTPS://API.Example.COM./v1/users/?page=2" "GET" "dynamic" None = Ok e
       ∧ signature e = "API.Example.COM./v1/users/"
       ∧ signature e ≠ "api.example.com/v1/users".
Proof. eexists. split; [reflexivity|]. by split. Qed.

(** C6 at [HTTP://Example.COM./a/b/], whose normal form is parsed back into
    its components. *)
Lemma normalize_url_idempotent_witness :
  let url := "HTTP://Example.COM./a/b/" in
  let parsed := mkParseResult "http" "Example.COM." "/a/b/" "" "" "" in
  urlparse sample_ip_address url = Ok parsed
  ∧ urlparse sample_ip_address (unparse (normalize_components parsed))
    = Ok (normalize_components parsed)
  ∧ normalize_twice sample_ip_address sample_print url = normalize_url sample_ip_address sample_print url
  ∧ normalize_url sample_ip_address sample_print url = Ok "http://example.com/a/b".
Proof.
  intros url parsed. split; [reflexivity|]. split; [reflexivity|].
  split; [|reflexivity].
  apply (proj2 (proj2 (normalize_url_idempotent_when_reparsed sample_ip_address sample_print url)) parsed);
    [reflexivity | vm_compute; discriminate | reflexivity..].
Defined.

(** The claim of C6 fails at [http://a/;/]: the first normalisation removes
    the trailing slash and leaves [http://a/;], in which [urlparse] now reads
    the semicolon as the start of empty params; the second one drops it. *)
Lemma normalize_url_not_idempotent :
  normalize_url sample_ip_address sample_print "http://a/;/" = Ok "http://a/;"
  ∧ normalize_twice sample_ip_address sample_print "http://a/;/" = Ok "http://a/"
  ∧ normalize_twice sample_ip_address sample_print "http://a/;/"
    ≠ normalize_url sample_ip_address sample_print "http://a/;/".
Proof.
  split_and!; [vm_compute; reflexivity..|].
  intros H. vm_compute in H. discriminate H.
Qed.

(** C1 at a row of the static pipeline: the URL contains [test], the
    parameter value contains [admin], which comes first in the list. *)
Lemma risk_loop_witness :
  let url := "https://test.example.com/{param}/x" in
  let ps := Some [mkParam "alphanumeric_id" "admin9"] in
  risk_loop url ps risk_indicators = MEDIUM
  ∧ ∃ before indicator after,
      risk_indicators = (before ++ indicator :: after)%list
      ∧ Forall (misses url ps) before
      ∧ url_hit url indicator = false ∧ param_hit ps indicator = true.
Proof.
  intros url ps.
  assert (H : risk_loop url ps risk_indicators = MEDIUM) by reflexivity.
  split; [exact H|].
  exact (proj1 (proj1 (proj2 (risk_loop_first_matching_indicator url ps))) H).
Defined.

(** The claim of C1 fails there: an indicator is a substring of the
    lower-cased URL and the result is not HIGH. *)
Lemma url_match_does_not_outrank :
  ¬ (∀ url ps,
       (∃ indicator, indicator ∈ risk_indicators ∧ contains indicator (lower url) = true) →
       risk_loop url ps risk_indicators = HIGH).
Proof.
  intros Hclaim.
  specialize (Hclaim "https://test.example.com/{param}/x"
                     (Some [mkParam "alphanumeric_id" "admin9"])).
  assert (Hhigh : risk_loop "https://test.example.com/{param}/x"
                    (Some [mkParam "alphanumeric_id" "admin9"]) risk_indicators = HIGH).
  { apply Hclaim. exists "test". split; [|reflexivity].
    unfold risk_indicators. repeat constructor. }
  discriminate Hhigh.
Qed.

(** The claim of C2 fails on its own two URLs: the static pipeline finds no
    parameter in the first, and the signature of the second keeps [123]. *)
Lemma signatures_keep_numeric_segment :
  extract_path_parameters sample_ip_address sample_print "https://api.example.com/v1/users/123"
    = Ok ("https://api.example.com/v1/users/123", [])
  ∧ ∃ e, create_url_mapping_entry sample_ip_address sample_clock 2
           "http://api.example.com/v1/users/123?x=1" "GET" "dynamic" None = Ok e
         ∧ signature e = "api.example.com/v1/users/123"
         ∧ signature e ≠ "api.example.com/v1/users/{id}".
Proof. split; [reflexivity|]. eexists. split; [reflexivity|]. by split. Qed.

(** * Examples for the further properties *)

(** X1 on the busy example. *)
Lemma merged_signatures_unique_witness :
  ∃ md now',
    merge_static_dynamic_data sample_ip_address sample_clock 0 busy_static_results
      busy_dynamic_results busy_component_results = Ok (md, now')
    ∧ NoDup (signature <$> md_entries md).
Proof.
  eexists _, _. split; [vm_compute; reflexivity|].
  eapply (merged_signatures_unique sample_ip_address sample_clock 0 _ busy_static_results
            busy_dynamic_results busy_component_results).
  vm_compute; reflexivity.
Defined.

(** X2 on the busy example: the login entry was met three times. *)
Lemma merged_frequency_witness :
  ∃ md now' e,
    merge_static_dynamic_data sample_ip_address sample_clock 0 busy_static_results
      busy_dynamic_results busy_component_results = Ok (md, now')
    ∧ e ∈ md_entries md
    ∧ signature e = "api.example.com/v1/login"
    ∧ frequency e = 3%Z
    ∧ frequency e =
        Z.of_nat (List.length
                    (hits sample_ip_address (signature e)
                       (observations busy_static_results busy_dynamic_results
                          busy_component_results)))
    ∧ (1 ≤ frequency e)%Z.
Proof.
  eexists _, _, _. split; [vm_compute; reflexivity|].
  split; [apply list_elem_of_here|]. split; [reflexivity|]. split; [reflexivity|].
  eapply (merged_frequency_counts_observations sample_ip_address sample_clock 0);
    [vm_compute; reflexivity | apply list_elem_of_here].
Defined.

(** X10 on the busy example: seven of the nine observations are processed. *)
Lemma merged_frequencies_witness :
  ∃ md now',
    merge_static_dynamic_data sample_ip_address sample_clock 0 busy_static_results
      busy_dynamic_results busy_component_results = Ok (md, now')
    ∧ total_frequency (md_entries md) = 7%Z
    ∧ total_frequency (md_entries md)
      = Z.of_nat (List.length
                    (processed (observations busy_static_results busy_dynamic_results
                                  busy_component_results))).
Proof.
  eexists _, _. split; [vm_compute; reflexivity|]. split; [reflexivity|].
  eapply (merged_frequencies_add_up sample_ip_address sample_clock 0).
  vm_compute; reflexivity.
Defined.

(** X3 on the busy example: the login entry is static and dynamic. *)
Lemma merged_sources_witness :
  ∃ md now' e,
    merge_static_dynamic_data sample_ip_address sample_clock 0 busy_static_results
      busy_dynamic_results busy_component_results = Ok (md, now')
    ∧ e ∈ md_entries md
    ∧ sources e = ["static"; "dynamic"]
    ∧ NoDup (sources e)
    ∧ ∀ s, s ∈ sources e ↔
           ∃ o, o ∈ observations busy_static_results busy_dynamic_results
                      busy_component_results
                ∧ obs_signature sample_ip_address o = Some (signature e)
                ∧ obs_source o = s.
Proof.
  eexists _, _, _. split; [vm_compute; reflexivity|].
  split; [apply list_elem_of_here|]. split; [reflexivity|].
  eapply (merged_sources_are_observation_kinds sample_ip_address sample_clock 0);
    [vm_compute; reflexivity | apply list_elem_of_here].
Defined.

(** X4 on the busy example. *)
Lemma merged_original_urls_witness :
  ∃ md now' e,
    merge_static_dynamic_data sample_ip_address sample_clock 0 busy_static_results
      busy_dynamic_results busy_component_results = Ok (md, now')
    ∧ e ∈ md_entries md
    ∧ original_urls e = ["https://api.example.com/v1/login";
                         "http://api.example.com/v1/login?next=home"]
    ∧ NoDup (original_urls e)
    ∧ ∀ url, url ∈ original_urls e ↔
             ∃ o, o ∈ observations busy_static_results busy_dynamic_results
                        busy_component_results
                  ∧ obs_signature sample_ip_address o = Some (signature e)
                  ∧ obs_url o = Some url.
Proof.
  eexists _, _, _. split; [vm_compute; reflexivity|].
  split; [apply list_elem_of_here|]. split; [reflexivity|].
  eapply (merged_original_urls_are_observed sample_ip_address sample_clock 0);
    [vm_compute; reflexivity | apply list_elem_of_here].
Defined.

(** X5 on two URLs that JADX reports and that differ in one segment: their
    rows have one signature, and the entry has the parameters of both. *)
Lemma merged_parameters_witness :
  let jadx_results := tool_urls ["https://api.example.com/v1/items/abc9/x";
                                 "https://api.example.com/v1/items/KEY7/x"] in
  ∃ static_results md now' e,
    merge_static_results sample_ip_address sample_print jadx_results (tool_urls [])
      (tool_urls []) = Ok static_results
    ∧ merge_static_dynamic_data sample_ip_address sample_clock 0 static_results
        busy_dynamic_results None = Ok (md, now')
    ∧ e ∈ md_entries md
    ∧ signature e = "api.example.com/v1/items/{param}/x"
    ∧ parameters e = [mkParam "alphanumeric_id" "abc9"; mkParam "alphanumeric_id" "KEY7"]
    ∧ parameters e =
        List.concat
          (obs_parameters <$>
             filter (λ o, is_static o = true)
               (hits sample_ip_address (signature e)
                  (observations static_results busy_dynamic_results None))).
Proof.
  intros jadx_results. eexists _, _, _, _. split; [vm_compute; reflexivity|].
  split; [vm_compute; reflexivity|]. split; [apply list_elem_of_here|].
  split; [reflexivity|]. split; [reflexivity|].
  eapply (merged_parameters_are_concatenated sample_ip_address sample_clock sample_print 0 _
            jadx_results (tool_urls []) (tool_urls []) _ busy_dynamic_results None);
    [vm_compute; reflexivity | vm_compute; reflexivity | apply list_elem_of_here].
Defined.

(** X6 on the busy example: the flow without method leaves [POST]. *)
Lemma merged_method_witness :
  ∃ md now' e,
    merge_static_dynamic_data sample_ip_address sample_clock 0 busy_static_results
      busy_dynamic_results busy_component_results = Ok (md, now')
    ∧ e ∈ md_entries md
    ∧ method e = "POST"
    ∧ method e =
        default "UNKNOWN"
          (last (filter (λ m, m ≠ "UNKNOWN")
                   (obs_method <$>
                      hits sample_ip_address (signature e)
                        (observations busy_static_results busy_dynamic_results
                           busy_component_results)))).
Proof.
  eexists _, _, _. split; [vm_compute; reflexivity|].
  split; [apply list_elem_of_here|]. split; [reflexivity|].
  eapply (merged_method_is_last_known sample_ip_address sample_clock 0);
    [vm_compute; reflexivity | apply list_elem_of_here].
Defined.

(** X12 on the busy example: the second item row raises the entry to
    [MEDIUM]. *)
Lemma merged_risk_witness :
  ∃ md now' e,
    merge_static_dynamic_data sample_ip_address sample_clock 0 busy_static_results
      busy_dynamic_results busy_component_results = Ok (md, now')
    ∧ e ∈ md_entries md
    ∧ risk_level e = MEDIUM
    ∧ let counted :=
        risk_sources (hits sample_ip_address (signature e)
                        (observations busy_static_results busy_dynamic_results
                           busy_component_results)) in
      (∃ o, o ∈ counted ∧ risk_level e = obs_risk o)
      ∧ ∀ o, o ∈ counted → (risk_levels (obs_risk o) ≤ risk_levels (risk_level e))%Z.
Proof.
  eexists _, _, _. split; [vm_compute; reflexivity|].
  split; [apply list_elem_of_further, list_elem_of_here|]. split; [reflexivity|].
  eapply (merged_risk_is_highest_static sample_ip_address sample_clock 0);
    [vm_compute; reflexivity | apply list_elem_of_further, list_elem_of_here].
Defined.

(** X13 on the same entry. *)
Lemma merged_MEDIUM_witness :
  ∃ md now' e,
    merge_static_dynamic_data sample_ip_address sample_clock 0 busy_static_results
      busy_dynamic_results busy_component_results = Ok (md, now')
    ∧ e ∈ md_entries md
    ∧ risk_level e = MEDIUM
    ∧ parameters e ≠ []
    ∧ ∃ row, Static row ∈ observations busy_static_results busy_dynamic_results
                            busy_component_results
             ∧ obs_signature sample_ip_address (Static row) = Some (signature e)
             ∧ obs_risk (Static row) = MEDIUM.
Proof.
  eexists _, _, _. split; [vm_compute; reflexivity|].
  split; [apply list_elem_of_further, list_elem_of_here|]. split; [reflexivity|].
  eapply (merged_MEDIUM_has_parameters sample_ip_address sample_clock 0);
    [vm_compute; reflexivity | apply list_elem_of_further, list_elem_of_here | reflexivity].
Defined.

(** X8 on a static result whose second row is an unclosed bracketed host. *)
Lemma generate_url_map_raises_witness :
  let good := mkStaticUrl (Some "https://api.example.com/v1/login") "" (Some []) [] in
  let bad := mkStaticUrl (Some "http://[::1") "" (Some []) [] in
  urlparse sample_ip_address "http://[::1" = Raise (ValueError "Invalid IPv6 URL")
  ∧ generate_url_map sample_ip_address sample_clock 0 (static_rows [good; bad])
      busy_dynamic_results None
    = Raise (ValueError "Invalid IPv6 URL").
Proof.
  intros good bad. split; [reflexivity|].
  apply (generate_url_map_raises_first_rejection sample_ip_address sample_clock 0
           (static_rows [good; bad]) busy_dynamic_results None
           [Static good] (Dynamic <$> busy_dynamic_results) (Static bad) "http://[::1");
    [reflexivity| |reflexivity|reflexivity].
  intros o' url' ->%list_elem_of_singleton [= <-]. eexists. vm_compute; reflexivity.
Defined.

(** X11 on the busy example: the flow without method is in the login entry. *)
Lemma merged_covers_witness :
  let o := Dynamic (mkFlow (Some "http://api.example.com/v1/login?next=home") None) in
  ∃ md now',
    merge_static_dynamic_data sample_ip_address sample_clock 0 busy_static_results
      busy_dynamic_results busy_component_results = Ok (md, now')
    ∧ ∃ e, e ∈ md_entries md
           ∧ obs_signature sample_ip_address o = Some (signature e)
           ∧ "http://api.example.com/v1/login?next=home" ∈ original_urls e
           ∧ obs_source o ∈ sources e.
Proof.
  intros o. eexists _, _. split; [vm_compute; reflexivity|].
  eapply (merged_covers_observations sample_ip_address sample_clock 0 _ busy_static_results
            busy_dynamic_results busy_component_results _ o);
    [vm_compute; reflexivity | | reflexivity].
  unfold observations, busy_static_results, busy_dynamic_results. simpl.
  do 4 apply list_elem_of_further. apply list_elem_of_here.
Defined.

(** X14 on the busy example, with the clock that ticks at each reading. *)
Lemma merged_timestamps_witness :
  monotone_clock sample_clock
  ∧ ∃ md now' e,
      merge_static_dynamic_data sample_ip_address sample_clock 0 busy_static_results
        busy_dynamic_results busy_component_results = Ok (md, now')
      ∧ e ∈ md_entries md
      ∧ (first_seen e, last_seen e, md_timestamp md) = (0, 9, 14)%Z
      ∧ (first_seen e ≤ last_seen e)%Z ∧ (last_seen e ≤ md_timestamp md)%Z.
Proof.
  assert (Hmono : monotone_clock sample_clock) by (intros n; unfold sample_clock; lia).
  split; [exact Hmono|].
  eexists _, _, _. split; [vm_compute; reflexivity|].
  split; [apply list_elem_of_here|]. split; [reflexivity|].
  eapply (merged_timestamps_ordered sample_ip_address sample_clock 0 _ busy_static_results
            busy_dynamic_results busy_component_results _ _ Hmono);
    [vm_compute; reflexivity | apply list_elem_of_here].
Defined.

(** X15 on the busy example: one entry of each of [HIGH] and [MEDIUM], two of
    [LOW]. *)
Lemma risk_distribution_witness :
  ∃ url_map,
    generate_url_map sample_ip_address sample_clock 0 busy_static_results
      busy_dynamic_results busy_component_results = Ok url_map
    ∧ risk_distribution (um_metadata url_map) !! "LOW" = Some 2
    ∧ risk_distribution (um_metadata url_map) !! "UNKNOWN" = None
    ∧ let entries := default [] (um_entries url_map) in
      let counts := risk_distribution (um_metadata url_map) in
      total_entries (um_metadata url_map) = List.length entries
      ∧ (∀ k, default 0 (counts !! k) = count_by (risk_name ∘ risk_level) k entries
              ∧ counts !! k ≠ Some 0)
      ∧ (default 0 (counts !! "LOW") + default 0 (counts !! "MEDIUM")
         + default 0 (counts !! "HIGH"))%nat = total_entries (um_metadata url_map).
Proof.
  eexists. split; [vm_compute; reflexivity|].
  split; [vm_compute; reflexivity|]. split; [vm_compute; reflexivity|].
  apply (risk_distribution_counts_entries sample_ip_address sample_clock 0
           busy_static_results busy_dynamic_results busy_component_results).
  vm_compute; reflexivity.
Defined.

(** X16 on the busy example: two entries have the source [static]. *)
Lemma method_and_source_distribution_witness :
  ∃ url_map,
    generate_url_map sample_ip_address sample_clock 0 busy_static_results
      busy_dynamic_results busy_component_results = Ok url_map
    ∧ source_distribution (um_metadata url_map) !! "static" = Some 2
    ∧ method_distribution (um_metadata url_map) !! "CONTENT_PROVIDER" = Some 1
    ∧ let entries := default [] (um_entries url_map) in
      ∀ k,
        default 0 (method_distribution (um_metadata url_map) !! k)
          = count_by method k entries
        ∧ method_distribution (um_metadata url_map) !! k ≠ Some 0
        ∧ default 0 (source_distribution (um_metadata url_map) !! k)
          = count_source k entries
        ∧ source_distribution (um_metadata url_map) !! k ≠ Some 0.
Proof.
  eexists. split; [vm_compute; reflexivity|].
  split; [vm_compute; reflexivity|]. split; [vm_compute; reflexivity|].
  apply (method_and_source_distribution_count_entries sample_ip_address sample_clock 0
           busy_static_results busy_dynamic_results busy_component_results).
  vm_compute; reflexivity.
Defined.

(** X18 on the busy example. *)
Lemma generated_map_compared_witness :
  ∃ url_map,
    generate_url_map sample_ip_address sample_clock 0 busy_static_results
      busy_dynamic_results busy_component_results = Ok url_map
    ∧ total_entries (um_metadata url_map) = 4
    ∧ unchanged_count (compare_url_maps url_map url_map)
      = total_entries (um_metadata url_map)
    ∧ added_count (compare_url_maps url_map url_map) = 0
    ∧ removed_count (compare_url_maps url_map url_map) = 0.
Proof.
  eexists. split; [vm_compute; reflexivity|]. split; [reflexivity|].
  apply (generated_map_compared_with_itself sample_ip_address sample_clock 0
           busy_static_results busy_dynamic_results busy_component_results).
  vm_compute; reflexivity.
Defined.

(** X19 on three URLs of which two have one normal form and one is rejected,
    and, on a standard output that encodes ASCII only, on a rejected URL that
    is not ASCII. *)
Lemma deduplicate_urls_witness :
  let urls := ["HTTP://Example.COM./a/b/"; "http://example.com/a/b"; "http://[::1"] in
  let unique_urls := ["http://example.com/a/b"; "http://[::1"] in
  deduplicate_urls sample_ip_address sample_print urls = Ok unique_urls
  ∧ NoDup unique_urls
  ∧ (List.length unique_urls ≤ List.length urls)%nat
  ∧ ¬ ∃ unique_urls',
        deduplicate_urls sample_ip_address ascii_print ["http://[" +:+ chr 233]
        = Ok unique_urls'.
Proof.
  intros urls unique_urls.
  assert (Hrun : deduplicate_urls sample_ip_address sample_print urls = Ok unique_urls)
    by (vm_compute; reflexivity).
  destruct (proj1 (deduplicate_urls_normal_forms sample_ip_address sample_print urls)
              unique_urls Hrun) as (Hnodup & _ & Hlength).
  split; [exact Hrun|]. split; [exact Hnodup|]. split; [exact Hlength|].
  intros Hreturned.
  pose proof (proj1 (proj2 (deduplicate_urls_normal_forms sample_ip_address ascii_print
                              ["http://[" +:+ chr 233])) Hreturned
                ("http://[" +:+ chr 233) (ValueError "Invalid IPv6 URL")
                (list_elem_of_here _ _) eq_refl) as Hprinted.
  vm_compute in Hprinted. discriminate Hprinted.
Defined.

(** X21 on URLs of two tools, of which two have one normal form. *)
Lemma merge_static_results_rows_witness :
  let jadx_results := tool_urls ["https://api.example.com/users/123/x";
                                 "HTTPS://API.example.com/v1/login/"] in
  let apkleaks_results := tool_urls ["https://api.example.com/v1/login"] in
  ∃ merged rows,
    merge_static_results sample_ip_address sample_print jadx_results apkleaks_results
      (tool_urls []) = Ok merged
    ∧ sr_urls merged = Some rows
    ∧ su_original_url <$> rows
      = ["https://api.example.com/users/123/x"; "https://api.example.com/v1/login"]
    ∧ su_url <$> rows
      = [Some "https://api.example.com/users/{id}/x"; Some "https://api.example.com/v1/login"]
    ∧ NoDup (su_original_url <$> rows).
Proof.
  intros jadx_results apkleaks_results. eexists _, _.
  split; [vm_compute; reflexivity|]. split; [reflexivity|].
  split; [reflexivity|]. split; [reflexivity|].
  match goal with
  | |- NoDup (su_original_url <$> ?rows) =>
      destruct (proj1 (merge_static_results_rows sample_ip_address sample_print jadx_results
                         apkleaks_results (tool_urls [])) _ ltac:(vm_compute; reflexivity))
        as (rows' & Hrows & Hnodup & _)
  end.
  injection Hrows as <-. exact Hnodup.
Defined.

(** X20 at two spellings of one URL. *)
Lemma normalize_url_same_witness :
  let parsed1 := mkParseResult "http" "Example.COM." "/a/b/" "" "" "" in
  let parsed2 := mkParseResult "http" "example.com" "/a/b" "" "" "" in
  urlparse sample_ip_address "HTTP://Example.COM./a/b/" = Ok parsed1
  ∧ urlparse sample_ip_address "http://example.com/a/b" = Ok parsed2
  ∧ normalize_components parsed1 = normalize_components parsed2
  ∧ normalize_url sample_ip_address sample_print "HTTP://Example.COM./a/b/"
    = normalize_url sample_ip_address sample_print "http://example.com/a/b".
Proof.
  intros parsed1 parsed2. split; [reflexivity|]. split; [reflexivity|].
  split; [reflexivity|].
  apply (normalize_url_same_iff_same_components sample_ip_address sample_print
           "HTTP://Example.COM./a/b/" "http://example.com/a/b" parsed1 parsed2);
    reflexivity.
Defined.

(** X22 on a URL that JADX reports in a form that normalisation changes: its
    row has no source. *)
Lemma merge_static_results_sources_witness :
  let jadx_results := tool_urls ["HTTP://A.example.com/x/"; "http://b.example.com/y"] in
  let apkleaks_results := tool_urls ["http://b.example.com/y"] in
  let mobsf_results := tool_urls [] in
  let row := mkStaticUrl (Some "http://a.example.com/x") "http://a.example.com/x"
                         (Some []) [] in
  ∃ merged,
    merge_static_results sample_ip_address sample_print jadx_results apkleaks_results mobsf_results
      = Ok merged
    ∧ row ∈ default [] (sr_urls merged)
    ∧ su_sources row = []
    ∧ su_original_url row ∉ all_urls jadx_results apkleaks_results mobsf_results.
Proof.
  intros jadx_results apkleaks_results mobsf_results row.
  eexists. split; [vm_compute; reflexivity|].
  match goal with
  | |- context [sr_urls ?merged] =>
      destruct (merge_static_results_sources sample_ip_address sample_print jadx_results
                  apkleaks_results mobsf_results merged row)
        as (_ & _ & _ & _ & Hnone); [vm_compute; reflexivity | apply list_elem_of_here |]
  end.
  split; [apply list_elem_of_here|]. split; [reflexivity|]. apply Hnone. reflexivity.
Defined.

(** X23 on data like the sample of [url_normalizer.py]. *)
Lemma merge_static_results_collections_witness :
  let jadx_results :=
    mkToolResults (Some ["https://api.example.com/v1/products"])
                  (Some ["api.example.com"; "cdn.example.com"]) (Some []) None None None in
  let apkleaks_results :=
    mkToolResults (Some ["https://api.example.com/v1/login"]) None
                  (Some ["/api/v1/login"; "/api/v1/register"]) (Some ["API_KEY=abc123"])
                  None None in
  let mobsf_results :=
    mkToolResults (Some ["https://external-service.com/api/data"])
                  (Some ["external-service.com"; "api.example.com"]) None None
                  (Some ["android.permission.INTERNET"]) (Some []) in
  ∃ merged,
    merge_static_results sample_ip_address sample_print jadx_results apkleaks_results mobsf_results
      = Ok merged
    ∧ sr_domains merged = Some ["cdn.example.com"; "external-service.com"; "api.example.com"]
    ∧ NoDup (default [] (sr_domains merged))
    ∧ default [] (sr_secrets merged) = ["API_KEY=abc123"]
    ∧ default [] (sr_permissions merged) = ["android.permission.INTERNET"].
Proof.
  intros jadx_results apkleaks_results mobsf_results.
  eexists. split; [vm_compute; reflexivity|]. split; [reflexivity|].
  edestruct (merge_static_results_collections sample_ip_address sample_print jadx_results apkleaks_results
               mobsf_results) as (Hdomains & _ & _ & _ & Hsecrets & Hpermissions & _);
    [vm_compute; reflexivity|].
  split; [exact Hdomains|]. split; [exact Hsecrets | exact Hpermissions].
Defined.

(** X24 on an unclosed bracketed host that APKLeaks reports. *)
Lemma rejected_static_url_witness :
  let jadx_results := tool_urls ["https://api.example.com/v1/products"] in
  let apkleaks_results := tool_urls ["http://[::1"] in
  let mobsf_results := tool_urls [] in
  "http://[::1" ∈ all_urls jadx_results apkleaks_results mobsf_results
  ∧ urlparse sample_ip_address "http://[::1" = Raise (ValueError "Invalid IPv6 URL")
  ∧ (∃ merged,
       merge_static_results sample_ip_address sample_print jadx_results apkleaks_results
         mobsf_results = Ok merged
       ∧ (∃ row, row ∈ default [] (sr_urls merged)
                 ∧ su_url row = Some "http://[::1" ∧ su_original_url row = "http://[::1"
                 ∧ su_parameters row = Some [])
       ∧ ∀ now dynamic_results component_results,
           ∃ err', generate_url_map sample_ip_address sample_clock now merged
                     dynamic_results component_results = Raise err')
  ∧ ∀ now dynamic_results component_results,
      ∃ err',
        (merge_static_results sample_ip_address sample_print jadx_results apkleaks_results
           mobsf_results
         ≫= λ merged, generate_url_map sample_ip_address sample_clock now merged
                        dynamic_results component_results)
        = Raise err'.
Proof.
  intros jadx_results apkleaks_results mobsf_results.
  assert (Hin : "http://[::1" ∈ all_urls jadx_results apkleaks_results mobsf_results)
    by (apply list_elem_of_further, list_elem_of_here).
  split; [exact Hin|]. split; [reflexivity|].
  destruct (rejected_static_url_aborts_url_map sample_ip_address sample_clock sample_print
              jadx_results apkleaks_results mobsf_results "http://[::1" _ Hin eq_refl)
    as [Hreturned Hpipeline].
  split; [|exact Hpipeline].
  eexists. split; [vm_compute; reflexivity|].
  match goal with
  | |- context [sr_urls ?merged] =>
      destruct (Hreturned merged ltac:(vm_compute; reflexivity)) as (_ & _ & Hrow & Hmap)
  end.
  split; [exact Hrow | exact Hmap].
Defined.

(** X25 on a row without parameters and on two rows that [urlparse] rejects,
    the second of which has a URL that is not ASCII. *)
Lemma static_map_skips_witness :
  let good := mkStaticUrl (Some "https://api.example.com/v1/login")
                          "https://api.example.com/v1/login" (Some []) ["jadx"] in
  let no_parameters := mkStaticUrl (Some "https://api.example.com/v1/users") "" None [] in
  let rejected := mkStaticUrl (Some "http://[::1") "http://[::1" (Some []) ["apkleaks"] in
  let accented := mkStaticUrl (Some ("http://[" +:+ chr 233)) "" (Some []) [] in
  static_map_entries sample_ip_address sample_print sample_entry_str
    (static_rows [good; no_parameters])
  = static_map_entries sample_ip_address sample_print sample_entry_str (static_rows [good])
  ∧ static_map_entries sample_ip_address sample_print sample_entry_str
      (static_rows [rejected; good])
    = static_map_entries sample_ip_address sample_print sample_entry_str (static_rows [good])
  ∧ (∃ entries,
       static_map_entries sample_ip_address sample_print sample_entry_str (static_rows [good])
       = Ok entries ∧ List.length entries = 1)
  ∧ static_map_entries sample_ip_address ascii_print sample_entry_str
      (static_rows [good; accented])
    = Raise (UnicodeEncodeError "'ascii' codec can't encode character").
Proof.
  intros good no_parameters rejected accented. split_and!.
  - destruct (static_map_skips_bad_row sample_ip_address sample_print sample_entry_str
                [good] [] no_parameters) as [_ Hskip].
    destruct (Hskip (KeyError "parameters") eq_refl) as [Hprinted _].
    apply Hprinted. reflexivity.
  - destruct (static_map_skips_bad_row sample_ip_address sample_print sample_entry_str
                [] [good] rejected) as [_ Hskip].
    destruct (Hskip (ValueError "Invalid IPv6 URL") eq_refl) as [Hprinted _].
    apply Hprinted. reflexivity.
  - eexists. split; vm_compute; reflexivity.
  - destruct (static_map_skips_bad_row sample_ip_address ascii_print sample_entry_str
                [good] [] accented) as [_ Hskip].
    destruct (Hskip (ValueError "Invalid IPv6 URL") eq_refl) as [_ Hraised].
    eapply Hraised; vm_compute; reflexivity.
Defined.

(** X26 on a static row of the login URL. *)
Lemma static_map_row_agrees_witness :
  let url := "https://api.example.com/v1/login" in
  ∃ e url_entry,
    create_url_mapping_entry sample_ip_address sample_clock 0 url "UNKNOWN" "static" (Some [])
      = Ok e
    ∧ static_map_row sample_ip_address url url [] ["jadx"] = Ok url_entry
    ∧ sm_risk_level url_entry = HIGH
    ∧ sm_host url_entry = host e
    ∧ sm_risk_level url_entry = risk_level e
    ∧ sm_signature url_entry = signature e.
Proof.
  intros url. eexists _, _. split; [vm_compute; reflexivity|].
  edestruct (static_map_row_agrees_with_mapping_entry sample_ip_address sample_clock 0 url url
               [] ["jadx"]) as (url_entry & Hrow & Hhost & _ & _ & Hrisk & Hsignature);
    [vm_compute; reflexivity|].
  vm_compute in Hrow. injection Hrow as <-.
  split; [vm_compute; reflexivity|]. split; [reflexivity|].
  split; [exact Hhost|]. split; [exact Hrisk | exact (proj1 (Hsignature eq_refl))].
Defined.

(** X27 at a URL with a UUID, a number and two other segments between
    slashes. *)
Lemma extract_path_parameters_shapes_witness :
  let url := "https://api.example.com/items/123e4567-e89b-12d3-a456-426614174000/42/abc9/x" in
  let parameters_ := [mkParam "uuid" "123e4567-e89b-12d3-a456-426614174000";
                      mkParam "numeric_id" "42";
                      mkParam "alphanumeric_id" "items";
                      mkParam "alphanumeric_id" "abc9"] in
  extract_path_parameters sample_ip_address sample_print url
    = Ok ("https://api.example.com/{param}/{uuid}/{id}/{param}/x", parameters_)
  ∧ ∃ uuids numeric_ids alphanumeric_ids,
      parameters_ = (uuids ++ numeric_ids ++ alphanumeric_ids)%list
      ∧ Forall uuid_param uuids
      ∧ Forall numeric_param numeric_ids
      ∧ Forall alphanumeric_param alphanumeric_ids.
Proof.
  intros url parameters_. split; [vm_compute; reflexivity|].
  apply (extract_path_parameters_shapes sample_ip_address sample_print url
           "https://api.example.com/{param}/{uuid}/{id}/{param}/x" parameters_).
  vm_compute; reflexivity.
Defined.
